(** * coba: a shallow embedding of the benchmark loop, the batch policies,
      the linear congruential generator and the cachers.

    Sources embedded here:
    - [coba/random.py]                         (module [coba_random])
    - [coba/benchmarks.py]                     (module [benchmarks])
    - [coba/simulations.py]                    (modules [simulations], [benchmarks])
    - [coba/contexts/cachers.py]               (module [cachers])
    - [coba/environments/simulated/synthetics.py] (module [synthetics])

    Python integers are [Z].  Python floats appear through the interface
    [PyFloat], which has two instances: exact rational arithmetic ([Q]) and
    IEEE-754 binary64 (Rocq's primitive floats, the arithmetic CPython
    runs).  Exceptions are values of [exn] carried by [result].

    Two classes that the sources use are not among them.  The generator
    [coba.random.CobaRandom] is modelled from section 4.1 of the
    specification ([CobaRandom_random], [CobaRandom_randoms] and
    [CobaRandom_shuffle] in the module [coba_random]); the encoder
    [coba.encodings.InteractionsEncoder] is a parameter of the module
    [synthetics]. *)

From Stdlib Require Import ZArith QArith Qround Lia Lqa List Floats Permutation.
From stdpp Require Import base option list sorting gmap strings pretty.

Set Warnings "-register-all".
Open Scope Z_scope.

(** ** Exceptions and fallible computations *)

(** The exceptions that the embedded code raises, all of them of the class
    [Exception].  [KeyboardInterrupt] and [SystemExit], which a handler
    [except Exception] lets through, are not modelled. *)
Inductive exn : Type :=
| ValueError (msg : string)
| AttributeError (attr : string)
| IndexError
| KeyError
| ZeroDivisionError
| StatisticsError
| CobaException (msg : string)
| LearnerException (tag : Z)
| Exception (msg : string).

Inductive result (A : Type) : Type :=
| Ok (a : A)
| Raise (e : exn).
Arguments Ok {A} a.
Arguments Raise {A} e.

#[export] Instance result_ret : MRet result := fun _ a => Ok a.
#[export] Instance result_bind : MBind result := fun _ _ k m =>
  match m with
  | Ok a => k a
  | Raise e => Raise e
  end.

Definition is_ok {A : Type} (m : result A) : bool :=
  match m with Ok _ => true | Raise _ => false end.

(** ** Python floats *)

(** The float operations the embedded code uses.  [f_of_Z] is [float(n)]
    (also the implicit conversion of an [int] operand), [f_int] is [int(x)],
    truncation toward zero, [f_ltb] is [<], [f_is_zero] tells a divisor that
    makes [/] raise [ZeroDivisionError]. *)
Class PyFloat (F : Type) : Type := {
  f_of_Z : Z -> F;
  f_add : F -> F -> F;
  f_sub : F -> F -> F;
  f_mul : F -> F -> F;
  f_div : F -> F -> F;
  f_ltb : F -> F -> bool;
  f_is_zero : F -> bool;
  f_int : F -> Z;
  f_nonneg : F -> Prop
}.

(** Sign rules, for the meaning that each arithmetic gives to [f_nonneg].
    Exact arithmetic obeys them ([exact_signs] below) and so does binary64
    ([binary64_signs] below). *)
Class PyFloatSigns (F : Type) `{PyFloat F} : Prop := {
  f_of_Z_nonneg : forall z, 0 <= z -> f_nonneg (f_of_Z z);
  f_add_nonneg : forall x y, f_nonneg x -> f_nonneg y -> f_nonneg (f_add x y);
  f_mul_nonneg : forall x y, f_nonneg x -> f_nonneg y -> f_nonneg (f_mul x y);
  f_div_nonneg : forall x z, f_nonneg x -> 0 < z -> f_nonneg (f_div x (f_of_Z z));
  f_int_nonneg : forall x, f_nonneg x -> 0 <= f_int x
}.

(** Exact arithmetic. *)
Definition Qtrunc (q : Q) : Z :=
  if (0 <=? Qnum q)%Z then Qfloor q else Qceiling q.

#[export] Instance exact : PyFloat Q := {
  f_of_Z := inject_Z;
  f_add := Qplus;
  f_sub := Qminus;
  f_mul := Qmult;
  f_div := Qdiv;
  f_ltb := fun x y => negb (Qle_bool y x);
  f_is_zero := fun x => Qeq_bool x 0;
  f_int := Qtrunc;
  f_nonneg := fun q => (0 <= q)%Q
}.

(** IEEE-754 binary64.  [float(n)] rounds to nearest: [Z_to_float] is
    [float(n)] for [n] below [2 ^ 63] in magnitude, as the lengths and the
    states of the generator are.  [int(x)] reads the mantissa and the
    exponent of [x], and raises on an infinity or a NaN: [float_to_Z] is 0
    there, and [shuffle_index_is_finite] and [randint_index_is_finite]
    show that the values that [shuffle], [randint] and [choice] hand to
    [int] are numbers. *)
Definition Z_to_float (z : Z) : float :=
  if z <? 0 then PrimFloat.opp (PrimFloat.of_uint63 (Uint63.of_Z (- z)))
  else PrimFloat.of_uint63 (Uint63.of_Z z).

Definition float_to_Z (x : float) : Z :=
  match Prim2SF x with
  | S754_finite s m e =>
      let v := if 0 <=? e then Z.shiftl (Z.pos m) e else Z.shiftr (Z.pos m) (- e) in
      if s then - v else v
  | _ => 0
  end.

(** A binary64 value that is not below zero: its sign bit is clear, or it
    is a NaN.  The sum, the product and the quotient of two such values are
    such values again, whatever their size: an overflow gives [+inf], and
    [inf * 0], [inf / inf] and [0 / 0] are NaNs. *)
Definition sign_clear (x : spec_float) : Prop :=
  match x with
  | S754_zero s | S754_infinity s | S754_finite s _ _ => s = false
  | S754_nan => True
  end.

(** A binary64 value that is a number: a zero or a finite value.  On
    these [int(x)] returns, and [float_to_Z] is what it returns. *)
Definition isfinite (x : spec_float) : Prop :=
  match x with
  | S754_zero _ | S754_finite _ _ _ => True
  | _ => False
  end.

(** A binary64 number whose magnitude is at most [2 ^ K]. *)
Definition small (K : Z) (x : spec_float) : Prop :=
  match x with
  | S754_zero _ => True
  | S754_finite _ m e => Z.pos m <= 2 ^ (K - e)
  | _ => False
  end.

#[export] Instance binary64 : PyFloat float := {
  f_of_Z := Z_to_float;
  f_add := PrimFloat.add;
  f_sub := PrimFloat.sub;
  f_mul := PrimFloat.mul;
  f_div := PrimFloat.div;
  f_ltb := PrimFloat.ltb;
  f_is_zero := PrimFloat.is_zero;
  f_int := float_to_Z;
  f_nonneg := fun x => sign_clear (Prim2SF x)
}.

(** [math.sqrt(x)] on a float: the square root rounded to nearest; below
    zero it raises [ValueError] ("math domain error"), a NaN, [-0.0] and
    [+inf] are returned as they are. *)
Definition math_sqrt (x : float) : result float :=
  if PrimFloat.ltb x 0%float then Raise (ValueError "math domain error")
  else Ok (PrimFloat.sqrt x).

(** ** Python sequences *)

(** [l[j]] on a sequence of length [n]: a negative index counts from the
    end, anything outside [-n, n) raises [IndexError]. *)
Definition py_index (n : nat) (j : Z) : option nat :=
  if (0 <=? j) && (j <? Z.of_nat n) then Some (Z.to_nat j)
  else if (- Z.of_nat n <=? j) && (j <? 0) then Some (Z.to_nat (Z.of_nat n + j))
  else None.

Definition py_get {A : Type} (l : list A) (j : Z) : result A :=
  match py_index (length l) j with
  | Some k =>
      match l !! k with
      | Some x => Ok x
      | None => Raise IndexError
      end
  | None => Raise IndexError
  end.

(** [l[i], l[j] = l[j], l[i]]: both reads, then the write to [l[i]], then
    the write to [l[j]]. *)
Definition py_swap {A : Type} (l : list A) (i j : Z) : result (list A) :=
  lj ← py_get l j;
  li ← py_get l i;
  match py_index (length l) i, py_index (length l) j with
  | Some ki, Some kj => Ok (<[kj := li]> (<[ki := lj]> l))
  | _, _ => Raise IndexError
  end.

(** [range(n)] *)
Definition py_range (n : Z) : list Z := map Z.of_nat (seq 0 (Z.to_nat n)).

(** ** coba/random.py *)

Module coba_random.

Definition _m : Z := 2 ^ 30.
Definition _a : Z := 116646453.
Definition _c : Z := 9.
Definition _m_minus_1 : Z := _m - 1.

(** One turn of the loop of [Random._next].  [_m] is a power of two, so
    [_m_is_power_of_2] holds and the update is the one written with [&]. *)
Definition lcg (seed : Z) : Z := Z.land (_a * seed + _c) _m_minus_1.

Fixpoint iter_next (n : nat) (seed : Z) : list Z * Z :=
  match n with
  | O => ([], seed)
  | S n' =>
      let s := lcg seed in
      let '(numbers, seed') := iter_next n' s in
      (s :: numbers, seed')
  end.

(** [Random._next(n)], threading the field [_seed]. *)
Definition _next (n : Z) (seed : Z) : result (list Z * Z) :=
  if n <=? 0 then Raise (ValueError "n must be an integer greater than 0")
  else Ok (iter_next (Z.to_nat n) seed).

Section Floats.
Context {F : Type} `{PyFloat F}.

(** [Random.randoms(n)] *)
Definition randoms (n : Z) (seed : Z) : result (list F * Z) :=
  '(numbers, seed') ← _next n seed;
  Ok (map (fun number => f_div (f_of_Z number) (f_of_Z _m_minus_1)) numbers, seed').

(** Module-level [random()], that is [randoms(1)[0]]. *)
Definition random (seed : Z) : result (F * Z) :=
  '(rs, seed') ← randoms 1 seed;
  r ← py_get rs 0;
  Ok (r, seed').

(** Module-level [randint(a, b)]. *)
Definition randint (a b : Z) (seed : Z) : result (Z * Z) :=
  '(u, seed') ← random seed;
  Ok (Z.min (f_int (f_mul (f_of_Z (b - a + 1)) u)) (b - 1) + a, seed').

(** The loop of [Random.shuffle] over the indexes still to visit. *)
Fixpoint shuffle_loop {A : Type} (indexes : list Z) (n : Z) (r : list F) (l : list A)
  : result (list A) :=
  match indexes with
  | [] => Ok l
  | i :: rest =>
      ri ← py_get r i;
      let j := Z.min (f_int (f_add (f_of_Z i) (f_mul ri (f_of_Z (n - i))))) (n - 1) in
      l' ← py_swap l i j;
      shuffle_loop rest n r l'
  end.

(** [Random.shuffle(sequence)]: the result is the new list [l]; the
    argument is only read. *)
Definition shuffle {A : Type} (sequence : list A) (seed : Z) : result (list A * Z) :=
  let n := Z.of_nat (length sequence) in
  '(r, seed') ← randoms n seed;
  let l := sequence in
  l' ← shuffle_loop (py_range n) n r l;
  Ok (l', seed').

(** The same method with the lists as objects of a store, to tell the
    argument from the result: [sequence] is the reference passed in,
    [l = list(sequence)] a new object, and the loop writes to [l] alone. *)
Definition deref {A : Type} (store : gmap nat (list A)) (ref : nat) : result (list A) :=
  match store !! ref with
  | Some items => Ok items
  | None => Raise (Exception "dangling reference")
  end.

Fixpoint shuffle_loop_at {A : Type} (indexes : list Z) (n : Z) (r : list F) (l : nat)
  (store : gmap nat (list A)) : result (gmap nat (list A)) :=
  match indexes with
  | [] => Ok store
  | i :: rest =>
      ri ← py_get r i;
      let j := Z.min (f_int (f_add (f_of_Z i) (f_mul ri (f_of_Z (n - i))))) (n - 1) in
      items ← deref store l;
      items' ← py_swap items i j;
      shuffle_loop_at rest n r l (<[l := items']> store)
  end.

Definition shuffle_at {A : Type} (store : gmap nat (list A)) (sequence : nat) (seed : Z)
  : result (gmap nat (list A) * nat * Z) :=
  items ← deref store sequence;
  let n := Z.of_nat (length items) in
  '(r, seed') ← randoms n seed;
  let l := fresh (dom store) in
  store' ← shuffle_loop_at (py_range n) n r l (<[l := items]> store);
  Ok (store', l, seed').

(** Module-level [choice(seq)], that is [seq[randint(0, len(seq)-1)]]. *)
Definition choice {A : Type} (seq : list A) (seed : Z) : result (A * Z) :=
  '(j, seed') ← randint 0 (Z.of_nat (length seq) - 1) seed;
  x ← py_get seq j;
  Ok (x, seed').

(** Modelled from the spec: the class [CobaRandom], which
    [coba/simulations.py] (line 461) and
    [coba/environments/simulated/synthetics.py] (line 6) take from
    [coba.random], and which no source defines: [coba/random.py] has the
    class [Random] and the functions above.  Section 4.1 of the
    specification: "Linear congruential generator with parameters
    a = 116_646_453, c = 9, m = 2^30.  State is a 30-bit integer", and
    "uniform() -> f64 in [0,1], computed as state / (m-1)".  This is
    [rng.random()] from the state [seed] of [rng]: one turn of [lcg], the
    generator of [Random], and the new state over [m - 1]. *)
Definition CobaRandom_random (seed : Z) : F * Z :=
  let state := lcg seed in
  (f_div (f_of_Z state) (f_of_Z _m_minus_1), state).

(** Modelled from the spec: [rng.randoms(n)] of the missing class
    [CobaRandom].  Section 4.1: "uniforms(n) -- n draws", each one
    "computed as state / (m-1)"; an [n] that is not positive asks for no
    draw. *)
Definition CobaRandom_randoms (n : Z) (seed : Z) : list F * Z :=
  let '(numbers, seed') := iter_next (Z.to_nat n) seed in
  (map (fun number => f_div (f_of_Z number) (f_of_Z _m_minus_1)) numbers, seed').

(** Modelled from the spec: [rng.shuffle(sequence)] of the missing class
    [CobaRandom].  Section 4.1: "shuffle(seq) -- Fisher-Yates using the
    above uniforms"; section 8: "shuffle(seq, seed) is a permutation
    (multiset equality)".  The Fisher-Yates loop is the one that
    [Random.shuffle] runs, on [len(sequence)] draws. *)
Definition CobaRandom_shuffle {A : Type} (sequence : list A) (seed : Z)
  : result (list A * Z) :=
  let n := Z.of_nat (length sequence) in
  let '(r, seed') := CobaRandom_randoms n seed in
  l' ← shuffle_loop (py_range n) n r sequence;
  Ok (l', seed').

End Floats.

End coba_random.

(** ** coba/simulations.py *)

Module simulations.

(** A hashable Python value: what a [Context] or an [Action] may be. *)
Inductive value : Type :=
| VNone
| VInt (z : Z)
| VStr (s : string)
| VTuple (items : list Z).

Definition Key : Type := Z.
Definition Choice : Type := Z.
Definition Reward : Type := Q.

Record Interaction : Type := mkInteraction {
  context : value;
  actions : list value;
  key : Key
}.

(** Objects of classes that this module does not define.  Each field is
    one attribute as the benchmark sees it; [None] is an attribute the
    object does not have. *)
Record OtherSim : Type := mkOtherSim {
  o_is_lazy : bool;
  o_load : option (result unit);
  o_unload : option (result unit);
  o_interactions : result (list Interaction);
  o_rewards : option (list (Key * Choice) -> result (list Reward))
}.

(** The implementations of [Simulation] in the module, by their fields.
    [ClassificationSimulation] is a [MemorySimulation] built from encoded
    labels. *)
Inductive Simulation : Type :=
| MemorySimulation (_interactions : list Interaction) (_rewards : gmap (Key * Choice) Reward)
| LazySimulation (_simulation : option Simulation)
| ShuffleSimulation (_seed : option Z) (_simulation : Simulation)
    (_interactions : list Interaction)
| TakeSimulation (_count : Z) (_simulation : Simulation) (_interactions : list Interaction)
| Other (o : OtherSim).

Definition not_loaded : exn :=
  Exception "A LazySimulation must be loaded before it can be used.".

(** The property [interactions]. *)
Fixpoint interactions (s : Simulation) : result (list Interaction) :=
  match s with
  | MemorySimulation i _ => Ok i
  | LazySimulation (Some s') => interactions s'
  | LazySimulation None => Raise not_loaded
  | ShuffleSimulation _ _ i => Ok i
  | TakeSimulation _ _ i => Ok i
  | Other o => o_interactions o
  end.

(** [MemorySimulation.reward]: [[self._rewards[choice] for choice in choices]]. *)
Fixpoint lookup_rewards (rewards : gmap (Key * Choice) Reward) (choices : list (Key * Choice))
  : result (list Reward) :=
  match choices with
  | [] => Ok []
  | c :: rest =>
      match rewards !! c with
      | Some r => rs ← lookup_rewards rewards rest; Ok (r :: rs)
      | None => Raise KeyError
      end
  end.

(** The method [reward] of the module's classes. *)
Fixpoint reward (s : Simulation) (choices : list (Key * Choice)) : result (list Reward) :=
  match s with
  | MemorySimulation _ r => lookup_rewards r choices
  | LazySimulation (Some s') => reward s' choices
  | LazySimulation None => Raise not_loaded
  | ShuffleSimulation _ s' _ => reward s' choices
  | TakeSimulation _ s' _ => reward s' choices
  | Other _ => Raise (AttributeError "reward")
  end.

(** Attribute lookup, [None] when the object has no such attribute.  The
    module's classes define [interactions] and [reward]; none of them
    defines [rewards], [load] or [unload]. *)
Definition getattr_reward (s : Simulation)
  : option (list (Key * Choice) -> result (list Reward)) :=
  match s with
  | Other _ => None
  | _ => Some (reward s)
  end.

Definition getattr_rewards (s : Simulation)
  : option (list (Key * Choice) -> result (list Reward)) :=
  match s with
  | Other o => o_rewards o
  | _ => None
  end.

Definition getattr_load (s : Simulation) : option (result unit) :=
  match s with
  | Other o => o_load o
  | _ => None
  end.

Definition getattr_unload (s : Simulation) : option (result unit) :=
  match s with
  | Other o => o_unload o
  | _ => None
  end.

(** [isinstance(simulation, LazySimulation)] *)
Definition is_LazySimulation (s : Simulation) : bool :=
  match s with
  | LazySimulation _ => true
  | Other o => o_is_lazy o
  | _ => false
  end.

(** An instance of one of the module's own classes. *)
Definition of_module (s : Simulation) : bool :=
  match s with
  | Other _ => false
  | _ => true
  end.

(** [simulation.name(args)]: look the attribute up, then call it. *)
Definition call {A B : Type} (name : string) (attr : option (A -> result B)) (x : A)
  : result B :=
  match attr with
  | Some f => f x
  | None => Raise (AttributeError name)
  end.

Definition call0 {B : Type} (name : string) (attr : option (result B)) : result B :=
  match attr with
  | Some r => r
  | None => Raise (AttributeError name)
  end.

(** [l[j] += 1] *)
Definition py_incr (l : list Z) (j : Z) : result (list Z) :=
  x ← py_get l j;
  match py_index (length l) j with
  | Some k => Ok (<[k := x + 1]> l)
  | None => Raise IndexError
  end.

(** [l[a:b]]: a negative bound counts from the end, and both are clamped
    to [[0, len(l)]]. *)
Definition py_slice_bound (n : nat) (i : Z) : nat :=
  if i <? 0 then Z.to_nat (Z.max (Z.of_nat n + i) 0) else Z.to_nat (Z.min i (Z.of_nat n)).

Definition py_slice {A : Type} (l : list A) (a b : Z) : list A :=
  let lo := py_slice_bound (length l) a in
  let hi := py_slice_bound (length l) b in
  take (hi - lo) (drop lo l).

(** [dict(pairs)]: a later pair replaces an earlier one with the same key. *)
Definition py_dict {K V : Type} `{Countable K} (pairs : list (K * V)) : gmap K V :=
  foldl (fun m kv => <[fst kv := snd kv]> m) ∅ pairs.

(** [Interaction.__init__]: [assert actions]. *)
Definition Interaction_init (context : value) (actions : list value) (key : Key)
  : result Interaction :=
  match actions with
  | [] => Raise (Exception "AssertionError: At least one action must be provided to interact")
  | _ :: _ => Ok (mkInteraction context actions key)
  end.

(** The choices [(i.key, a) for a in range(len(i.actions))] of one
    interaction. *)
Definition choices_of (i : Interaction) : list (Key * Choice) :=
  map (fun a => (key i, a)) (py_range (Z.of_nat (length (actions i)))).

(** [MemorySimulation.__init__] *)
Definition MemorySimulation_init (interactions : list Interaction)
  (reward_sets : list (list Reward)) : result Simulation :=
  if negb (length interactions =? length reward_sets)%nat
  then Raise (Exception "AssertionError: Mismatched lengths of interactions and rewards")
  else
    let choices := concat (map choices_of interactions) in
    let rewards := concat reward_sets in
    Ok (MemorySimulation interactions (py_dict (zip choices rewards))).

(** [TakeSimulation.__init__] *)
Definition TakeSimulation_init (count : Z) (simulation : Simulation) : result Simulation :=
  items ← interactions simulation;
  Ok (TakeSimulation count simulation (py_slice items 0 count)).

(** [Take.filter]; [_count] is [None] or an [int]. *)
Definition Take_filter (_count : option Z) (item : Simulation) : result Simulation :=
  match _count with
  | None =>
      items ← interactions item;
      TakeSimulation_init (Z.of_nat (length items)) item
  | Some count =>
      items ← interactions item;
      if Z.of_nat (length items) <? count then TakeSimulation_init 0 item
      else TakeSimulation_init count item
  end.

(** A [BatchedSimulation]: the fields [_simulation] and [_batches]. *)
Record BatchedSimulation : Type := mkBatched {
  b_simulation : Simulation;
  _batches : list (list Interaction)
}.

(** [list(accumulate([0] + batch_sizes))]: the running sums from [total]. *)
Fixpoint accumulate (total : Z) (batch_sizes : list Z) : list Z :=
  match batch_sizes with
  | [] => [total]
  | s :: rest => total :: accumulate (total + s) rest
  end.

(** The slices [items[batch_slices[i]:batch_slices[i+1]]] for [i] in
    [range(len(batch_slices)-1)]. *)
Fixpoint slices (items : list Interaction) (batch_slices : list Z) : list (list Interaction) :=
  match batch_slices with
  | a :: ((b :: _) as rest) => py_slice items a b :: slices items rest
  | _ => []
  end.

(** [BatchedSimulation.__init__]: [filter(None, batch_sizes)] drops the
    entries that are [None] or 0.  The property [interactions] is read once
    for every batch; it gives the same list each time. *)
Definition BatchedSimulation_init (simulation : Simulation) (batch_sizes : list (option Z))
  : result BatchedSimulation :=
  let batch_sizes := omap (fun s => match s with
                                    | Some z => if z =? 0 then None else Some z
                                    | None => None
                                    end) batch_sizes in
  match batch_sizes with
  | [] => Ok (mkBatched simulation [])
  | _ :: _ =>
      let batch_slices := accumulate 0 batch_sizes in
      items ← interactions simulation;
      Ok (mkBatched simulation (slices items batch_slices))
  end.

(** [BatchedSimulation.reward] *)
Definition Batched_reward (self : BatchedSimulation) (choices : list (Key * Choice))
  : result (list Reward) :=
  reward (b_simulation self) choices.


(** The loop of [LambdaSource.__init__] over the indexes still to visit:
    the interactions and the reward sets built.  The three callables are
    functions of their arguments. *)
Fixpoint LambdaSource_items (indexes : list Z) (context : Z -> value)
    (action_set : Z -> list value) (reward : value -> value -> Reward)
  : result (list Interaction * list (list Reward)) :=
  match indexes with
  | [] => Ok ([], [])
  | i :: rest =>
      let _context := context i in
      let _action_set := action_set i in
      let _reward_set := map (reward _context) _action_set in
      interaction ← Interaction_init _context _action_set i;
      '(interactions, reward_sets) ← LambdaSource_items rest context action_set reward;
      Ok (interaction :: interactions, _reward_set :: reward_sets)
  end.

(** [LambdaSource.__init__] followed by [read]. *)
Definition LambdaSource_read (n_interactions : Z) (context : Z -> value)
    (action_set : Z -> list value) (reward : value -> value -> Reward)
  : result (list Interaction * list (list Reward)) :=
  LambdaSource_items (py_range n_interactions) context action_set reward.

(** [LambdaSimulation.__init__] followed by [read]:
    [MemorySimulation( *self._source.read())]. *)
Definition LambdaSimulation_read (n_interactions : Z) (context : Z -> value)
    (action_set : Z -> list value) (reward : value -> value -> Reward)
  : result Simulation :=
  '(interactions, reward_sets) ← LambdaSource_read n_interactions context action_set reward;
  MemorySimulation_init interactions reward_sets.

Section Floats.
Context {F : Type} `{PyFloat F}.

(** The loop [for i in range(remainder): sizes[int(i*len(sizes)/remainder)] += 1]
    of [Batch.filter]. *)
Fixpoint Batch_spread (indexes : list Z) (remainder : Z) (sizes : list Z) : result (list Z) :=
  match indexes with
  | [] => Ok sizes
  | i :: rest =>
      let j := f_int (f_div (f_of_Z (i * Z.of_nat (length sizes))) (f_of_Z remainder)) in
      sizes' ← py_incr sizes j;
      Batch_spread rest remainder sizes'
  end.

(** The sizes [Batch(count=count).filter] computes for a simulation of [n]
    interactions. *)
Definition Batch_filter_sizes (count : Z) (n : Z) : result (list Z) :=
  if count =? 0 then Raise ZeroDivisionError
  else
    let sizes := replicate (Z.to_nat count) (f_int (f_div (f_of_Z n) (f_of_Z count))) in
    let remainder := n - foldr Z.add 0 sizes in
    Batch_spread (py_range remainder) remainder sizes.


(** [Batch.filter]: the three keyword arguments are looked at in turn,
    a later one replacing the sizes of an earlier one. *)
Definition Batch_filter (_count _size : option Z) (_sizes : option (list Z))
  (item : Simulation) : result BatchedSimulation :=
  sizes1 ← match _count with
           | Some count =>
               items ← interactions item;
               sizes ← Batch_filter_sizes count (Z.of_nat (length items));
               Ok (Some sizes)
           | None => Ok None
           end;
  sizes2 ← match _size with
           | Some size =>
               items ← interactions item;
               let n := Z.of_nat (length items) in
               if size =? 0 then Raise ZeroDivisionError
               else Ok (Some (replicate (Z.to_nat (f_int (f_div (f_of_Z n) (f_of_Z size)))) size))
           | None => Ok sizes1
           end;
  let sizes3 := match _sizes with
                | Some sizes => Some sizes
                | None => sizes2
                end in
  match sizes3 with
  | None => Raise (Exception "We were unable to determine an approriate batch sizes")
  | Some sizes => BatchedSimulation_init item (map Some sizes)
  end.


(** [ShuffleSimulation.__init__]: [seed] is the state that the generator
    [coba.random.CobaRandom(self._seed)] starts from.  The class
    [CobaRandom] is not among the sources: its [shuffle] is
    [coba_random.CobaRandom_shuffle], modelled from the specification. *)
Definition ShuffleSimulation_init (_seed : option Z) (seed : Z) (simulation : Simulation)
  : result Simulation :=
  items ← interactions simulation;
  '(shuffled, _) ← coba_random.CobaRandom_shuffle items seed;
  Ok (ShuffleSimulation _seed simulation shuffled).

(** [Shuffle.filter], for a seed that is not [None]. *)
Definition Shuffle_filter (_seed : Z) (item : Simulation) : result Simulation :=
  ShuffleSimulation_init (Some _seed) _seed item.

End Floats.

End simulations.

(** ** coba/benchmarks.py *)

Module benchmarks.
Import simulations.

(** Modelled from the spec: [coba.statistics.SummaryStats] is not among the
    sources; section 4.8 gives [n], the arithmetic mean, the sample variance
    (divisor [n-1] when [n > 1], else 0), the minimum and the maximum. *)
Record SummaryStats : Type := mkStats {
  stats_n : Z;
  stats_mean : Q;
  stats_variance : Q;
  stats_min : Q;
  stats_max : Q
}.

Definition Qsum (xs : list Q) : Q := foldr Qplus 0%Q xs.

Definition Qmin (x y : Q) : Q := if Qle_bool x y then x else y.
Definition Qmax (x y : Q) : Q := if Qle_bool x y then y else x.

Definition from_observations (xs : list Reward) : SummaryStats :=
  let n := Z.of_nat (length xs) in
  let mean := if n =? 0 then 0%Q else (Qsum xs / inject_Z n)%Q in
  let var :=
    if n <=? 1 then 0%Q
    else (Qsum (map (fun x => (x - mean) * (x - mean)) xs) / inject_Z (n - 1))%Q in
  mkStats n mean var (foldr Qmin (hd 0%Q xs) xs) (foldr Qmax (hd 0%Q xs) xs).

(** A learner: an object with a state of its own, [choose] and [learn]
    that may change the state or raise, and the property [name], [None]
    when reading it raises. *)
Record Learner : Type := mkLearner {
  l_state : Type;
  l_self : l_state;
  l_choose : l_state -> Key -> value -> list value -> result (Choice * l_state);
  l_learn : l_state -> Key -> value -> value -> Reward -> result l_state;
  l_name : l_state -> option string
}.

Definition with_state (L : Learner) (s : l_state L) : Learner :=
  mkLearner (l_state L) s (l_choose L) (l_learn L) (l_name L).

Definition choose (L : Learner) (k : Key) (c : value) (a : list value)
  : result (Choice * Learner) :=
  '(choice, s) ← l_choose L (l_self L) k c a;
  Ok (choice, with_state L s).

Definition learn (L : Learner) (k : Key) (c : value) (a : value) (r : Reward)
  : result Learner :=
  s ← l_learn L (l_self L) k c a r;
  Ok (with_state L s).

(** A learner factory: each call builds a fresh learner, or raises. *)
Definition Factory : Type := result Learner.

Record Result : Type := mkResult {
  learner_name : string;
  simulation_index : Z;
  batch_index : Z;
  interaction_count : Z;
  median_feature_count : Q;
  median_action_count : Q;
  stats : SummaryStats
}.

(** The argument [batch_size]: an [int], a sequence or a callable. *)
Inductive BatchSize : Type :=
| SizeInt (size : Z)
| SizeSeq (sizes : list Z)
| SizeFn (fn : Z -> Z).

Record UniversalBenchmark : Type := mkBenchmark {
  _simulations : list Simulation;
  _batch_count : option Z;
  _batch_size : option BatchSize
}.

(** [statistics.median]: the middle of the sorted data, the mean of the two
    middle items when their number is even, [StatisticsError] on no data. *)
Definition median (data : list Z) : result Q :=
  let sorted := merge_sort Z.le data in
  let n := length sorted in
  if (n =? 0)%nat then Raise StatisticsError
  else
    let hi := nth (n / 2) sorted 0 in
    let lo := nth (n / 2 - 1) sorted 0 in
    if Nat.odd n then Ok (inject_Z hi)
    else Ok ((inject_Z lo + inject_Z hi) / 2)%Q.

Definition feature_count (i : Interaction) : Z :=
  match context i with
  | VTuple items => Z.of_nat (length items)
  | VNone => 0
  | _ => 1
  end.

Definition action_count (i : Interaction) : Z := Z.of_nat (length (actions i)).

(** [UniversalBenchmark._safe_name] *)
Definition _safe_name (learner_index : Z) (learner : Learner) : string :=
  match l_name learner (l_self learner) with
  | Some name => name
  | None => pretty learner_index
  end.

Section Floats.
Context {F : Type} `{PyFloat F}.

(** The loop [for i in range(remainder): batches[int(i*spacing)] += 1]. *)
Fixpoint spread (indexes : list Z) (spacing : F) (batches : list Z) : result (list Z) :=
  match indexes with
  | [] => Ok batches
  | i :: rest =>
      batches' ← py_incr batches (f_int (f_mul (f_of_Z i) spacing));
      spread rest spacing batches'
  end.

(** The branch [self._batch_count is not None] of [_batch_sizes]. *)
Definition batch_sizes_count (batch_count : Z) (n_interactions : Z) : result (list Z) :=
  if batch_count =? 0 then Raise ZeroDivisionError
  else
    let batches :=
      replicate (Z.to_nat batch_count)
        (f_int (f_div (f_of_Z n_interactions) (f_of_Z batch_count))) in
    let remainder := n_interactions mod batch_count in
    if 0 <? remainder then
      let spacing := f_div (f_of_Z batch_count) (f_of_Z remainder) in
      spread (py_range remainder) spacing batches
    else Ok batches.

(** The branch [isinstance(self._batch_size, int)]. *)
Definition batch_sizes_int (size : Z) (n_interactions : Z) : result (list Z) :=
  if size =? 0 then Raise ZeroDivisionError
  else Ok (replicate (Z.to_nat (f_int (f_div (f_of_Z n_interactions) (f_of_Z size)))) size).

(** The [while] loop of the branch [callable(self._batch_size)]:
    [i] is the index of [next_batch_size] in [fn(0), fn(1), ...]; [None]
    when the fuel runs out before the loop ends. *)
Fixpoint batch_sizes_while (fuel : nat) (fn : Z -> Z) (i : Z) (next_batch_size : Z)
  (remaining_interactions : Z) (batch_sizes : list Z) : option (list Z) :=
  match fuel with
  | O => None
  | S fuel' =>
      if next_batch_size <? remaining_interactions then
        batch_sizes_while fuel' fn (i + 1) (fn (i + 1))
          (remaining_interactions - next_batch_size) (batch_sizes ++ [next_batch_size])
      else Some batch_sizes
  end.

Definition batch_sizes_callable (fuel : nat) (fn : Z -> Z) (n_interactions : Z)
  : option (list Z) :=
  batch_sizes_while fuel fn 0 (fn 0) n_interactions [].

(** [UniversalBenchmark._batch_sizes]; [None] when the fuel runs out. *)
Definition _batch_sizes (fuel : nat) (self : UniversalBenchmark) (n_interactions : Z)
  : option (result (list Z)) :=
  match _batch_count self with
  | Some batch_count => Some (batch_sizes_count batch_count n_interactions)
  | None =>
      match _batch_size self with
      | Some (SizeInt size) => Some (batch_sizes_int size n_interactions)
      | Some (SizeSeq sizes) => Some (Ok sizes)
      | Some (SizeFn fn) => Ok <$> batch_sizes_callable fuel fn n_interactions
      | None =>
          Some (Raise (Exception
            "We were unable to determine batch size from the supplied parameters"))
      end
  end.

(** What the iterator [batch_indexes] still has to give:
    [b for i, s in enumerate(batch_sizes) for b in repeat(i, s)]. *)
Definition batch_indexes_of (batch_sizes : list Z) : list Z :=
  concat (imap (fun i s => replicate (Z.to_nat s) (Z.of_nat i)) batch_sizes).

(** The calls of [next] on [zip(batch_indexes, xs)] up to the first that
    stops: the pairs given, and what is left in the iterator
    [batch_indexes].  [zip] asks its first argument first, so the index
    drawn by a call that finds [xs] exhausted is lost. *)
Fixpoint zip_pull {A : Type} (batch_indexes : list Z) (xs : list A)
  : list (Z * A) * list Z :=
  match batch_indexes with
  | [] => ([], [])
  | b :: rest =>
      match xs with
      | [] => ([], rest)
      | x :: xs' =>
          let '(pairs, unread) := zip_pull rest xs' in
          ((b, x) :: pairs, unread)
      end
  end.

(** [groupby] over that [zip], run to its end by the [for] loop.  The last
    group ends on a call of [next(zip)] that stops; the [for] loop then
    asks [groupby] for a further group, and [groupby] calls [next(zip)]
    once more.  A [zip] keeps no memory of having stopped: the second call
    draws (and loses) a further index.  When no pair was given at all
    there is one call only. *)
Definition zip_groupby_pull {A : Type} (batch_indexes : list Z) (xs : list A)
  : list (Z * A) * list Z :=
  let '(pairs, unread) := zip_pull batch_indexes xs in
  match pairs with
  | [] => (pairs, unread)
  | _ :: _ => (pairs, tail unread)
  end.

(** [groupby(pairs, lambda t: t[0])]: runs of equal batch index. *)
Fixpoint groupby {A : Type} (pairs : list (Z * A)) : list (Z * list A) :=
  match pairs with
  | [] => []
  | (b, x) :: rest =>
      match groupby rest with
      | (b', xs) :: groups =>
          if b =? b' then (b, x :: xs) :: groups else (b, [x]) :: (b', xs) :: groups
      | [] => [(b, [x])]
      end
  end.

(** One entry of the parallel lists [keys], [contexts], [choices], [actions]. *)
Definition Chosen : Type := (Key * value * Choice * value)%type.

(** The loop [for _, i in batch_group[1]]. *)
Fixpoint choose_batch (learner : Learner) (group : list Interaction)
  : result (Learner * list Chosen) :=
  match group with
  | [] => Ok (learner, [])
  | i :: rest =>
      '(choice, learner1) ← choose learner (key i) (context i) (actions i);
      action ← py_get (actions i) choice;
      '(learner2, chosen) ← choose_batch learner1 rest;
      Ok (learner2, (key i, context i, choice, action) :: chosen)
  end.

(** The loop [for (key,context,action,reward) in zip(keys,contexts,actions,rewards)]. *)
Fixpoint learn_batch (learner : Learner) (observed : list (Chosen * Reward))
  : result Learner :=
  match observed with
  | [] => Ok learner
  | ((k, c, _, a), r) :: rest =>
      learner1 ← learn learner k c a r;
      learn_batch learner1 rest
  end.

(** What the body of the [try] has computed before the loop over the
    learner factories. *)
Record SimInfo : Type := mkSimInfo {
  info_index : Z;
  info_interactions : list Interaction;
  info_interaction_count : Z;
  info_median_feature_count : Q;
  info_median_action_count : Q
}.

(** The body of [for batch_group in groupby(...)]: the learner after the
    batch and the [Result] appended. *)
Definition run_batch (simulation : Simulation) (info : SimInfo) (learner_index : Z)
  (learner : Learner) (batch_group : Z * list Interaction) : result (Learner * Result) :=
  '(learner1, chosen) ← choose_batch learner (snd batch_group);
  rewards ← call "rewards" (getattr_rewards simulation)
              (map (fun o : Chosen => let '(k, _, choice, _) := o in (k, choice)) chosen);
  let stats := from_observations rewards in
  let name := _safe_name learner_index learner1 in
  learner2 ← learn_batch learner1 (zip chosen rewards);
  Ok (learner2,
      mkResult name (info_index info) (fst batch_group) (info_interaction_count info)
        (info_median_feature_count info) (info_median_action_count info) stats).

(** The loop over the batch groups of one learner: the results appended,
    and how the loop ended. *)
Fixpoint run_groups (simulation : Simulation) (info : SimInfo) (learner_index : Z)
  (learner : Learner) (groups : list (Z * list Interaction)) : list Result * result unit :=
  match groups with
  | [] => ([], Ok tt)
  | batch_group :: rest =>
      match run_batch simulation info learner_index learner batch_group with
      | Ok (learner1, r) =>
          let '(rs, out) := run_groups simulation info learner_index learner1 rest in
          (r :: rs, out)
      | Raise e => ([], Raise e)
      end
  end.

(** The loop [for learner_index, learner_factory in enumerate(learner_factories)].
    [batch_indexes] is the one iterator made before the loop. *)
Fixpoint run_learners (simulation : Simulation) (info : SimInfo) (learner_index : Z)
  (learner_factories : list Factory) (batch_indexes : list Z) : list Result * result unit :=
  match learner_factories with
  | [] => ([], Ok tt)
  | learner_factory :: rest =>
      let '(batched, batch_indexes1) :=
        zip_groupby_pull batch_indexes (info_interactions info) in
      match learner_factory with
      | Raise e => ([], Raise e)
      | Ok learner =>
          match run_groups simulation info learner_index learner (groupby batched) with
          | (rs, Ok _) =>
              let '(rs', out) :=
                run_learners simulation info (learner_index + 1) rest batch_indexes1 in
              (rs ++ rs', out)
          | (rs, Raise e) => (rs, Raise e)
          end
      end
  end.

(** The statements of the [try] before the loop over the learner
    factories, up to the call of [_batch_sizes]. *)
Definition before_batches (simulation_index : Z) (simulation : Simulation) : result SimInfo :=
  _ ← (if is_LazySimulation simulation then call0 "load" (getattr_load simulation)
       else Ok tt);
  interactions ← interactions simulation;
  median_feature_count ← median (map feature_count interactions);
  median_action_count ← median (map action_count interactions);
  Ok (mkSimInfo simulation_index interactions (Z.of_nat (length interactions))
        median_feature_count median_action_count).

(** The body of the [try] for one simulation: the results appended and how
    the body ended; [None] when the fuel runs out in [_batch_sizes]. *)
Definition try_simulation (fuel : nat) (self : UniversalBenchmark)
  (learner_factories : list Factory) (simulation_index : Z) (simulation : Simulation)
  : option (list Result * result unit) :=
  match before_batches simulation_index simulation with
  | Raise e => Some ([], Raise e)
  | Ok info =>
      match _batch_sizes fuel self (info_interaction_count info) with
      | None => None
      | Some (Raise e) => Some ([], Raise e)
      | Some (Ok batch_sizes) =>
          Some (run_learners simulation info 0 learner_factories
                  (batch_indexes_of batch_sizes))
      end
  end.

(** How a call of [evaluate] ends. *)
Inductive outcome : Type :=
| Returned (results : list Result)
| Uncaught (e : exn)
| OutOfFuel.

(** One turn of [for simulation_index, simulation in enumerate(self._simulations)]:
    the [try], its handler, which logs the exception, and the call of
    [unload], which no handler covers.  The logger
    ([coba.execution.ExecutionContext.Logger]) is not among the sources:
    [log] lists what it is given, and the call of [log] returns. *)
Definition evaluate_simulation (fuel : nat) (self : UniversalBenchmark)
  (learner_factories : list Factory) (simulation_index : Z) (simulation : Simulation)
  (results : list Result) (log : list exn) : option (list Result * list exn * result unit) :=
  '(rs, out) ← try_simulation fuel self learner_factories simulation_index simulation;
  let log1 := match out with Ok _ => log | Raise e => log ++ [e] end in
  Some (results ++ rs, log1,
        if is_LazySimulation simulation then call0 "unload" (getattr_unload simulation)
        else Ok tt).

Fixpoint evaluate_loop (fuel : nat) (self : UniversalBenchmark)
  (learner_factories : list Factory) (simulation_index : Z) (sims : list Simulation)
  (results : list Result) (log : list exn) : list exn * outcome :=
  match sims with
  | [] => (log, Returned results)
  | simulation :: rest =>
      match evaluate_simulation fuel self learner_factories simulation_index simulation
              results log with
      | None => (log, OutOfFuel)
      | Some (results1, log1, Raise e) => (log1, Uncaught e)
      | Some (results1, log1, Ok _) =>
          evaluate_loop fuel self learner_factories (simulation_index + 1) rest results1 log1
      end
  end.

(** [UniversalBenchmark.evaluate]: what the logger received, and how the
    call ended. *)
Definition evaluate (fuel : nat) (self : UniversalBenchmark) (learner_factories : list Factory)
  : list exn * outcome :=
  evaluate_loop fuel self learner_factories 0 (_simulations self) [] [].

End Floats.

End benchmarks.

(** ** coba/contexts/cachers.py *)

Module cachers.

(** A Python [str] is a sequence of Unicode code points, [bytes] a
    sequence of octets. *)
Abbreviation pystr := (list N).
Abbreviation bytes := (list N).

(** An ASCII literal as a [str]. *)
Definition str (s : string) : pystr := map Ascii.N_of_ascii (String.list_ascii_of_string s).

(** [c.isalnum()] on the code points below 256, from the Unicode character
    database: the ASCII digits and letters, the ordinal indicators and the
    micro sign, the superscripts one to three, the vulgar fractions, and
    the Latin-1 letters (all of 192..255 but the signs 215 and 247). *)
Definition latin1_isalnum (c : N) : bool :=
  ((48 <=? c) && (c <=? 57) || (65 <=? c) && (c <=? 90) || (97 <=? c) && (c <=? 122)
   || (c =? 170) || (c =? 178) || (c =? 179) || (c =? 181) || (c =? 185) || (c =? 186)
   || (188 <=? c) && (c <=? 190) || (192 <=? c) && (c <=? 214)
   || (216 <=? c) && (c <=? 246) || (248 <=? c) && (c <=? 255))%N.

(** [MemoryCacher]: the field [_cache].  [put] stores a generator as the
    list of its items, so what is stored is a value; [getter] stands for
    the outcome of the call [getter()]. *)
Module memory_cacher.
Section MemoryCacher.
Context {K V : Type} `{Countable K}.

Record MemoryCacher : Type := mkMemoryCacher {
  _cache : gmap K V
}.

(** [MemoryCacher.__contains__] *)
Definition contains (self : MemoryCacher) (key : K) : bool :=
  bool_decide (is_Some (_cache self !! key)).

(** [MemoryCacher.get]: [self._cache[key]] *)
Definition get (self : MemoryCacher) (key : K) : result V :=
  match _cache self !! key with
  | Some value => Ok value
  | None => Raise KeyError
  end.

(** [MemoryCacher.put] *)
Definition put (self : MemoryCacher) (key : K) (value : V) : MemoryCacher :=
  mkMemoryCacher (<[key := value]> (_cache self)).

(** [MemoryCacher.rmv] *)
Definition rmv (self : MemoryCacher) (key : K) : MemoryCacher :=
  if contains self key then mkMemoryCacher (delete key (_cache self)) else self.

(** [MemoryCacher.get_put] *)
Definition get_put (self : MemoryCacher) (key : K) (getter : result V)
  : result (MemoryCacher * V) :=
  self' ← (if negb (contains self key)
           then value ← getter; Ok (put self key value)
           else Ok self);
  value ← get self' key;
  Ok (self', value).

End MemoryCacher.
End memory_cacher.

Section DiskCacher.

(** [c.isalnum()] on the code points from 256 on. *)
Variable isalnum_above_latin1 : N -> bool.

Definition isalnum (c : N) : bool :=
  if (c <? 256)%N then latin1_isalnum c else isalnum_above_latin1 c.

(** [c.isalnum() or c in (' ','.','_')] *)
Definition key_char_ok (c : N) : bool :=
  isalnum c || (c =? 32)%N || (c =? 46)%N || (c =? 95)%N.

(** [DiskCacher._cache_name] *)
Definition _cache_name (key : pystr) : result pystr :=
  if negb (forallb key_char_ok key)
  then Raise (CobaException
         "A key was given to DiskCacher which couldn't be made into a file")
  else Ok (key ++ str ".gz").

(** A [DiskCacher]: the field [_cache_dir], and the files of that
    directory by name.  [gzip] is taken to give back what was written. *)
Record DiskCacher : Type := mkDiskCacher {
  _cache_dir : option pystr;
  files : gmap pystr bytes
}.

(** [DiskCacher._cache_path]: both operands of [/] are evaluated, then
    [None / str] is a [TypeError].  The path is named by its file. *)
Definition _cache_path (self : DiskCacher) (key : pystr) : result pystr :=
  name ← _cache_name key;
  match _cache_dir self with
  | Some _ => Ok name
  | None => Raise (Exception "TypeError: unsupported operand type(s) for /")
  end.

(** [DiskCacher.__contains__] *)
Definition contains (self : DiskCacher) (key : pystr) : result bool :=
  match _cache_dir self with
  | None => Ok false
  | Some _ =>
      path ← _cache_path self key;
      Ok (bool_decide (is_Some (files self !! path)))
  end.

(** [line.rstrip(b'\r\n')] *)
Definition is_crlf (c : N) : bool := ((c =? 13) || (c =? 10))%N.

Fixpoint rstrip (line : bytes) : bytes :=
  match line with
  | [] => []
  | c :: rest =>
      match rstrip rest with
      | [] => if is_crlf c then [] else [c]
      | rest' => c :: rest'
      end
  end.

(** The lines a binary file gives when iterated: each ends after its [\n]. *)
Fixpoint file_lines (content : bytes) (line : bytes) : list bytes :=
  match content with
  | [] => match line with [] => [] | _ => [line] end
  | c :: rest =>
      if (c =? 10)%N then (line ++ [c]) :: file_lines rest []
      else file_lines rest (line ++ [c])
  end.

(** [DiskCacher.get], the generator run to its end. *)
Definition get (self : DiskCacher) (key : pystr) : result (list bytes) :=
  present ← contains self key;
  if negb present then Ok []
  else
    path ← _cache_path self key;
    match files self !! path with
    | Some content => Ok (map rstrip (file_lines content []))
    | None => Raise (Exception "FileNotFoundError")
    end.

(** [DiskCacher.rmv] *)
Definition rmv (self : DiskCacher) (key : pystr) : result DiskCacher :=
  path ← _cache_path self key;
  if bool_decide (is_Some (files self !! path)) then
    path' ← _cache_path self key;
    Ok (mkDiskCacher (_cache_dir self) (delete path' (files self)))
  else Ok self.

(** The body of the [try] of [DiskCacher.put]. *)
Definition put_body (self : DiskCacher) (key : pystr) (value : list bytes)
  : result DiskCacher :=
  present ← contains self key;
  if negb present then
    path ← _cache_path self key;
    Ok (mkDiskCacher (_cache_dir self)
          (<[path := concat (map (fun line => rstrip line ++ [13; 10]%N) value)]>
             (files self)))
  else Ok self.

(** [DiskCacher.put]: the handler removes the file and raises again. *)
Definition put (self : DiskCacher) (key : pystr) (value : list bytes) : result DiskCacher :=
  match _cache_dir self with
  | None => Ok self
  | Some _ =>
      match put_body self key value with
      | Ok self' => Ok self'
      | Raise e =>
          present ← contains self key;
          _ ← (if negb present then Ok self else rmv self key);
          Raise e
      end
  end.

(** [DiskCacher.get_put]; [getter] stands for the outcome of the call
    [getter()], and the generator that [get] returns is run to its end. *)
Definition get_put (self : DiskCacher) (key : pystr) (getter : result (list bytes))
  : result (DiskCacher * list bytes) :=
  match _cache_dir self with
  | None => value ← getter; Ok (self, value)
  | Some _ =>
      present ← contains self key;
      self' ← (if negb present then value ← getter; put self key value else Ok self);
      lines ← get self' key;
      Ok (self', lines)
  end.

End DiskCacher.

Section ConcurrentCacher.
Context {K : Type} `{Countable K}.

(** The methods that touch [self._dict], each one run under [self._lock]:
    the table after the call and, for an attempt, whether it succeeded. *)
Definition _acquired_read_lock (d : gmap K Z) (key : K) : gmap K Z * bool :=
  if negb (bool_decide (is_Some (d !! key))) || (0 <=? default 0 (d !! key))
  then (<[key := default 0 (d !! key) + 1]> d, true)
  else (d, false).

Definition _release_read_lock (d : gmap K Z) (key : K) : result (gmap K Z) :=
  match d !! key with
  | Some v => Ok (<[key := v - 1]> d)
  | None => Raise KeyError
  end.

Definition _acquired_write_lock (d : gmap K Z) (key : K) : gmap K Z * bool :=
  if negb (bool_decide (is_Some (d !! key))) || (default 0 (d !! key) =? 0)
  then (<[key := -1]> d, true)
  else (d, false).

Definition _switch_write_to_read_lock (d : gmap K Z) (key : K) : gmap K Z := <[key := 1]> d.

Definition _release_write_lock (d : gmap K Z) (key : K) : gmap K Z := <[key := 0]> d.

(** What is left to run of a method of [ConcurrentCacher], as far as the
    lock table can tell.  [Wrapped] is a call of the wrapped cacher, which
    returns or raises; [Test] is a branch the table does not decide (on
    the answer of [key in self._cache], on [inspect.isgenerator(value)]);
    [Generator] hands the read lock to the generator of
    [_generator_release]. *)
Inductive code : Type :=
| Return
| AcquireRead (key : K) (next : code)
| ReleaseRead (key : K) (next : code)
| AcquireWrite (key : K) (next : code)
| SwitchWriteToRead (key : K) (next : code)
| ReleaseWrite (key : K) (next : code)
| Wrapped (next : code)
| Test (yes no : code)
| Generator (key : K) (next : code).

(** [ConcurrentCacher.get], followed by [next]. *)
Definition get_code (key : K) (next : code) : code :=
  AcquireRead key (Wrapped (Test (Generator key next) (ReleaseRead key next))).

(** [ConcurrentCacher.put] and [ConcurrentCacher.rmv] *)
Definition put_code (key : K) : code := AcquireWrite key (Wrapped (ReleaseWrite key Return)).
Definition rmv_code (key : K) : code := AcquireWrite key (Wrapped (ReleaseWrite key Return)).

(** [ConcurrentCacher.get_put]: the two tests [key in self._cache] and
    [key not in self] are calls of the wrapped cacher. *)
Definition get_put_code (key : K) : code :=
  Wrapped (Test (get_code key Return)
    (AcquireWrite key
       (Wrapped (Test
          (Wrapped (SwitchWriteToRead key
             (Test (Generator key Return) (ReleaseRead key Return))))
          (SwitchWriteToRead key (get_code key (ReleaseRead key Return))))))).

Inductive operation : Type :=
| Get (key : K)
| Put (key : K)
| Rmv (key : K)
| GetPut (key : K).

Definition code_of (op : operation) : code :=
  match op with
  | Get key => get_code key Return
  | Put key => put_code key
  | Rmv key => rmv_code key
  | GetPut key => get_put_code key
  end.

(** A process (or thread) that uses the cacher: what is left of the method
    it runs, the generators it was given and has not drained, and the locks
    it acquired and has not given back (a record kept for the proofs: no
    move reads it). *)
Record process : Type := mkProcess {
  pc : code;
  generators : list K;
  reads : list K;
  writes : list K
}.

Fixpoint remove_one (k : K) (l : list K) : list K :=
  match l with
  | [] => []
  | x :: rest => if decide (x = k) then rest else x :: remove_one k rest
  end.

(** What a process does next: call a method, take the next step of the
    method it runs ([b] says how a [Wrapped] call or a [Test] comes out),
    drain one of its generators to the end, or see one of its generators
    end before that: the [for v in value] of [_generator_release] raises
    (the wrapped generator is lazy), or the generator is closed, and
    [release()], which no [finally] guards, is not reached. *)
Inductive move : Type :=
| Call (op : operation)
| Step (b : bool)
| Drain (key : K)
| DrainRaises (key : K).

(** One move of one process on the shared table; [None] when the process
    cannot make this move now.  A failed attempt to acquire leaves all as it
    was: the process waits on the condition and tries again. *)
Definition process_move (m : move) (d : gmap K Z) (p : process)
  : option (gmap K Z * process) :=
  match m, pc p with
  | Call op, Return => Some (d, mkProcess (code_of op) (generators p) (reads p) (writes p))
  | Call _, _ => None
  | Drain key, _ =>
      if bool_decide (key ∈ generators p) then
        match _release_read_lock d key with
        | Ok d' =>
            Some (d', mkProcess (pc p) (remove_one key (generators p))
                        (remove_one key (reads p)) (writes p))
        | Raise _ =>
            Some (d, mkProcess (pc p) (remove_one key (generators p)) (reads p) (writes p))
        end
      else None
  | DrainRaises key, _ =>
      if bool_decide (key ∈ generators p) then
        Some (d, mkProcess (pc p) (remove_one key (generators p)) (reads p) (writes p))
      else None
  | Step _, Return => None
  | Step _, AcquireRead key next =>
      let '(d', ok) := _acquired_read_lock d key in
      if ok then Some (d', mkProcess next (generators p) (key :: reads p) (writes p))
      else Some (d', p)
  | Step _, ReleaseRead key next =>
      match _release_read_lock d key with
      | Ok d' =>
          Some (d', mkProcess next (generators p) (remove_one key (reads p)) (writes p))
      | Raise _ => Some (d, mkProcess Return (generators p) (reads p) (writes p))
      end
  | Step _, AcquireWrite key next =>
      let '(d', ok) := _acquired_write_lock d key in
      if ok then Some (d', mkProcess next (generators p) (reads p) (key :: writes p))
      else Some (d', p)
  | Step _, SwitchWriteToRead key next =>
      Some (_switch_write_to_read_lock d key,
            mkProcess next (generators p) (key :: reads p) (remove_one key (writes p)))
  | Step _, ReleaseWrite key next =>
      Some (_release_write_lock d key,
            mkProcess next (generators p) (reads p) (remove_one key (writes p)))
  | Step returns, Wrapped next =>
      Some (d, mkProcess (if returns then next else Return)
                 (generators p) (reads p) (writes p))
  | Step b, Test yes no =>
      Some (d, mkProcess (if b then yes else no) (generators p) (reads p) (writes p))
  | Step _, Generator key next =>
      Some (d, mkProcess next (key :: generators p) (reads p) (writes p))
  end.

(** The shared table and the processes. *)
Record system : Type := mkSystem {
  dict : gmap K Z;
  processes : list process
}.

Definition system_move (i : nat) (m : move) (s : system) : option system :=
  p ← processes s !! i;
  '(d', p') ← process_move m (dict s) p;
  Some (mkSystem d' (<[i := p']> (processes s))).

(** A schedule: which process moves, and how. *)
Fixpoint run (schedule : list (nat * move)) (s : system) : option system :=
  match schedule with
  | [] => Some s
  | (i, m) :: rest => s' ← system_move i m s; run rest s'
  end.

Definition idle : process := mkProcess Return [] [] [].

(** [n] processes about to use a cacher made with an empty table. *)
Definition initial (n : nat) : system := mkSystem ∅ (replicate n idle).

(** How many times [k] occurs in [l]. *)
Fixpoint occ (k : K) (l : list K) : nat :=
  match l with
  | [] => 0
  | x :: rest => ((if decide (x = k) then 1 else 0) + occ k rest)%nat
  end.

Definition total (f : process -> nat) (ps : list process) : nat :=
  foldr (fun p acc => (f p + acc)%nat) 0%nat ps.

(** The read locks and the write locks on [k] that the processes hold. *)
Definition readers (k : K) (s : system) : nat :=
  total (fun p => occ k (reads p)) (processes s).

Definition writers (k : K) (s : system) : nat :=
  total (fun p => occ k (writes p)) (processes s).

(** The entry of a key in the table against the locks held on it: idle
    (absent, or 0), read by [R] readers, or written by one writer. *)
Definition table_ok (entry : option Z) (R W : nat) : Prop :=
  match entry with
  | None => R = 0%nat /\ W = 0%nat
  | Some v => (v = -1 /\ W = 1%nat /\ R = 0%nat) \/ (0 <= v /\ Z.of_nat R = v /\ W = 0%nat)
  end.

(** The code [c] gives back no lock on [k] that it does not hold, when it
    starts with [r] read locks and [w] write locks on [k]. *)
Fixpoint safe (k : K) (r w : nat) (c : code) : Prop :=
  match c with
  | Return => True
  | AcquireRead key next => safe k (if decide (key = k) then S r else r) w next
  | ReleaseRead key next =>
      if decide (key = k)
      then match r with S r' => safe k r' w next | O => False end
      else safe k r w next
  | AcquireWrite key next => safe k r (if decide (key = k) then S w else w) next
  | SwitchWriteToRead key next =>
      if decide (key = k)
      then match w with S w' => safe k (S r) w' next | O => False end
      else safe k r w next
  | ReleaseWrite key next =>
      if decide (key = k)
      then match w with S w' => safe k r w' next | O => False end
      else safe k r w next
  | Wrapped next => safe k r w next
  | Test yes no => safe k r w yes /\ safe k r w no
  | Generator key next =>
      if decide (key = k)
      then match r with S r' => safe k r' w next | O => False end
      else safe k r w next
  end.

(** A process holds the locks on [k] that its code and its generators
    will give back. *)
Definition process_ok (k : K) (p : process) : Prop :=
  exists r w, safe k r w (pc p)
    /\ (r + occ k (generators p) <= occ k (reads p))%nat
    /\ (w <= occ k (writes p))%nat.

(** The invariant of the lock table. *)
Definition invariant (s : system) : Prop :=
  forall k, table_ok (dict s !! k) (readers k s) (writers k s)
            /\ Forall (process_ok k) (processes s).

End ConcurrentCacher.

End cachers.

(** ** coba/environments/simulated/synthetics.py *)

Module synthetics.
Import coba_random.

Section LinearSyntheticSimulation.
Context {F : Type} `{PyFloat F}.

(** [X_encoder.encode(x=..., a=...)]: [coba.encodings.InteractionsEncoder] is
    not among the sources; the call returns the encoded features or
    raises. *)
Variable encode : list F -> list F -> result (list F).

(** [math.sqrt]: [math_sqrt] in binary64. *)
Variable sqrt : F -> result F.

(** [self._r_noise_var] *)
Variable _r_noise_var : F.

(** [sum(X)]: the additions from the left, starting at [0]. *)
Definition py_sum (X : list F) : F := foldl f_add (f_of_Z 0) X.





(** [sum([w*f for w,f in zip(W,F)])] *)
Definition dot (W Fs : list F) : F := py_sum (zip_with f_mul W Fs).

(** [min(1,max(0,y))]: [max] keeps its first argument unless the second is
    greater, [min] unless the second is smaller. *)
Definition clamp (y : F) : F :=
  let z := if f_ltb (f_of_Z 0) y then y else f_of_Z 0 in
  if f_ltb z (f_of_Z 1) then z else f_of_Z 1.

(** The closure [reward(index, context, action, rng)]: [context] is [None]
    or a list of features, [seed] the state of the [rng] handed in.  The
    encoder is called first, then [rng.random()], [math.sqrt(12)] and
    [math.sqrt(self._r_noise_var)]. *)
Definition reward (W : list F) (context : option (list F)) (action : list F) (seed : Z)
  : result (F * Z) :=
  let X := match context with
           | Some (x :: xs) => x :: xs
           | _ => [f_of_Z 1]
           end in
  Fs ← encode X action;
  let r := dot W Fs in
  let '(u, seed1) := CobaRandom_random seed in
  let half := f_div (f_of_Z 1) (f_of_Z 2) in
  sqrt_12 ← sqrt (f_of_Z 12);
  sqrt_r_noise_var ← sqrt _r_noise_var;
  let e := f_mul (f_mul (f_sub u half) sqrt_12) sqrt_r_noise_var in
  Ok (clamp (f_add r e), seed1).

End LinearSyntheticSimulation.

End synthetics.

(** ** Inputs used in the examples below *)

Module examples.
Import simulations benchmarks.

(** Interactions with keys [0 .. n-1], the key as context, and the
    actions 0, 1, 2. *)
Definition some_interactions (n : Z) : list Interaction :=
  map (fun i => mkInteraction (VInt i) [VInt 0; VInt 1; VInt 2] i) (py_range n).

(** A simulation of a class with a method [rewards]: the reward of a
    choice is its index. *)
Definition rewarding_simulation (n : Z) : Simulation :=
  Other (mkOtherSim false None None (Ok (some_interactions n))
           (Some (fun choices => Ok (map (fun c : Key * Choice => inject_Z (snd c)) choices)))).

(** A [MemorySimulation] of this module with the same interactions and
    rewards. *)
Definition memory_simulation (n : Z) : Simulation :=
  MemorySimulation (some_interactions n)
    (list_to_map (flat_map (fun i => map (fun a => ((i, a), inject_Z a)) [0; 1; 2])
                    (py_range n))).

(** A learner that always chooses the action 0 and learns nothing. *)
Definition steady_learner (name : string) : Factory :=
  Ok (mkLearner unit tt (fun _ _ _ _ => Ok (0, tt)) (fun _ _ _ _ _ => Ok tt)
        (fun _ => Some name)).

(** A learner whose [choose] raises. *)
Definition failing_learner (name : string) : Factory :=
  Ok (mkLearner unit tt (fun _ _ _ _ => Raise (LearnerException 1))
        (fun _ _ _ _ _ => Ok tt) (fun _ => Some name)).


(** The learner, simulation and batch of each result. *)
Definition triples (results : list Result) : list (string * Z * Z) :=
  map (fun r => (learner_name r, simulation_index r, batch_index r)) results.

(** The results of one learner for one simulation. *)
Definition results_of (name : string) (simulation : Z) (results : list Result) : list Result :=
  filter (fun r => learner_name r = name /\ simulation_index r = simulation) results.

(** The specification's key language, [[A-Za-z0-9 ._]+], written from its
    words: one or more ASCII letters, digits, spaces, dots or underscores. *)
Definition spec_key_class (c : N) : bool :=
  ((65 <=? c) && (c <=? 90) || (97 <=? c) && (c <=? 122) || (48 <=? c) && (c <=? 57)
   || (c =? 32) || (c =? 46) || (c =? 95))%N.

Definition spec_key_regex (key : cachers.pystr) : bool :=
  match key with
  | [] => false
  | _ :: _ => forallb spec_key_class key
  end.

(** What remains of the batch_count policy under rounding, as a test on
    one pair [(N, K)]: [K] sizes that sum to [N], each [floor(N/K)] or one
    more. *)
Definition near_equal_partition (N K : Z) (sizes : result (list Z)) : bool :=
  match sizes with
  | Ok l =>
      (Z.of_nat (length l) =? K) && (foldr Z.add 0 l =? N)
      && forallb (fun x => (x =? N / K) || (x =? N / K + 1)) l
  | Raise _ => false
  end.

(** A schedule of two processes on the key 7: process 0 calls [get_put],
    the wrapped cacher answers that the key is missing, and the process
    acquires the write lock; process 1 calls [get] and tries to acquire the
    read lock. *)
Definition writer_then_reader : list (nat * cachers.move (K := Z)) :=
  [(0%nat, cachers.Call (cachers.GetPut 7)); (0%nat, cachers.Step true);
   (0%nat, cachers.Step false); (0%nat, cachers.Step true);
   (1%nat, cachers.Call (cachers.Get 7)); (1%nat, cachers.Step true)].

(** The indexes [floor(i*K/r)], [i] in [[0,r)], that the spacing rule of
    the batch_count policy names. *)
Definition spaced_indexes (K r : Z) : list Z := map (fun i => i * K / r) (py_range r).

End examples.

(** ** Quantities and conditions the statements below speak of *)

Module quantities.
Import simulations benchmarks.

(** The sum [1 + a + ... + a^(n-1)]. *)
Fixpoint geometric (a : Z) (n : nat) : Z :=
  match n with
  | O => 0
  | S n' => 1 + a * geometric a n'
  end.

(** The sizes [fn(i), ..., fn(i+k-1)]. *)
Definition sizes_from (fn : Z -> Z) (i : Z) (k : nat) : list Z :=
  map (fun t => fn (i + Z.of_nat t)) (seq 0 k).

(** A learner whose [choose] returns an index of the actions it is given
    and whose [learn] returns, whatever its state. *)
Definition dependable (L : Learner) : Prop :=
  (forall s k c a, a <> [] ->
     exists choice s', l_choose L s k c a = Ok (choice, s')
       /\ 0 <= choice < Z.of_nat (length a))
  /\ (forall s k c a r, exists s', l_learn L s k c a r = Ok s').

(** A method [rewards] that returns one reward for each choice. *)
Definition aligned (rewards : list (Key * Choice) -> result (list Reward)) : Prop :=
  forall choices, exists rs, rewards choices = Ok rs /\ length rs = length choices.

(** How many line feeds (the byte 10) a line has. *)
Definition line_feeds (line : cachers.bytes) : nat :=
  length (filter (fun c => c = 10%N) line).

Section Locks.
Context {K : Type} `{Countable K}.


(** The process [p] holds [sr] read locks and [sw] write locks on [k]
    beyond those that its code and its generators will give back. *)
Definition keeps (k : K) (sr sw : nat) (p : cachers.process (K := K)) : Prop :=
  exists r w, cachers.safe k r w (cachers.pc p)
    /\ (r + cachers.occ k (cachers.generators p) + sr <= cachers.occ k (cachers.reads p))%nat
    /\ (w + sw <= cachers.occ k (cachers.writes p))%nat.

(** The code [c] gives back exactly the [r] read locks and [w] write locks
    on [k] that it starts with, on every path; a read lock handed to a
    generator counts as given back, the generator gives it back when it
    is drained. *)
Fixpoint balanced (k : K) (r w : nat) (c : cachers.code (K := K)) : Prop :=
  match c with
  | cachers.Return => r = 0%nat /\ w = 0%nat
  | cachers.AcquireRead key next => balanced k (if decide (key = k) then S r else r) w next
  | cachers.ReleaseRead key next =>
      if decide (key = k)
      then match r with S r' => balanced k r' w next | O => False end
      else balanced k r w next
  | cachers.AcquireWrite key next => balanced k r (if decide (key = k) then S w else w) next
  | cachers.SwitchWriteToRead key next =>
      if decide (key = k)
      then match w with S w' => balanced k (S r) w' next | O => False end
      else balanced k r w next
  | cachers.ReleaseWrite key next =>
      if decide (key = k)
      then match w with S w' => balanced k r w' next | O => False end
      else balanced k r w next
  | cachers.Wrapped next => balanced k r w next
  | cachers.Test yes no => balanced k r w yes /\ balanced k r w no
  | cachers.Generator key next =>
      if decide (key = k)
      then match r with S r' => balanced k r' w next | O => False end
      else balanced k r w next
  end.

(** The process [p] holds on [k] exactly the locks that its code and its
    generators will give back. *)
Definition exact_locks (k : K) (p : cachers.process (K := K)) : Prop :=
  exists r w, balanced k r w (cachers.pc p)
    /\ (r + cachers.occ k (cachers.generators p))%nat = cachers.occ k (cachers.reads p)
    /\ w = cachers.occ k (cachers.writes p).

(** The move [m] of the process [p] is a call of the wrapped cacher that
    raises, or a generator that ends before it is drained. *)
Definition raises (m : cachers.move (K := K)) (p : cachers.process (K := K)) : bool :=
  match m, cachers.pc p with
  | cachers.Step false, cachers.Wrapped _ => true
  | cachers.DrainRaises _, _ => true
  | _, _ => false
  end.

(** No call of the wrapped cacher raises in the course of [schedule], and
    every generator that is touched is drained to its end. *)
Fixpoint quiet (schedule : list (nat * cachers.move (K := K))) (s : cachers.system (K := K))
  : Prop :=
  match schedule with
  | [] => True
  | (i, m) :: rest =>
      match cachers.processes s !! i with
      | Some p => raises m p = false
      | None => True
      end
      /\ match cachers.system_move i m s with
         | Some s' => quiet rest s'
         | None => True
         end
  end.

End Locks.

End quantities.

(** * Properties *)

(** ** Python sequences *)

Lemma py_index_in_range (n : nat) (j : Z) :
  0 <= j < Z.of_nat n -> py_index n j = Some (Z.to_nat j).
Proof.
  intros Hj. unfold py_index.
  destruct (0 <=? j) eqn:E1; [|lia].
  destruct (j <? Z.of_nat n) eqn:E2; [|lia].
  reflexivity.
Qed.

Lemma py_get_in_range {A : Type} (l : list A) (j : Z) :
  0 <= j < Z.of_nat (length l) -> exists x, py_get l j = Ok x /\ l !! Z.to_nat j = Some x.
Proof.
  intros Hj. unfold py_get. rewrite py_index_in_range by exact Hj.
  destruct (lookup_lt_is_Some_2 l (Z.to_nat j)) as [x Hx]; [lia|].
  exists x. rewrite Hx. split; reflexivity.
Qed.

Lemma insert_moves_head {A : Type} (l : list A) (j : nat) (a b : A) :
  l !! j = Some b -> b :: <[j := a]> l ≡ₚ a :: l.
Proof.
  revert j. induction l as [|c l IH]; intros [|j] Hj; simpl in *; try discriminate.
  - injection Hj as ->. apply perm_swap.
  - rewrite (perm_swap c b). rewrite (IH j Hj). apply perm_swap.
Qed.

Lemma list_swap_Permutation {A : Type} (l : list A) (a b : nat) (x y : A) :
  l !! a = Some x -> l !! b = Some y -> <[b := x]> (<[a := y]> l) ≡ₚ l.
Proof.
  revert a b. induction l as [|c l IH]; intros [|a] [|b] Ha Hb; simpl in *;
    try discriminate.
  - injection Ha as ->. reflexivity.
  - injection Ha as ->. apply insert_moves_head, Hb.
  - injection Hb as ->. apply insert_moves_head, Ha.
  - constructor. apply IH; assumption.
Qed.

Lemma py_swap_Permutation {A : Type} (l : list A) (i j : Z) :
  0 <= i < Z.of_nat (length l) -> 0 <= j < Z.of_nat (length l) ->
  exists l', py_swap l i j = Ok l' /\ l' ≡ₚ l /\ length l' = length l.
Proof.
  intros Hi Hj. unfold py_swap.
  destruct (py_get_in_range l j Hj) as (lj & -> & Hlj).
  destruct (py_get_in_range l i Hi) as (li & -> & Hli).
  simpl. rewrite !py_index_in_range by assumption.
  eexists. split; [reflexivity|]. split.
  - apply list_swap_Permutation; assumption.
  - rewrite !length_insert. reflexivity.
Qed.

Lemma elem_of_py_range (n i : Z) : i ∈ py_range n -> 0 <= i < n.
Proof.
  unfold py_range. intros Hi. apply list_elem_of_fmap in Hi as (k & -> & Hk).
  apply elem_of_seq in Hk. lia.
Qed.

(** ** Exact arithmetic obeys the sign rules *)

#[export] Instance exact_signs : PyFloatSigns Q.
Proof.
  split; simpl.
  - intros z Hz. unfold Qle. simpl. lia.
  - intros x y Hx Hy. rewrite <- (Qplus_0_l 0). apply Qplus_le_compat; assumption.
  - intros x y. apply Qmult_le_0_compat.
  - intros x z Hx Hz. apply Qle_shift_div_l.
    + unfold Qlt. simpl. lia.
    + rewrite Qmult_0_l. exact Hx.
  - intros [n d] Hx. unfold Qle in Hx. simpl in Hx. unfold Qtrunc. simpl.
    destruct (0 <=? n) eqn:E; [|lia].
    apply Z.div_pos; lia.
Qed.

(** ** Binary64 obeys the sign rules *)

Lemma binary_round_aux_sign (m e : Z) (l : location) :
  sign_clear (binary_round_aux prec emax false m e l).
Proof.
  unfold binary_round_aux.
  destruct (shr_fexp prec emax m e l) as [mrs' e'].
  destruct (shr_fexp prec emax _ e' loc_Exact) as [mrs'' e''].
  destruct (shr_m mrs'') as [|p|p]; simpl; auto.
  match goal with |- context [if ?b then _ else _] => destruct b end; simpl; auto.
Qed.

Lemma binary_round_sign (m : positive) (e : Z) :
  sign_clear (binary_round prec emax false m e).
Proof.
  unfold binary_round. destruct (shl_align _ _ _) as [mz ez]. apply binary_round_aux_sign.
Qed.

Lemma SFmul_sign (x y : spec_float) :
  sign_clear x -> sign_clear y -> sign_clear (SFmul prec emax x y).
Proof.
  destruct x as [sx|sx| |sx mx ex], y as [sy|sy| |sy my ey]; simpl;
    intros Hx Hy; subst; simpl; auto.
  apply binary_round_aux_sign.
Qed.

Lemma SFdiv_sign (x y : spec_float) :
  sign_clear x -> sign_clear y -> sign_clear (SFdiv prec emax x y).
Proof.
  destruct x as [sx|sx| |sx mx ex], y as [sy|sy| |sy my ey]; simpl;
    intros Hx Hy; subst; simpl; auto.
  destruct (SFdiv_core_binary _ _ _ _ _ _) as [[mz ez] lz]. apply binary_round_aux_sign.
Qed.

Lemma SFadd_sign (x y : spec_float) :
  sign_clear x -> sign_clear y -> sign_clear (SFadd prec emax x y).
Proof.
  destruct x as [sx|sx| |sx mx ex], y as [sy|sy| |sy my ey]; simpl;
    intros Hx Hy; subst; simpl; auto.
  unfold binary_normalize.
  destruct (shl_align mx ex (Z.min ex ey)) as [a ?], (shl_align my ey (Z.min ex ey)) as [b ?].
  simpl. apply binary_round_sign.
Qed.

Lemma of_uint63_sign (n : Uint63.int) : sign_clear (Prim2SF (of_uint63 n)).
Proof.
  rewrite of_uint63_spec. unfold binary_normalize.
  pose proof (Uint63.to_Z_bounded n) as Hn.
  destruct (Uint63.to_Z n) as [|p|p]; simpl; auto; [apply binary_round_sign | lia].
Qed.

Lemma Z_to_float_sign (z : Z) : 0 <= z -> sign_clear (Prim2SF (Z_to_float z)).
Proof.
  intros Hz. unfold Z_to_float. destruct (z <? 0) eqn:E; [lia|]. apply of_uint63_sign.
Qed.

Lemma float_to_Z_sign (x : float) : sign_clear (Prim2SF x) -> 0 <= float_to_Z x.
Proof.
  unfold float_to_Z. destruct (Prim2SF x) as [s|s| |s m e]; simpl; try lia.
  intros ->. destruct (0 <=? e).
  - apply Z.shiftl_nonneg. lia.
  - apply Z.shiftr_nonneg. lia.
Qed.

#[export] Instance binary64_signs : PyFloatSigns float.
Proof.
  split; simpl.
  - exact Z_to_float_sign.
  - intros x y Hx Hy. rewrite add_spec. apply SFadd_sign; assumption.
  - intros x y Hx Hy. rewrite mul_spec. apply SFmul_sign; assumption.
  - intros x z Hx Hz. rewrite div_spec. apply SFdiv_sign; [exact Hx|].
    apply Z_to_float_sign. lia.
  - exact float_to_Z_sign.
Qed.

(** ** Binary64 numbers that stay finite *)

(** The operations on numbers of bounded magnitude do not overflow: the
    results are numbers, of a magnitude bounded in turn. *)

Lemma small_isfinite (K : Z) (x : spec_float) : small K x -> isfinite x.
Proof. destruct x; simpl; auto. Qed.

Lemma digits2_pos_size (p : positive) : digits2_pos p = Pos.size p.
Proof. induction p; simpl; congruence. Qed.

Lemma Zdigits2_le (m a : Z) : 0 <= a -> 0 <= m <= 2 ^ a -> Zdigits2 m <= a + 1.
Proof.
  intros Ha [Hm0 Hm]. destruct m as [|p|p]; simpl; [lia| |lia].
  rewrite digits2_pos_size.
  pose proof (Pos.size_le p) as Hs.
  assert (H2 : 2 ^ Z.pos (Pos.size p) <= 2 * Z.pos p).
  { change (2 * Z.pos p) with (Z.pos p~0). rewrite <- Pos2Z.inj_pow. exact Hs. }
  destruct (Z.le_gt_cases (Z.pos (Pos.size p)) (a + 1)) as [Hle | Hgt]; [exact Hle|].
  exfalso.
  assert (2 ^ (a + 2) <= 2 ^ Z.pos (Pos.size p)) by (apply Z.pow_le_mono_r; lia).
  replace (a + 2) with (Z.succ (Z.succ a)) in H by lia.
  rewrite !Z.pow_succ_r in H by lia. lia.
Qed.

Lemma shr_m_shr_1 (mrs : shr_record) :
  0 <= shr_m mrs -> shr_m (shr_1 mrs) = shr_m mrs / 2.
Proof.
  destruct mrs as [m r s]. cbn [shr_m]. intros Hm.
  destruct m as [|[p|p|]|p]; cbn [shr_1 shr_m]; try lia; try reflexivity.
  - apply Z.div_unique with 1; lia.
  - apply Z.div_unique with 0; lia.
Qed.

Lemma shr_m_iter (p : positive) (mrs : shr_record) :
  0 <= shr_m mrs -> shr_m (SpecFloat.iter_pos shr_1 p mrs) = shr_m mrs / 2 ^ Z.pos p.
Proof.
  revert mrs. induction p as [p IH | p IH |]; intros mrs Hm; simpl SpecFloat.iter_pos.
  - assert (H1 : 0 <= shr_m (shr_1 mrs)) by (rewrite shr_m_shr_1 by exact Hm; apply Z.div_pos; lia).
    assert (H2 : 0 <= shr_m (SpecFloat.iter_pos shr_1 p (shr_1 mrs)))
      by (rewrite IH by exact H1; apply Z.div_pos; lia).
    rewrite IH by exact H2. rewrite IH by exact H1. rewrite shr_m_shr_1 by exact Hm.
    rewrite !Z.div_div by lia. f_equal.
    rewrite <- !Z.pow_add_r by lia. change 2 with (2 ^ 1) at 1.
    rewrite <- Z.pow_add_r by lia. f_equal. lia.
  - assert (H2 : 0 <= shr_m (SpecFloat.iter_pos shr_1 p mrs))
      by (rewrite IH by exact Hm; apply Z.div_pos; lia).
    rewrite IH by exact H2. rewrite IH by exact Hm.
    rewrite !Z.div_div by lia. f_equal.
    rewrite <- !Z.pow_add_r by lia. f_equal. lia.
  - rewrite shr_m_shr_1 by exact Hm. reflexivity.
Qed.

Lemma shr_m_record_of_loc (m : Z) (l : location) : shr_m (shr_record_of_loc m l) = m.
Proof. destruct l as [|[| |]]; reflexivity. Qed.

(** What [shr_fexp] does to the mantissa and the exponent. *)
Lemma shr_fexp_spec (m e : Z) (l : location) :
  0 <= m ->
  exists n, 0 <= n
    /\ snd (shr_fexp prec emax m e l) = e + n
    /\ shr_m (fst (shr_fexp prec emax m e l)) = m / 2 ^ n
    /\ (n = 0 \/ e + n = fexp prec emax (Zdigits2 m + e)).
Proof.
  intros Hm. unfold shr_fexp, shr.
  destruct (fexp prec emax (Zdigits2 m + e) - e) as [|p|p] eqn:En.
  - exists 0. simpl. rewrite shr_m_record_of_loc, Z.div_1_r. repeat split; lia.
  - exists (Z.pos p). simpl. rewrite shr_m_iter by (rewrite shr_m_record_of_loc; exact Hm).
    rewrite shr_m_record_of_loc. repeat split; lia.
  - exists 0. simpl. rewrite shr_m_record_of_loc, Z.div_1_r. repeat split; lia.
Qed.

Lemma div_pow2_bound (m n K e : Z) :
  0 <= n -> 0 <= m <= 2 ^ (K - e) -> 0 <= m / 2 ^ n <= 2 ^ (K - (e + n)).
Proof.
  intros Hn [Hm0 Hm]. split; [apply Z.div_pos; lia|].
  destruct (Z.le_gt_cases 0 (K - (e + n))) as [Hge | Hlt].
  - apply Z.div_le_upper_bound; [lia|].
    rewrite <- Z.pow_add_r by lia. replace (n + (K - (e + n))) with (K - e) by lia. exact Hm.
  - rewrite (Z.pow_neg_r 2 (K - (e + n))) by lia.
    destruct (Z.le_gt_cases 0 (K - e)) as [Hge' | Hlt'].
    + rewrite Z.div_small; [lia|]. split; [lia|].
      assert (2 ^ (K - e) < 2 ^ n) by (apply Z.pow_lt_mono_r; lia). lia.
    + rewrite (Z.pow_neg_r 2 (K - e)) in Hm by lia.
      assert (m = 0) by lia. subst m. rewrite Z.div_0_l; lia.
Qed.

Lemma round_nearest_even_bound (m : Z) (l : location) :
  m <= round_nearest_even m l <= m + 1.
Proof. destruct l as [|[| |]]; simpl; try lia. destruct (Z.even m); lia. Qed.

Lemma fexp_le (x K : Z) : x <= K + 53 -> -1074 <= K -> fexp prec emax x <= K.
Proof. unfold fexp, emin, prec, emax. lia. Qed.

Lemma pow2_succ_bound (a : Z) : 0 <= a -> 2 ^ a + 1 <= 2 ^ (a + 1).
Proof.
  intros Ha. rewrite Z.pow_add_r by lia. change (2 ^ 1) with 2.
  assert (0 < 2 ^ a) by (apply Z.pow_pos_nonneg; lia). lia.
Qed.

(** Rounding a value of at most [2 ^ K] gives a finite number of at most
    [2 ^ (K + 1)], or zero. *)
Lemma binary_round_aux_small (s : bool) (m e : Z) (l : location) (K : Z) :
  0 <= m <= 2 ^ (K - e) -> e <= K -> 0 <= K <= 970 ->
  small (K + 1) (binary_round_aux prec emax s m e l).
Proof.
  intros Hm He HK. unfold binary_round_aux.
  destruct (shr_fexp_spec m e l (proj1 Hm)) as (n & Hn & He1 & Hm1 & Hcase).
  destruct (shr_fexp prec emax m e l) as [mrs1 e1]. cbn [fst snd] in He1, Hm1.
  pose proof (div_pow2_bound m n K e Hn Hm) as Hb1. rewrite <- Hm1, <- He1 in Hb1.
  assert (He1K : e1 <= K).
  { destruct Hcase as [-> | Hf]; [lia|]. rewrite He1, Hf. apply fexp_le; [|lia].
    pose proof (Zdigits2_le m (K - e) ltac:(lia) Hm). lia. }
  pose proof (round_nearest_even_bound (shr_m mrs1) (loc_of_shr_record mrs1)) as Hr.
  set (m2 := round_nearest_even (shr_m mrs1) (loc_of_shr_record mrs1)) in *.
  assert (Hm2 : 0 <= m2 <= 2 ^ (K + 1 - e1)).
  { split; [lia|]. pose proof (pow2_succ_bound (K - e1) ltac:(lia)) as Hp.
    replace (K + 1 - e1) with (K - e1 + 1) by lia. lia. }
  destruct (shr_fexp_spec m2 e1 loc_Exact (proj1 Hm2)) as (n3 & Hn3 & He3 & Hm3 & Hcase3).
  destruct (shr_fexp prec emax m2 e1 loc_Exact) as [mrs3 e3]. cbn [fst snd] in He3, Hm3.
  pose proof (div_pow2_bound m2 n3 (K + 1) e1 Hn3 Hm2) as Hb3. rewrite <- Hm3, <- He3 in Hb3.
  assert (He3K : e3 <= K + 1).
  { destruct Hcase3 as [-> | Hf]; [lia|]. rewrite He3, Hf. apply fexp_le; [|lia].
    pose proof (Zdigits2_le m2 (K + 1 - e1) ltac:(lia) Hm2). lia. }
  destruct (shr_m mrs3) as [|p|p]; [exact I | | lia].
  destruct (Z.leb_spec e3 (emax - prec)) as [_ | Hbig].
  - exact (proj2 Hb3).
  - unfold emax, prec in Hbig. lia.
Qed.

Lemma small_mono (K K' : Z) (x : spec_float) : K <= K' -> small K x -> small K' x.
Proof.
  intros HK. destruct x as [s|s| |s m e]; simpl; auto. intros Hm.
  destruct (Z.le_gt_cases 0 (K - e)) as [Hge | Hlt].
  - assert (2 ^ (K - e) <= 2 ^ (K' - e)) by (apply Z.pow_le_mono_r; lia). lia.
  - rewrite Z.pow_neg_r in Hm by lia. lia.
Qed.

Lemma small_exponent (K : Z) (m : positive) (e : Z) : Z.pos m <= 2 ^ (K - e) -> e <= K.
Proof.
  intros Hm. destruct (Z.le_gt_cases e K) as [Hle | Hgt]; [exact Hle|].
  rewrite Z.pow_neg_r in Hm by lia. lia.
Qed.

Lemma SFopp_small (K : Z) (x : spec_float) : small K x -> small K (SFopp x).
Proof. destruct x; simpl; auto. Qed.

Lemma SFmul_small (a b : Z) (x y : spec_float) :
  small a x -> small b y -> 0 <= a -> 0 <= b -> a + b <= 970 ->
  small (a + b + 1) (SFmul prec emax x y).
Proof.
  destruct x as [sx|sx| |sx mx ex], y as [sy|sy| |sy my ey]; simpl; try tauto.
  intros Hx Hy Ha Hb Hab.
  pose proof (small_exponent _ _ _ Hx) as Hex. pose proof (small_exponent _ _ _ Hy) as Hey.
  apply binary_round_aux_small; [|lia|lia]. split; [lia|].
  rewrite Pos2Z.inj_mul.
  replace (a + b - (ex + ey)) with ((a - ex) + (b - ey)) by lia.
  rewrite Z.pow_add_r by lia. apply Z.mul_le_mono_nonneg; lia.
Qed.

Lemma iter_xO (d m : positive) : Z.pos (Pos.iter xO m d) = Z.pos m * 2 ^ Z.pos d.
Proof.
  induction d as [|d IH] using Pos.peano_ind.
  - simpl. lia.
  - rewrite Pos.iter_succ, Pos2Z.inj_xO, IH, Pos2Z.inj_succ, Z.pow_succ_r by lia. lia.
Qed.

(** [shl_align] keeps the value, and does not raise the exponent. *)
Lemma shl_align_small (K : Z) (m : positive) (e e' : Z) :
  Z.pos m <= 2 ^ (K - e) ->
  Z.pos (fst (shl_align m e e')) <= 2 ^ (K - snd (shl_align m e e'))
  /\ snd (shl_align m e e') <= e
  /\ Z.min e e' <= snd (shl_align m e e').
Proof.
  intros Hm. pose proof (small_exponent _ _ _ Hm) as He. unfold shl_align.
  destruct (e' - e) as [|d|d] eqn:Ed; cbn [fst snd]; [split; [exact Hm | lia] .. |].
  rewrite iter_xO. split; [|lia].
  replace (K - e') with ((K - e) + Z.pos d) by lia.
  rewrite Z.pow_add_r by lia. apply Z.mul_le_mono_nonneg_r; [|exact Hm].
  apply Z.pow_nonneg. lia.
Qed.

Lemma binary_round_small (s : bool) (m : positive) (e K : Z) :
  Z.pos m <= 2 ^ (K - e) -> 0 <= K <= 970 ->
  small (K + 1) (binary_round prec emax s m e).
Proof.
  intros Hm HK. unfold binary_round.
  pose proof (shl_align_small K m e (fexp prec emax (Z.pos (digits2_pos m) + e)) Hm)
    as (Hb & He & _).
  pose proof (small_exponent _ _ _ Hm) as HeK.
  destruct (shl_align m e _) as [mz ez]. cbn [fst snd] in Hb, He.
  apply binary_round_aux_small; [lia | lia | exact HK].
Qed.

Lemma binary_normalize_small (m e K : Z) (szero : bool) :
  Z.abs m <= 2 ^ (K - e) -> 0 <= K <= 970 ->
  small (K + 1) (binary_normalize prec emax m e szero).
Proof.
  intros Hm HK. destruct m as [|p|p]; simpl; [exact I | |];
    apply binary_round_small; assumption.
Qed.

Lemma SFadd_small (a b : Z) (x y : spec_float) :
  small a x -> small b y -> 0 <= a -> 0 <= b -> Z.max a b <= 969 ->
  small (Z.max a b + 2) (SFadd prec emax x y).
Proof.
  intros Hx Hy Ha Hb Hab.
  assert (Hx' : small (Z.max a b + 2) x) by (eapply small_mono; [|exact Hx]; lia).
  assert (Hy' : small (Z.max a b + 2) y) by (eapply small_mono; [|exact Hy]; lia).
  destruct x as [sx|sx| |sx mx ex], y as [sy|sy| |sy my ey]; try (simpl in Hx, Hy; tauto);
    try exact Hx'; try exact Hy'.
  - simpl. destruct sx, sy; exact I.
  - cbn [SFadd]. simpl in Hx, Hy.
    pose proof (shl_align_small a mx ex (Z.min ex ey) Hx) as (HX & HXe & HXm).
    pose proof (shl_align_small b my ey (Z.min ex ey) Hy) as (HY & HYe & HYm).
    assert (HeX : snd (shl_align mx ex (Z.min ex ey)) = Z.min ex ey).
    { unfold shl_align in *. destruct (Z.min ex ey - ex) eqn:E; cbn [snd] in *; lia. }
    assert (HeY : snd (shl_align my ey (Z.min ex ey)) = Z.min ex ey).
    { unfold shl_align in *. destruct (Z.min ex ey - ey) eqn:E; cbn [snd] in *; lia. }
    rewrite HeX in HX. rewrite HeY in HY.
    replace (Z.max a b + 2) with (Z.max a b + 1 + 1) by lia.
    apply binary_normalize_small; [|lia].
    set (X := Z.pos (fst (shl_align mx ex (Z.min ex ey)))) in *.
    set (Y := Z.pos (fst (shl_align my ey (Z.min ex ey)))) in *.
    pose proof (small_exponent _ _ _ Hx). pose proof (small_exponent _ _ _ Hy).
    assert (HXb : X <= 2 ^ (Z.max a b - Z.min ex ey)).
    { etransitivity; [exact HX|]. apply Z.pow_le_mono_r; lia. }
    assert (HYb : Y <= 2 ^ (Z.max a b - Z.min ex ey)).
    { etransitivity; [exact HY|]. apply Z.pow_le_mono_r; lia. }
    replace (Z.max a b + 1 - Z.min ex ey) with (Z.max a b - Z.min ex ey + 1) by lia.
    rewrite Z.pow_add_r by lia. change (2 ^ 1) with 2.
    assert (0 < X) by (subst X; lia). assert (0 < Y) by (subst Y; lia).
    unfold cond_Zopp. destruct sx, sy; lia.
Qed.

Lemma Zdigits2_ge (p : positive) (t : Z) :
  0 <= t -> 2 ^ t <= Z.pos p -> t + 1 <= Z.pos (digits2_pos p).
Proof.
  intros Ht Hp. rewrite digits2_pos_size.
  pose proof (Pos.size_gt p) as Hs.
  assert (H2 : Z.pos p < 2 ^ Z.pos (Pos.size p)).
  { rewrite <- Pos2Z.inj_pow. exact Hs. }
  destruct (Z.le_gt_cases (t + 1) (Z.pos (Pos.size p))) as [Hle | Hgt]; [exact Hle|].
  exfalso.
  assert (2 ^ Z.pos (Pos.size p) <= 2 ^ t) by (apply Z.pow_le_mono_r; lia). lia.
Qed.

(** A quotient by a finite number that is 1 or more. *)
Lemma SFdiv_small (a : Z) (x : spec_float) (sy : bool) (my : positive) (ey : Z) :
  small a x -> 0 <= a <= 970 -> ey <= 0 -> 2 ^ (- ey) <= Z.pos my ->
  small (a + 1) (SFdiv prec emax x (S754_finite sy my ey)).
Proof.
  intros Hx Ha Hey Hy. destruct x as [sx|sx| |sx mx ex]; simpl in Hx; try tauto.
  cbn [SFdiv]. unfold SFdiv_core_binary.
  set (d1 := Zdigits2 (Z.pos mx)). set (d2 := Zdigits2 (Z.pos my)).
  set (e' := Z.min (fexp prec emax (d1 + ex - (d2 + ey))) (ex - ey)).
  pose proof (small_exponent _ _ _ Hx) as Hex.
  assert (Hd1 : d1 <= a - ex + 1) by (apply Zdigits2_le; lia).
  assert (Hd2 : - ey + 1 <= d2) by (apply Zdigits2_ge; [lia | exact Hy]).
  assert (He' : e' <= a).
  { subst e'. etransitivity; [apply Z.le_min_l|]. apply fexp_le; lia. }
  set (s := ex - ey - e'). assert (Hs : 0 <= s) by (subst s e'; lia).
  set (m' := match s with Z.pos _ => Z.shiftl (Z.pos mx) s | 0 => Z.pos mx | Z.neg _ => 0 end).
  assert (Hm' : m' = Z.pos mx * 2 ^ s).
  { subst m'. destruct s as [|p|p] eqn:Es; [lia | rewrite Z.shiftl_mul_pow2 by lia; lia | lia]. }
  assert (Hq : fst (Z.div_eucl m' (Z.pos my)) = m' / Z.pos my) by reflexivity.
  destruct (Z.div_eucl m' (Z.pos my)) as [q r]. cbn [fst] in Hq.
  apply binary_round_aux_small; [|exact He'|lia]. subst q.
  split; [apply Z.div_pos; lia|].
  apply Z.div_le_upper_bound; [lia|].
  rewrite Hm'.
  assert (Hmx : Z.pos mx * 2 ^ s <= 2 ^ (a - ex) * 2 ^ s).
  { apply Z.mul_le_mono_nonneg_r; [apply Z.pow_nonneg; lia | exact Hx]. }
  rewrite <- Z.pow_add_r in Hmx by lia.
  replace (a - ex + s) with (- ey + (a - e')) in Hmx by (subst s; lia).
  rewrite Z.pow_add_r in Hmx by lia.
  assert (2 ^ (- ey) * 2 ^ (a - e') <= Z.pos my * 2 ^ (a - e')).
  { apply Z.mul_le_mono_nonneg_r; [apply Z.pow_nonneg; lia | exact Hy]. }
  lia.
Qed.

Lemma of_uint63_small (n : Uint63.int) : small 64 (Prim2SF (of_uint63 n)).
Proof.
  rewrite of_uint63_spec. apply (binary_normalize_small _ _ 63); [|lia].
  pose proof (Uint63.to_Z_bounded n) as [Hlo Hhi].
  change Uint63.wB with (2 ^ 63) in Hhi. rewrite Z.abs_eq by exact Hlo.
  change (63 - 0) with 63. lia.
Qed.

Lemma Z_to_float_small (z : Z) : small 64 (Prim2SF (Z_to_float z)).
Proof.
  unfold Z_to_float. destruct (z <? 0).
  - rewrite opp_spec. apply SFopp_small, of_uint63_small.
  - apply of_uint63_small.
Qed.

(** ** coba/random.py *)

Module random_facts.
Import coba_random.

(** The update is the one of the linear congruential generator
    [x' = (a*x + c) mod m]. *)
Lemma lcg_mod (seed : Z) : lcg seed = (_a * seed + _c) mod _m.
Proof.
  unfold lcg. change _m_minus_1 with (Z.ones 30). change _m with (2 ^ 30).
  apply Z.land_ones. lia.
Qed.

Lemma lcg_range (seed : Z) : 0 <= lcg seed <= _m_minus_1.
Proof.
  rewrite lcg_mod. unfold _m_minus_1.
  pose proof (Z.mod_pos_bound (_a * seed + _c) _m ltac:(reflexivity)). lia.
Qed.

Lemma iter_next_spec (n : nat) (seed : Z) :
  length (fst (iter_next n seed)) = n /\
  Forall (fun s => 0 <= s <= _m_minus_1) (fst (iter_next n seed)).
Proof.
  revert seed. induction n as [|n IH]; intros seed; simpl.
  - split; [reflexivity | constructor].
  - specialize (IH (lcg seed)). destruct (iter_next n (lcg seed)) as [numbers seed'].
    simpl in *. destruct IH as [Hlen Hall]. split; [lia|].
    constructor; [apply lcg_range | exact Hall].
Qed.

Section Floats.
Context {F : Type} `{PyFloatSigns F}.

(** [randoms(n)] for [n > 0] returns [n] non-negative floats. *)
Lemma randoms_spec (n seed : Z) :
  0 < n ->
  exists r seed', randoms n seed = Ok (r, seed') /\
    Z.of_nat (length r) = n /\ Forall f_nonneg r.
Proof.
  intros Hn. unfold randoms, _next.
  destruct (n <=? 0) eqn:E; [lia|]. simpl.
  pose proof (iter_next_spec (Z.to_nat n) seed) as [Hlen Hall].
  destruct (iter_next (Z.to_nat n) seed) as [numbers seed']. simpl in *.
  eexists _, _. split; [reflexivity|]. split.
  - rewrite length_map, Hlen. lia.
  - apply Forall_fmap. eapply Forall_impl; [exact Hall|].
    intros s [Hs _]. simpl. apply f_div_nonneg.
    + apply f_of_Z_nonneg. exact Hs.
    + reflexivity.
Qed.

Lemma shuffle_loop_Permutation {A : Type} (indexes : list Z) (r : list F) (l : list A) :
  Forall f_nonneg r ->
  length r = length l ->
  (forall i, i ∈ indexes -> 0 <= i < Z.of_nat (length l)) ->
  exists l', shuffle_loop indexes (Z.of_nat (length l)) r l = Ok l' /\
    l' ≡ₚ l /\ length l' = length l.
Proof.
  intros Hr. revert l. induction indexes as [|i rest IH]; intros l Hlen Hidx; simpl.
  - exists l. auto.
  - assert (Hi : 0 <= i < Z.of_nat (length l)) by (apply Hidx; left).
    destruct (py_get_in_range r i) as (ri & -> & Hri); [lia|]. simpl.
    assert (Hnn : f_nonneg ri).
    { rewrite Forall_forall in Hr. apply Hr. eapply list_elem_of_lookup_2, Hri. }
    set (j := Z.min _ _).
    assert (Hj : 0 <= j < Z.of_nat (length l)).
    { subst j. split; [|lia]. apply Z.min_glb; [|lia].
      apply f_int_nonneg, f_add_nonneg; [apply f_of_Z_nonneg; lia|].
      apply f_mul_nonneg; [exact Hnn | apply f_of_Z_nonneg; lia]. }
    destruct (py_swap_Permutation l i j Hi Hj) as (l1 & -> & Hperm & Hlen1). simpl.
    destruct (IH l1) as (l' & Hl' & Hperm' & Hlen').
    + lia.
    + intros k Hk. rewrite Hlen1. apply Hidx. right. exact Hk.
    + exists l'. rewrite Hlen1 in Hl'. split; [exact Hl'|]. split.
      * rewrite Hperm'. exact Hperm.
      * lia.
Qed.

(** On values: the list that [shuffle] returns for a non-empty argument. *)
Lemma shuffle_permutes {A : Type} (sequence : list A) (seed : Z) :
  sequence <> [] ->
  exists l seed', shuffle sequence seed = Ok (l, seed') /\
    l ≡ₚ sequence /\ length l = length sequence.
Proof.
  intros Hne. unfold shuffle.
  assert (Hn : 0 < Z.of_nat (length sequence)) by (destruct sequence; [done | simpl; lia]).
  destruct (randoms_spec (Z.of_nat (length sequence)) seed Hn) as (r & seed' & -> & Hlen & Hr).
  simpl.
  destruct (shuffle_loop_Permutation (py_range (Z.of_nat (length sequence))) r sequence)
    as (l' & -> & Hperm & Hlen'); [exact Hr | lia | apply elem_of_py_range |].
  simpl. eauto.
Qed.

(** [CobaRandom_randoms(n)] makes [n] draws, none of them negative; for
    [n > 0] they are the draws of [Random.randoms(n)]. *)
Lemma CobaRandom_randoms_spec (n seed : Z) :
  length (fst (CobaRandom_randoms n seed)) = Z.to_nat n
  /\ Forall f_nonneg (fst (CobaRandom_randoms n seed)).
Proof.
  unfold CobaRandom_randoms.
  pose proof (iter_next_spec (Z.to_nat n) seed) as [Hlen Hall].
  destruct (iter_next (Z.to_nat n) seed) as [numbers seed']. simpl in *. split.
  - rewrite length_map. exact Hlen.
  - apply Forall_fmap. eapply Forall_impl; [exact Hall|].
    intros s [Hs _]. simpl. apply f_div_nonneg.
    + apply f_of_Z_nonneg. exact Hs.
    + reflexivity.
Qed.

Lemma CobaRandom_randoms_Random (n seed : Z) :
  0 < n -> randoms n seed = Ok (CobaRandom_randoms n seed).
Proof.
  intros Hn. unfold randoms, _next, CobaRandom_randoms.
  destruct (n <=? 0) eqn:E; [lia|]. simpl.
  destruct (iter_next (Z.to_nat n) seed) as [numbers seed']. reflexivity.
Qed.

(** [CobaRandom_shuffle] returns a permutation of every sequence, the
    empty one too; on a sequence that is not empty it is the list that
    [Random.shuffle] returns. *)
Lemma CobaRandom_shuffle_permutes {A : Type} (sequence : list A) (seed : Z) :
  exists l seed', CobaRandom_shuffle sequence seed = Ok (l, seed')
    /\ l ≡ₚ sequence /\ length l = length sequence
    /\ (sequence <> [] -> shuffle sequence seed = Ok (l, seed')).
Proof.
  unfold CobaRandom_shuffle, shuffle.
  pose proof (CobaRandom_randoms_spec (Z.of_nat (length sequence)) seed) as [Hlen Hr].
  pose proof (CobaRandom_randoms_Random (Z.of_nat (length sequence)) seed) as Hsame.
  destruct (CobaRandom_randoms (Z.of_nat (length sequence)) seed) as [r seed'].
  simpl in Hlen, Hr.
  destruct (shuffle_loop_Permutation (py_range (Z.of_nat (length sequence))) r sequence)
    as (l' & Hl' & Hperm & Hlen'); [exact Hr | lia | apply elem_of_py_range |].
  exists l', seed'. rewrite Hl'. simpl. split; [reflexivity|].
  split; [exact Hperm|]. split; [exact Hlen'|].
  intros Hne. rewrite Hsame by (destruct sequence; [done | simpl; lia]).
  simpl. rewrite Hl'. reflexivity.
Qed.

(** The loop on the store writes to the object [l] only, and leaves in it
    what the loop on values computes. *)
Lemma shuffle_loop_at_spec {A : Type} (indexes : list Z) (n : Z) (r : list F) (l : nat)
  (store : gmap nat (list A)) (items : list A) :
  shuffle_loop_at indexes n r l (<[l := items]> store)
  = (items' ← shuffle_loop indexes n r items; Ok (<[l := items']> store)).
Proof.
  revert items. induction indexes as [|i rest IH]; intros items; simpl; [reflexivity|].
  destruct (py_get r i) as [ri | e]; simpl; [|reflexivity].
  unfold deref. rewrite lookup_insert_eq. simpl.
  destruct (py_swap items i _) as [items' | e]; simpl; [|reflexivity].
  rewrite insert_insert_eq. apply IH.
Qed.

(** On the store: the new list is a permutation of the argument, and the
    argument and every other object are as they were. *)
Lemma shuffle_at_permutes {A : Type} (store : gmap nat (list A))
  (sequence : nat) (items : list A) (seed : Z) :
  store !! sequence = Some items ->
  items <> [] ->
  exists store' l items' seed',
    shuffle_at store sequence seed = Ok (store', l, seed')
    /\ shuffle items seed = Ok (items', seed')
    /\ store' !! l = Some items'
    /\ items' ≡ₚ items
    /\ length items' = length items
    /\ l <> sequence
    /\ store' !! sequence = Some items
    /\ (forall ref, ref <> l -> store' !! ref = store !! ref).
Proof.
  intros Hseq Hne.
  destruct (shuffle_permutes items seed Hne) as (items' & seed' & Hsh & Hperm & Hlen).
  assert (Hfresh : fresh (dom store) <> sequence).
  { intros Heq. apply (is_fresh (dom store)). rewrite Heq.
    apply elem_of_dom. eauto. }
  pose proof Hsh as Hvalue.
  unfold shuffle_at, deref. rewrite Hseq. simpl.
  unfold shuffle in Hsh.
  destruct (randoms (Z.of_nat (length items)) seed) as [[r seed1] | e]; [|discriminate Hsh].
  simpl in *. rewrite shuffle_loop_at_spec.
  destruct (shuffle_loop (py_range (Z.of_nat (length items))) (Z.of_nat (length items)) r items)
    as [l' | e]; [|discriminate Hsh].
  simpl in Hsh |- *. injection Hsh as -> ->.
  exists (<[fresh (dom store) := items']> store), (fresh (dom store)), items', seed'.
  split; [reflexivity|]. split; [exact Hvalue|].
  split; [apply lookup_insert_eq|]. split; [exact Hperm|]. split; [exact Hlen|].
  split; [exact Hfresh|].
  split; [rewrite lookup_insert_ne by exact Hfresh; exact Hseq|].
  intros ref Href. apply lookup_insert_ne. congruence.
Qed.

End Floats.

(** In binary64 a draw is a number of magnitude at most [2 ^ 65], whatever
    the state (it is at most 1 for a state of the generator). *)
Lemma draw_small (state : Z) :
  small 65 (Prim2SF (Z_to_float state / Z_to_float _m_minus_1)).
Proof.
  rewrite div_spec.
  change (Prim2SF (Z_to_float _m_minus_1)) with (S754_finite false 9007199246352384 (-23)).
  apply (SFdiv_small 64); [apply Z_to_float_small | lia | lia | vm_compute; discriminate].
Qed.

Lemma randoms_small (n seed : Z) (r : list float) (seed' : Z) :
  @randoms float binary64 n seed = Ok (r, seed') ->
  Forall (fun u => small 65 (Prim2SF u)) r.
Proof.
  unfold randoms, _next. destruct (n <=? 0); [discriminate|]. simpl.
  destruct (iter_next (Z.to_nat n) seed) as [numbers seed1]. intros [= <- <-].
  apply Forall_fmap, Forall_forall. intros number _. apply draw_small.
Qed.

(** The value that the loop of [shuffle] hands to [int] is a number: [int]
    returns there, and [float_to_Z] is what it returns. *)
Lemma shuffle_index_is_finite (n seed : Z) (r : list float) (seed' : Z) :
  @randoms float binary64 n seed = Ok (r, seed') ->
  forall (i : Z) (ri : float), r !! Z.to_nat i = Some ri ->
    isfinite (Prim2SF (Z_to_float i + ri * Z_to_float (n - i))%float).
Proof.
  intros Hr i ri Hri. apply (small_isfinite (Z.max 64 130 + 2)).
  rewrite add_spec. apply SFadd_small; [apply Z_to_float_small | | lia | lia | lia].
  rewrite mul_spec. apply (SFmul_small 65 64); [|apply Z_to_float_small | lia | lia | lia].
  pose proof (randoms_small n seed r seed' Hr) as Hall.
  rewrite Forall_forall in Hall. apply Hall. eapply list_elem_of_lookup_2, Hri.
Qed.

(** C10 (as amended): for every non-empty sequence and every seed,
    [shuffle] returns a new list that is a permutation of its argument, of
    the same length, and leaves the argument (and every other object of
    the store) as it was.  This holds in every float arithmetic that obeys
    the sign rules: in binary64, the arithmetic that runs
    ([binary64_signs]; the second part says it of binary64 alone), and in
    exact arithmetic ([exact_signs]).  In binary64 every value
    [i + r[i] * (n - i)] that the loop hands to [int] is a number, not an
    infinity or a NaN, so that [int] returns. *)
Theorem C10_shuffle_permutes_nonempty :
  (forall (F : Type) (PF : PyFloat F) (FS : @PyFloatSigns F PF) (A : Type)
     (store : gmap nat (list A)) (sequence : nat) (items : list A) (seed : Z),
      store !! sequence = Some items ->
      items <> [] ->
      exists store' l items' seed',
        shuffle_at (F := F) store sequence seed = Ok (store', l, seed')
        /\ shuffle (F := F) items seed = Ok (items', seed')
        /\ store' !! l = Some items'
        /\ items' ≡ₚ items
        /\ length items' = length items
        /\ l <> sequence
        /\ store' !! sequence = Some items
        /\ (forall ref, ref <> l -> store' !! ref = store !! ref))
  /\ (forall (A : Type) (items : list A) (seed : Z),
        items <> [] ->
        exists items' seed',
          @shuffle float binary64 A items seed = Ok (items', seed')
          /\ items' ≡ₚ items
          /\ length items' = length items)
  /\ (forall (n seed : Z) (r : list float) (seed' : Z),
        @randoms float binary64 n seed = Ok (r, seed') ->
        forall (i : Z) (ri : float), r !! Z.to_nat i = Some ri ->
          isfinite (Prim2SF (Z_to_float i + ri * Z_to_float (n - i))%float)).
Proof.
  split; [|split].
  - intros F PF FS A. apply shuffle_at_permutes.
  - intros A. apply (shuffle_permutes (F := float)).
  - exact shuffle_index_is_finite.
Qed.

(** The witness of C10: a list of three items at the reference 0, seed 0,
    binary64. *)
Lemma C10_shuffle_witness :
  exists store' l items' seed',
    @shuffle_at float binary64 Z {[ 0%nat := [1; 2; 3] ]} 0 0 = Ok (store', l, seed')
    /\ @shuffle float binary64 Z [1; 2; 3] 0 = Ok (items', seed')
    /\ store' !! l = Some items'
    /\ items' ≡ₚ [1; 2; 3]
    /\ length items' = 3%nat
    /\ l <> 0%nat
    /\ store' !! 0%nat = Some [1; 2; 3]
    /\ (forall ref, ref <> l -> store' !! ref = ({[ 0%nat := [1; 2; 3] ]} : gmap nat (list Z)) !! ref).
Proof.
  apply (proj1 C10_shuffle_permutes_nonempty float binary64 binary64_signs);
    [reflexivity | discriminate].
Defined.

(** C10 (as stated) fails on the empty sequence: [randoms(0)] raises the
    [ValueError] of [_next], whatever the seed and the arithmetic. *)
Lemma C10_shuffle_empty_raises :
  @shuffle float binary64 Z [] 0 = Raise (ValueError "n must be an integer greater than 0")
  /\ @shuffle Q exact Z [] 0 = Raise (ValueError "n must be an integer greater than 0")
  /\ ~ (exists l seed', @shuffle float binary64 Z [] 0 = Ok (l, seed') /\ l ≡ₚ []).
Proof.
  split; [reflexivity|]. split; [reflexivity|].
  intros (l & seed' & Heq & _). discriminate Heq.
Qed.

(** [random()] always returns: one more state of the generator, divided
    by [m - 1]. *)
Lemma random_returns {F : Type} `{PyFloat F} (seed : Z) :
  random seed = Ok (f_div (f_of_Z (lcg seed)) (f_of_Z _m_minus_1), lcg seed).
Proof. reflexivity. Qed.

(** C6: the clamp of [randint] is [b - 1], not [b - a].  With the draw
    [u = 1.0] (the state [m - 1], which follows the seed 536166110),
    [randint(2, 5)] is 6, in binary64 and in exact arithmetic alike; and
    with [a = 0] no state ever gives [b]: [randint(0, 1)] is always 0. *)
Theorem C6_randint_clamp_misses_range :
  @random float binary64 536166110 = Ok (1%float, 1073741823)
  /\ @randint float binary64 2 5 536166110 = Ok (6, 1073741823)
  /\ @randint Q exact 2 5 536166110 = Ok (6, 1073741823)
  /\ (forall (F : Type) (PF : PyFloat F) (b seed : Z),
        exists v, @randint F PF 0 b seed = Ok (v, lcg seed) /\ v < b)
  /\ (forall (F : Type) (PF : PyFloat F) (FS : @PyFloatSigns F PF) (seed : Z),
        @randint F PF 0 1 seed = Ok (0, lcg seed)).
Proof.
  split; [vm_compute; reflexivity|].
  split; [vm_compute; reflexivity|].
  split; [vm_compute; reflexivity|].
  split.
  - intros F PF b seed. unfold randint. rewrite random_returns. simpl.
    eexists. split; [reflexivity|]. lia.
  - intros F PF FS seed. unfold randint. rewrite random_returns. simpl.
    do 2 f_equal.
    assert (0 <= f_int (f_mul (f_of_Z 2) (f_div (f_of_Z (lcg seed)) (f_of_Z _m_minus_1)))).
    { apply f_int_nonneg, f_mul_nonneg; [apply f_of_Z_nonneg; lia|].
      apply f_div_nonneg; [|reflexivity].
      apply f_of_Z_nonneg. apply lcg_range. }
    change (1 - 0 + 1) with 2. lia.
Qed.

End random_facts.

(** ** coba/benchmarks.py: the batch policies *)

Module batch_facts.
Import simulations benchmarks examples.

(** C4: the batch_count policy computes the index of the [i]-th enlarged
    batch as [int(i * (float(K)/r))], two roundings away from
    [floor(i*K/r)].  For 22 interactions in 30 batches the 12th extra
    ([i = 11]) lands at index 14 ([11 * (30.0/22)] is [14.999999999999998])
    where the rule names [floor(11*30/22) = 15], which no extra reaches;
    [Batch.filter], which divides [i*K] by [r] in one step, gives 15.
    The golden case [N = 5], [K = 2] is [[3, 2]]. *)
Theorem C4_batch_count_rounds_an_index_down :
  @batch_sizes_count float binary64 30 22 =
    Ok [1; 1; 1; 0; 1; 1; 1; 0; 1; 1; 1; 0; 1; 1; 1; 0; 1; 1; 0; 1; 1; 1; 0; 1; 1; 1; 0; 1; 1; 0]
  /\ spaced_indexes 30 22 =
       [0; 1; 2; 4; 5; 6; 8; 9; 10; 12; 13; 15; 16; 17; 19; 20; 21; 23; 24; 25; 27; 28]
  /\ f_int (f_mul (f_of_Z 11) (f_div (f_of_Z 30) (f_of_Z 22) : float)) = 14
  /\ 11 * 30 / 22 = 15
  /\ @Batch_filter_sizes float binary64 30 22 =
       Ok [1; 1; 1; 0; 1; 1; 1; 0; 1; 1; 1; 0; 1; 1; 0; 1; 1; 1; 0; 1; 1; 1; 0; 1; 1; 1; 0; 1; 1; 0]
  /\ @batch_sizes_count Q exact 30 22 = @Batch_filter_sizes float binary64 30 22
  /\ @batch_sizes_count float binary64 2 5 = Ok [3; 2].
Proof.
  repeat split; vm_compute; reflexivity.
Qed.

Lemma batch_sizes_while_step (fuel : nat) (fn : Z -> Z) (i next remaining : Z)
  (acc : list Z) :
  batch_sizes_while (S fuel) fn i next remaining acc =
  if next <? remaining
  then batch_sizes_while fuel fn (i + 1) (fn (i + 1)) (remaining - next) (acc ++ [next])
  else Some acc.
Proof. reflexivity. Qed.

(** The [while] loop on a constant size [s] and [j + 1] times [s]
    interactions: [j] batches, the last one, which would fit, is left out. *)
Lemma batch_sizes_while_constant (s : Z) (j : nat) (i : Z) (acc : list Z) :
  0 < s ->
  batch_sizes_while (S j) (fun _ => s) i s (Z.of_nat (S j) * s) acc
  = Some (acc ++ replicate j s).
Proof.
  intros Hs. revert i acc. induction j as [|j IH]; intros i acc.
  - rewrite batch_sizes_while_step. change (Z.of_nat 1) with 1.
    rewrite Z.mul_1_l, Z.ltb_irrefl, app_nil_r. reflexivity.
  - rewrite batch_sizes_while_step.
    assert (Hlt : s < Z.of_nat (S (S j)) * s).
    { rewrite !Nat2Z.inj_succ. pose proof (Nat2Z.is_nonneg j). nia. }
    apply Z.ltb_lt in Hlt. rewrite Hlt.
    replace (Z.of_nat (S (S j)) * s - s) with (Z.of_nat (S j) * s)
      by (rewrite (Nat2Z.inj_succ (S j)); lia).
    rewrite IH. rewrite <- app_assoc. reflexivity.
Qed.

(** C5: the loop of the callable policy tests [remaining > next], not
    [>=]: six interactions and the constant size 3 give [[3]], the second
    batch, which fits exactly, is dropped; the integer policy on the
    same numbers gives [[3, 3]].  So it is for every exact fit: [k] times
    [s] interactions give [k - 1] batches. *)
Theorem C5_callable_policy_drops_exact_fit :
  (forall fuel, (2 <= fuel)%nat -> batch_sizes_callable fuel (fun _ => 3) 6 = Some [3])
  /\ @batch_sizes_int float binary64 3 6 = Ok [3; 3]
  /\ @batch_sizes_int Q exact 3 6 = Ok [3; 3]
  /\ (forall (s : Z) (k : nat), 0 < s ->
        batch_sizes_callable (S k) (fun _ => s) (Z.of_nat (S k) * s) = Some (replicate k s)).
Proof.
  split.
  - intros [|[|fuel]] Hfuel; try lia. reflexivity.
  - split; [vm_compute; reflexivity|]. split; [vm_compute; reflexivity|].
    intros s k Hs. unfold batch_sizes_callable.
    rewrite batch_sizes_while_constant by exact Hs. reflexivity.
Qed.

(** In binary64 the rest of the description still holds on the small
    cases: for [K] from 1 to 40 and [N] from 0 to 80 the policy returns [K]
    sizes that sum to [N], each [floor(N/K)] or one more. *)
Lemma batch_count_binary64_small :
  forallb (fun K => forallb (fun N =>
             near_equal_partition N K (@batch_sizes_count float binary64 K N))
             (py_range 81))
    (map Z.succ (py_range 40)) = true.
Proof. vm_compute. reflexivity. Qed.

(** *** The batch_count policy in exact arithmetic *)

Lemma Qtrunc_nonneg (q : Q) : (0 <= q)%Q -> Qtrunc q = Qfloor q.
Proof.
  intros Hq. unfold Qtrunc. unfold Qle in Hq. simpl in Hq.
  destruct (0 <=? Qnum q) eqn:E; [reflexivity | lia].
Qed.

Lemma f_int_div_exact (a b : Z) :
  0 <= a -> 0 < b -> @f_int Q exact (f_div (f_of_Z a) (f_of_Z b)) = a / b.
Proof.
  intros Ha Hb. cbn [f_int f_div f_of_Z exact].
  rewrite Qtrunc_nonneg.
  - symmetry. apply Zdiv_Qdiv.
  - apply Qle_shift_div_l; [rewrite <- (Zlt_Qlt 0); exact Hb|].
    rewrite Qmult_0_l. rewrite <- (Zle_Qle 0). exact Ha.
Qed.

Lemma f_int_mul_div_exact (i K r : Z) :
  0 <= i -> 0 <= K -> 0 < r ->
  @f_int Q exact (f_mul (f_of_Z i) (f_div (f_of_Z K) (f_of_Z r))) = i * K / r.
Proof.
  intros Hi HK Hr. rewrite <- (f_int_div_exact (i * K) r) by lia.
  cbn [f_int f_mul f_div f_of_Z exact].
  assert (Hr' : ~ (inject_Z r == 0)%Q).
  { intros Heq. apply (Qlt_irrefl 0). rewrite <- Heq at 2.
    rewrite <- (Zlt_Qlt 0). exact Hr. }
  assert (Heq : (inject_Z i * (inject_Z K / inject_Z r) == inject_Z (i * K) / inject_Z r)%Q).
  { rewrite inject_Z_mult. field. exact Hr'. }
  assert (Hnn : (0 <= inject_Z (i * K) / inject_Z r)%Q).
  { apply Qle_shift_div_l; [rewrite <- (Zlt_Qlt 0); exact Hr|].
    rewrite Qmult_0_l. rewrite <- (Zle_Qle 0). lia. }
  rewrite !Qtrunc_nonneg; [| exact Hnn | rewrite Heq; exact Hnn].
  rewrite Heq. reflexivity.
Qed.

Lemma py_incr_in_range (l : list Z) (j : Z) :
  0 <= j < Z.of_nat (length l) ->
  exists x, l !! Z.to_nat j = Some x /\ py_incr l j = Ok (<[Z.to_nat j := x + 1]> l).
Proof.
  intros Hj. unfold py_incr.
  destruct (py_get_in_range l j Hj) as (x & -> & Hx). simpl.
  rewrite py_index_in_range by exact Hj. eauto.
Qed.

Lemma sum_insert_incr (l : list Z) (k : nat) (x : Z) :
  l !! k = Some x -> foldr Z.add 0 (<[k := x + 1]> l) = foldr Z.add 0 l + 1.
Proof.
  revert k. induction l as [|y l IH]; intros [|k] Hk; simpl in *; try discriminate.
  - injection Hk as ->. lia.
  - rewrite (IH k Hk). lia.
Qed.

Lemma sum_replicate (n : nat) (q : Z) : foldr Z.add 0 (replicate n q) = Z.of_nat n * q.
Proof. induction n as [|n IH]; simpl replicate; simpl foldr; [lia | rewrite IH; lia]. Qed.

(** The indexes of the spacing rule are increasing by at least one when
    [r <= K], hence distinct, and they stay below [K]. *)
Lemma spaced_index_step (K r i : Z) : 0 < r <= K -> 0 <= i -> i * K / r < (i + 1) * K / r.
Proof.
  intros Hr Hi.
  assert (H1 : i * K / r + 1 = (i * K + r) / r).
  { replace (i * K + r) with (i * K + 1 * r) by lia. rewrite Z.div_add by lia. lia. }
  assert (H2 : (i * K + r) / r <= (i + 1) * K / r) by (apply Z.div_le_mono; lia).
  lia.
Qed.

Lemma spaced_index_mono (K r i j : Z) :
  0 < r <= K -> 0 <= i < j -> i * K / r < j * K / r.
Proof.
  intros Hr [Hi Hij].
  assert (Hmono : forall n : nat, i * K / r < (i + 1 + Z.of_nat n) * K / r).
  { induction n as [|n IH].
    - replace (i + 1 + Z.of_nat 0) with (i + 1) by lia. apply spaced_index_step; lia.
    - pose proof (spaced_index_step K r (i + 1 + Z.of_nat n) Hr ltac:(lia)) as Hs.
      replace (i + 1 + Z.of_nat (S n)) with (i + 1 + Z.of_nat n + 1) by lia. lia. }
  specialize (Hmono (Z.to_nat (j - i - 1))).
  replace (i + 1 + Z.of_nat (Z.to_nat (j - i - 1))) with j in Hmono by lia.
  exact Hmono.
Qed.

Lemma spaced_index_range (K r i : Z) : 0 < r -> 0 < K -> 0 <= i < r -> 0 <= i * K / r < K.
Proof.
  intros Hr HK Hi. split.
  - apply Z.div_pos; nia.
  - apply Z.div_lt_upper_bound; nia.
Qed.

Lemma spaced_indexes_NoDup (K r : Z) : 0 <= r <= K -> NoDup (spaced_indexes K r).
Proof.
  intros Hr. unfold spaced_indexes.
  apply NoDup_fmap_2_strong.
  - intros i j Hi Hj Heq. apply elem_of_py_range in Hi, Hj.
    destruct (Z.lt_trichotomy i j) as [Hlt | [Heq' | Hgt]]; [|exact Heq'|].
    + pose proof (spaced_index_mono K r i j ltac:(lia) ltac:(lia)). lia.
    + pose proof (spaced_index_mono K r j i ltac:(lia) ltac:(lia)). lia.
  - unfold py_range. apply NoDup_fmap_2; [apply Nat2Z.inj' | apply NoDup_seq].
Qed.

(** The loop that hands out the remainder, in exact arithmetic: it adds
    one at each index of the spacing rule. *)
Lemma spread_exact (K r : Z) (indexes : list Z) (batches : list Z) :
  0 < r <= K ->
  Z.of_nat (length batches) = K ->
  (forall i, i ∈ indexes -> 0 <= i < r) ->
  NoDup (map (fun i => i * K / r) indexes) ->
  exists batches',
    @spread Q exact indexes (f_div (f_of_Z K) (f_of_Z r)) batches = Ok batches'
    /\ length batches' = length batches
    /\ foldr Z.add 0 batches' = foldr Z.add 0 batches + Z.of_nat (length indexes)
    /\ (forall j x, 0 <= j -> batches !! Z.to_nat j = Some x ->
          batches' !! Z.to_nat j
          = Some (if bool_decide (j ∈ map (fun i => i * K / r) indexes) then x + 1 else x)).
Proof.
  intros Hr. revert batches.
  induction indexes as [|i rest IH]; intros batches Hlen Hidx Hnd.
  - exists batches. split; [reflexivity|]. split; [reflexivity|].
    split; [simpl; lia|]. intros j x _ Hx. exact Hx.
  - cbn [spread]. rewrite f_int_mul_div_exact by (try lia; apply Hidx; left).
    assert (Hi : 0 <= i < r) by (apply Hidx; left).
    pose proof (spaced_index_range K r i ltac:(lia) ltac:(lia) Hi) as Hrange.
    destruct (py_incr_in_range batches (i * K / r) ltac:(lia)) as (x0 & Hx0 & ->).
    cbn [mbind result_bind].
    apply NoDup_cons in Hnd as [Hnotin Hnd].
    destruct (IH (<[Z.to_nat (i * K / r) := x0 + 1]> batches)) as (b' & -> & Hlen' & Hsum & Hat).
    + rewrite length_insert. exact Hlen.
    + intros k Hk. apply Hidx. right. exact Hk.
    + exact Hnd.
    + exists b'. split; [reflexivity|]. split; [rewrite Hlen', length_insert; reflexivity|].
      split.
      * rewrite Hsum, (sum_insert_incr _ _ _ Hx0). simpl length. lia.
      * intros j x Hj Hx. cbn [map].
        destruct (decide (j = i * K / r)) as [->|Hne].
        -- rewrite Hx0 in Hx. injection Hx as <-.
           rewrite (Hat (i * K / r) (x0 + 1)); [|lia|apply list_lookup_insert_eq;
             apply lookup_lt_Some in Hx0; exact Hx0].
           rewrite bool_decide_eq_false_2 by exact Hnotin.
           rewrite bool_decide_eq_true_2 by (left). reflexivity.
        -- rewrite (Hat j x); [|lia|rewrite list_lookup_insert_ne by lia; exact Hx].
           destruct (bool_decide (j ∈ map (fun i0 => i0 * K / r) rest)) eqn:E.
           ++ apply bool_decide_eq_true in E.
              rewrite bool_decide_eq_true_2 by (right; exact E). reflexivity.
           ++ apply bool_decide_eq_false in E.
              rewrite bool_decide_eq_false_2; [reflexivity|].
              intros Hin. apply elem_of_cons in Hin as [? | ?]; [lia | done].
Qed.

(** In exact arithmetic the batch_count policy is the one the
    specification describes: for [N >= 0] and [K >= 1] it returns [K]
    sizes that sum to [N], each [floor(N/K)] or one more, the enlarged
    ones being those at the [N mod K] distinct indexes [floor(i*K/r)].
    The divergence of C4 comes from the rounding of binary64 alone. *)
Theorem batch_count_exact (N K : Z) :
  0 <= N -> 1 <= K ->
  exists sizes,
    @batch_sizes_count Q exact K N = Ok sizes
    /\ Z.of_nat (length sizes) = K
    /\ foldr Z.add 0 sizes = N
    /\ NoDup (spaced_indexes K (N mod K))
    /\ length (spaced_indexes K (N mod K)) = Z.to_nat (N mod K)
    /\ (forall j, 0 <= j < K ->
          sizes !! Z.to_nat j
          = Some (if bool_decide (j ∈ spaced_indexes K (N mod K))
                  then N / K + 1 else N / K)).
Proof.
  intros HN HK. unfold batch_sizes_count.
  destruct (K =? 0) eqn:EK; [lia|].
  rewrite f_int_div_exact by lia.
  pose proof (Z.mod_pos_bound N K ltac:(lia)) as Hmod.
  pose proof (Z.div_mod N K ltac:(lia)) as Hdm.
  assert (Hnd : NoDup (spaced_indexes K (N mod K))) by (apply spaced_indexes_NoDup; lia).
  assert (Hlen : length (spaced_indexes K (N mod K)) = Z.to_nat (N mod K)).
  { unfold spaced_indexes, py_range. rewrite !length_map, length_seq. reflexivity. }
  destruct (0 <? N mod K) eqn:Er.
  - destruct (spread_exact K (N mod K) (py_range (N mod K))
                (replicate (Z.to_nat K) (N / K))) as (sizes & -> & Hl & Hsum & Hat).
    + lia.
    + rewrite length_replicate. lia.
    + apply elem_of_py_range.
    + exact Hnd.
    + exists sizes. split; [reflexivity|].
      split; [rewrite Hl, length_replicate; lia|].
      split; [rewrite Hsum, sum_replicate; unfold py_range;
              rewrite length_map, length_seq; nia|].
      split; [exact Hnd|]. split; [exact Hlen|].
      intros j Hj. apply Hat; [lia|]. apply lookup_replicate_2. lia.
  - exists (replicate (Z.to_nat K) (N / K)). split; [reflexivity|].
    split; [rewrite length_replicate; lia|].
    split; [rewrite sum_replicate; nia|].
    split; [exact Hnd|]. split; [exact Hlen|].
    intros j Hj. replace (N mod K) with 0 by lia.
    rewrite bool_decide_eq_false_2 by (unfold spaced_indexes; simpl; apply not_elem_of_nil).
    apply lookup_replicate_2. lia.
Qed.

End batch_facts.

(** ** coba/benchmarks.py: the evaluation loop *)

Module evaluate_facts.
Import simulations benchmarks examples.

Lemma zip_pull_exhausts {A : Type} (batch_indexes : list Z) (xs : list A) :
  (length batch_indexes <= length xs)%nat -> snd (zip_pull batch_indexes xs) = [].
Proof.
  revert xs. induction batch_indexes as [|b rest IH]; intros xs Hlen; simpl.
  - reflexivity.
  - destruct xs as [|x xs]; simpl in Hlen; [lia|].
    specialize (IH xs ltac:(lia)). destruct (zip_pull rest xs). exact IH.
Qed.

Lemma zip_groupby_pull_exhausts {A : Type} (batch_indexes : list Z) (xs : list A) :
  (length batch_indexes <= length xs)%nat ->
  snd (zip_groupby_pull batch_indexes xs) = [].
Proof.
  intros Hlen. unfold zip_groupby_pull.
  pose proof (zip_pull_exhausts batch_indexes xs Hlen) as Hnil.
  destruct (zip_pull batch_indexes xs) as [pairs unread]. simpl in Hnil. subst unread.
  destruct pairs; reflexivity.
Qed.

Section Floats.
Context {F : Type} `{PyFloat F}.

(** Once the iterator [batch_indexes] is exhausted, a learner gets no
    batch: the loop over the factories appends nothing more. *)
Lemma run_learners_exhausted (simulation : Simulation) (info : SimInfo) (idx : Z)
  (factories : list Factory) :
  fst (run_learners simulation info idx factories []) = [].
Proof.
  revert idx. induction factories as [|f rest IH]; intros idx; simpl.
  - reflexivity.
  - destruct f as [learner | e]; simpl; [|reflexivity].
    specialize (IH (idx + 1)).
    destruct (run_learners simulation info (idx + 1) rest []) as [rs out].
    simpl in *. subst rs. reflexivity.
Qed.

(** The slip behind C1: [batch_indexes] is made once per simulation and
    shared by the passes of all learner factories.  When the schedule
    covers no more interactions than the simulation has, the first pass
    exhausts it, and every [Result] of the simulation belongs to the first
    factory. *)
Lemma later_learners_get_nothing (simulation : Simulation) (info : SimInfo) (idx : Z)
  (factory : Factory) (rest : list Factory) (batch_indexes : list Z) :
  (length batch_indexes <= length (info_interactions info))%nat ->
  fst (run_learners simulation info idx (factory :: rest) batch_indexes)
  = fst (run_learners simulation info idx [factory] batch_indexes).
Proof.
  intros Hlen. simpl.
  pose proof (zip_groupby_pull_exhausts batch_indexes (info_interactions info) Hlen) as Hnil.
  destruct (zip_groupby_pull batch_indexes (info_interactions info)) as [batched unread].
  simpl in Hnil. subst unread.
  destruct factory as [learner | e]; [|reflexivity].
  destruct (run_groups simulation info idx learner (groupby batched)) as [rs [[]|e]];
    [|reflexivity].
  pose proof (run_learners_exhausted simulation info (idx + 1) rest) as Hrest.
  destruct (run_learners simulation info (idx + 1) rest []) as [rs' out].
  simpl in *. subst rs'. reflexivity.
Qed.

End Floats.

(** C1: five interactions in two batches ([batch_count = 2], sizes
    [[3, 2]]) and two learner factories.  On a simulation that has a
    method [rewards] the first learner gets its two records and the second
    none, because the first pass has exhausted the shared iterator of
    batch indexes; so it is whenever the schedule covers no more than the
    interactions of the simulation.  On a [MemorySimulation] of the module
    no learner gets a record at all (C2). *)
Theorem C1_second_learner_gets_no_result :
  @batch_sizes_count float binary64 2 5 = Ok [3; 2]
  /\ (exists results,
        @evaluate float binary64 0 (mkBenchmark [rewarding_simulation 5] (Some 2) None)
          [steady_learner "A"; steady_learner "B"] = ([], Returned results)
        /\ triples results = [("A", 0, 0); ("A", 0, 1)]
        /\ length (results_of "A" 0 results) = 2%nat
        /\ results_of "B" 0 results = [])
  /\ @evaluate float binary64 0 (mkBenchmark [memory_simulation 5] (Some 2) None)
       [steady_learner "A"; steady_learner "B"]
     = ([AttributeError "rewards"], Returned [])
  /\ (forall (simulation : Simulation) (info : SimInfo) (idx : Z) (factory : Factory)
        (rest : list Factory) (batch_indexes : list Z),
        (length batch_indexes <= length (info_interactions info))%nat ->
        fst (run_learners simulation info idx (factory :: rest) batch_indexes)
        = fst (run_learners simulation info idx [factory] batch_indexes)).
Proof.
  split; [vm_compute; reflexivity|]. split; [|split].
  - eexists. split; [vm_compute; reflexivity|].
    repeat split; vm_compute; reflexivity.
  - vm_compute. reflexivity.
  - intros. apply later_learners_get_nothing. assumption.
Qed.

Lemma median_nonempty (data : list Z) : data <> [] -> exists q, median data = Ok q.
Proof.
  intros Hne. unfold median.
  assert (Hlen : length (merge_sort Z.le data) = length data).
  { apply Permutation_length, merge_sort_Permutation. }
  destruct (length (merge_sort Z.le data) =? 0)%nat eqn:E.
  - apply Nat.eqb_eq in E. destruct data; [done | simpl in *; lia].
  - destruct (Nat.odd _); eauto.
Qed.

(** No class of the module has an attribute [rewards]: a batch of a
    simulation of the module never gives a [Result]. *)
Lemma run_batch_of_module (simulation : Simulation) (info : SimInfo) (idx : Z)
  (learner : Learner) (batch_group : Z * list Interaction) :
  of_module simulation = true ->
  exists e, run_batch simulation info idx learner batch_group = Raise e /\
    (forall learner1 chosen,
        choose_batch learner (snd batch_group) = Ok (learner1, chosen) ->
        e = AttributeError "rewards").
Proof.
  intros Hmod. unfold run_batch.
  destruct (choose_batch learner (snd batch_group)) as [[learner1 chosen] | e] eqn:E; simpl.
  - replace (getattr_rewards simulation) with
      (@None (list (Key * Choice) -> result (list Reward)))
      by (destruct simulation; simpl in *; congruence).
    simpl. eexists. split; [reflexivity|]. reflexivity.
  - exists e. split; [reflexivity|]. intros ? ? Heq. discriminate Heq.
Qed.

Lemma run_groups_of_module (simulation : Simulation) (info : SimInfo) (idx : Z)
  (learner : Learner) (groups : list (Z * list Interaction)) :
  of_module simulation = true ->
  fst (run_groups simulation info idx learner groups) = [].
Proof.
  intros Hmod. destruct groups as [|g gs]; simpl; [reflexivity|].
  destruct (run_batch_of_module simulation info idx learner g Hmod) as (e & -> & _).
  reflexivity.
Qed.

Lemma run_learners_of_module (simulation : Simulation) (info : SimInfo) (idx : Z)
  (factories : list Factory) (batch_indexes : list Z) :
  of_module simulation = true ->
  fst (run_learners simulation info idx factories batch_indexes) = [].
Proof.
  intros Hmod. revert idx batch_indexes.
  induction factories as [|f rest IH]; intros idx batch_indexes; simpl; [reflexivity|].
  destruct (zip_groupby_pull batch_indexes (info_interactions info)) as [batched unread].
  destruct f as [learner | e]; [|reflexivity].
  pose proof (run_groups_of_module simulation info idx learner (groupby batched) Hmod) as Hg.
  destruct (run_groups simulation info idx learner (groupby batched)) as [rs [[]|e]];
    simpl in Hg; subst rs; [|reflexivity].
  specialize (IH (idx + 1) unread).
  destruct (run_learners simulation info (idx + 1) rest unread) as [rs' out].
  simpl in *. subst rs'. reflexivity.
Qed.

Section Floats.
Context {F : Type} `{PyFloat F}.

Lemma try_simulation_of_module (fuel : nat) (self : UniversalBenchmark)
  (factories : list Factory) (idx : Z) (simulation : Simulation) rs out :
  of_module simulation = true ->
  try_simulation fuel self factories idx simulation = Some (rs, out) -> rs = [].
Proof.
  intros Hmod. unfold try_simulation.
  destruct (before_batches idx simulation) as [info | e]; [|congruence].
  destruct (_batch_sizes fuel self (info_interaction_count info)) as [[sizes | e]|];
    [|congruence|discriminate].
  intros Heq. injection Heq as Heq.
  pose proof (run_learners_of_module simulation info 0 factories (batch_indexes_of sizes) Hmod)
    as Hnil.
  rewrite Heq in Hnil. exact Hnil.
Qed.

(** A benchmark on simulations of the module that are not lazy: [evaluate]
    returns, with the results it started from, unless the fuel runs out in
    a callable batch policy. *)
Lemma evaluate_loop_of_module (fuel : nat) (self : UniversalBenchmark)
  (factories : list Factory) (sims : list Simulation) (idx : Z)
  (results : list Result) (log : list exn) :
  Forall (fun s => of_module s = true /\ is_LazySimulation s = false) sims ->
  snd (evaluate_loop fuel self factories idx sims results log) = Returned results
  \/ snd (evaluate_loop fuel self factories idx sims results log) = OutOfFuel.
Proof.
  intros Hall. revert idx log.
  induction Hall as [|simulation sims [Hmod Hlazy] _ IH]; intros idx log; simpl.
  - left. reflexivity.
  - unfold evaluate_simulation.
    destruct (try_simulation fuel self factories idx simulation) as [[rs out]|] eqn:E;
      simpl; [|right; reflexivity].
    rewrite (try_simulation_of_module _ _ _ _ _ _ _ Hmod E), app_nil_r, Hlazy.
    apply IH.
Qed.

(** C2 (as amended): [evaluate] asks the simulation for [rewards]; the
    classes of the module define [reward] and no [rewards].  So for every
    simulation of the module no [Result] is ever appended, whatever the
    learner factories, the batch policy and the fuel; and when the first
    batch reaches the call (a simulation that is not lazy and has
    interactions, a schedule with a first batch, a first factory that
    builds a learner whose [choose] answers on that batch) the call raises
    [AttributeError], the handler of the simulation logs it, nothing is
    appended and the loop goes on; for a simulation that is not lazy
    [evaluate] returns, with no [Result] for it. *)
Theorem C2_module_simulation_has_no_rewards (fuel : nat) (self : UniversalBenchmark)
  (factories : list Factory) (idx : Z) (simulation : Simulation)
  (results : list Result) (log : list exn) :
  of_module simulation = true ->
  getattr_rewards simulation = None
  /\ getattr_reward simulation = Some (reward simulation)
  /\ (forall results' log' out,
        evaluate_simulation fuel self factories idx simulation results log
        = Some (results', log', out) -> results' = results)
  /\ (forall inter sizes learner rest g gs learner1 chosen,
        is_LazySimulation simulation = false ->
        interactions simulation = Ok inter ->
        inter <> [] ->
        _batch_sizes fuel self (Z.of_nat (length inter)) = Some (Ok sizes) ->
        factories = Ok learner :: rest ->
        groupby (fst (zip_groupby_pull (batch_indexes_of sizes) inter)) = g :: gs ->
        choose_batch learner (snd g) = Ok (learner1, chosen) ->
        evaluate_simulation fuel self factories idx simulation results log
        = Some (results, log ++ [AttributeError "rewards"], Ok tt))
  /\ (is_LazySimulation simulation = false ->
      snd (evaluate_loop fuel self factories idx [simulation] results log) = Returned results
      \/ snd (evaluate_loop fuel self factories idx [simulation] results log) = OutOfFuel).
Proof.
  intros Hmod. split; [|split; [|split; [|split]]];
    [| | | | intros Hlazy; apply evaluate_loop_of_module; repeat constructor; assumption].
  - destruct simulation; simpl in *; congruence.
  - destruct simulation; simpl in *; congruence.
  - intros results' log' out. unfold evaluate_simulation.
    destruct (try_simulation fuel self factories idx simulation) as [[rs o]|] eqn:E;
      simpl; [|discriminate].
    apply try_simulation_of_module in E; [|exact Hmod]. subst rs.
    intros Heq. injection Heq as <- _ _. apply app_nil_r.
  - intros inter sizes learner rest g gs learner1 chosen Hlazy Hinter Hne Hsizes -> Hg Hch.
    unfold evaluate_simulation, try_simulation, before_batches.
    rewrite Hlazy, Hinter. simpl.
    destruct (median_nonempty (map feature_count inter)) as [mf ->];
      [destruct inter; [done | discriminate]|].
    destruct (median_nonempty (map action_count inter)) as [ma ->];
      [destruct inter; [done | discriminate]|].
    simpl. rewrite Hsizes. simpl.
    destruct (zip_groupby_pull (batch_indexes_of sizes) inter) as [batched unread].
    simpl in Hg. rewrite Hg. simpl.
    set (info := mkSimInfo idx inter _ mf ma).
    destruct (run_batch_of_module simulation info 0 learner g Hmod) as (e & -> & He).
    rewrite (He _ _ Hch). simpl. rewrite app_nil_r. reflexivity.
Qed.

End Floats.

(** The witness of C2: a [MemorySimulation] of two interactions, one batch
    per interaction, two learners. *)
Lemma C2_memory_simulation_witness :
  getattr_rewards (memory_simulation 2) = None
  /\ getattr_reward (memory_simulation 2) = Some (reward (memory_simulation 2))
  /\ (forall results' log' out,
        @evaluate_simulation float binary64 0
          (mkBenchmark [memory_simulation 2] None (Some (SizeInt 1)))
          [steady_learner "A"; steady_learner "B"] 0 (memory_simulation 2) [] []
        = Some (results', log', out) -> results' = [])
  /\ @evaluate float binary64 0 (mkBenchmark [memory_simulation 2] None (Some (SizeInt 1)))
       [steady_learner "A"; steady_learner "B"]
     = ([AttributeError "rewards"], Returned []).
Proof.
  destruct (C2_module_simulation_has_no_rewards (F := float) 0
              (mkBenchmark [memory_simulation 2] None (Some (SizeInt 1)))
              [steady_learner "A"; steady_learner "B"] 0 (memory_simulation 2) [] []
              eq_refl) as (H1 & H2 & H3 & H4 & _).
  split; [exact H1|]. split; [exact H2|]. split; [exact H3|].
  unfold evaluate, evaluate_loop. cbn [_simulations].
  rewrite (H4 (some_interactions 2) [1; 1] _ _
             (0, [mkInteraction (VInt 0) [VInt 0; VInt 1; VInt 2] 0])
             [(1, [mkInteraction (VInt 1) [VInt 0; VInt 1; VInt 2] 1])] _ _
             eq_refl eq_refl ltac:(discriminate) eq_refl eq_refl eq_refl eq_refl).
  reflexivity.
Defined.

(** C2 (as stated) fails where the first batch does not reach the call of
    [rewards]: a learner whose [choose] raises makes the first batch raise
    that exception instead; a schedule with no batch (size 10 on five
    interactions) raises and logs nothing; a simulation with no
    interaction fails before any batch, in [median].  In all three no
    [Result] is appended. *)
Lemma C2_first_batch_need_not_reach_rewards :
  @evaluate float binary64 0 (mkBenchmark [memory_simulation 2] None (Some (SizeInt 1)))
    [failing_learner "A"] = ([LearnerException 1], Returned [])
  /\ @evaluate float binary64 0 (mkBenchmark [memory_simulation 5] None (Some (SizeInt 10)))
       [steady_learner "A"] = ([], Returned [])
  /\ @evaluate float binary64 0 (mkBenchmark [memory_simulation 0] None (Some (SizeInt 1)))
       [steady_learner "A"] = ([StatisticsError], Returned []).
Proof. repeat split; vm_compute; reflexivity. Qed.


(** An exception of [choose] or [learn] is the exception of the batch. *)
Lemma choose_raises_in_batch (simulation : Simulation) (info : SimInfo) (idx : Z)
  (learner : Learner) (b : Z) (i : Interaction) (group : list Interaction) (e : exn) :
  choose learner (key i) (context i) (actions i) = Raise e ->
  run_groups simulation info idx learner [(b, i :: group)] = ([], Raise e).
Proof.
  intros Hch. simpl. unfold run_batch. simpl. rewrite Hch. reflexivity.
Qed.

Section Floats.
Context {F : Type} `{PyFloat F}.


End Floats.



End evaluate_facts.

(** ** coba/contexts/cachers.py: the keys of [DiskCacher] *)

Module disk_cacher_facts.
Import cachers examples.

Section Keys.
Variable isalnum_above_latin1 : N -> bool.

Abbreviation accepted key := (forallb (key_char_ok isalnum_above_latin1) key).
Abbreviation refusal :=
  (CobaException "A key was given to DiskCacher which couldn't be made into a file").

Lemma cache_name_spec (key : pystr) :
  _cache_name isalnum_above_latin1 key
  = if accepted key then Ok (key ++ str ".gz") else Raise refusal.
Proof. unfold _cache_name. destruct (accepted key); reflexivity. Qed.

(** On ASCII the test of the code is the character class of the
    specification. *)
Lemma key_char_ok_ascii (c : N) :
  (c < 128)%N -> key_char_ok isalnum_above_latin1 c = spec_key_class c.
Proof.
  intros Hc.
  assert (Hall : forallb (fun n => Bool.eqb
                   (key_char_ok isalnum_above_latin1 (N.of_nat n))
                   (spec_key_class (N.of_nat n))) (seq 0 128) = true)
    by (vm_compute; reflexivity).
  rewrite forallb_forall in Hall.
  specialize (Hall (N.to_nat c)). rewrite N2Nat.id in Hall.
  apply Bool.eqb_prop, Hall, in_seq. lia.
Qed.

Lemma accepted_ascii (key : pystr) :
  Forall (fun c => (c < 128)%N) key -> accepted key = forallb spec_key_class key.
Proof.
  induction 1 as [|c l Hc _ IH]; [reflexivity|].
  cbn [forallb]. rewrite key_char_ok_ascii by exact Hc. rewrite IH. reflexivity.
Qed.

(** C7 (as amended): with a cache directory, [contains], [get], [put] and
    [rmv] accept a key exactly when each of its characters is alphanumeric
    for [str.isalnum] or is a space, a dot or an underscore; such a key is
    stored under [key + ".gz"], and every other key raises
    [CobaException] in all four.  The test is [all(...)] over the
    characters, so the empty key is accepted, and [isalnum] knows the
    letters and digits beyond ASCII, so a key such as "é" is accepted;
    on the non-empty ASCII keys the accepted ones are those of
    [[A-Za-z0-9 ._]+]. *)
Theorem C7_disk_cacher_accepted_keys (dir : pystr) (fs : gmap pystr bytes)
  (key : pystr) (value : list bytes) :
  let self := mkDiskCacher (Some dir) fs in
  _cache_name isalnum_above_latin1 key
    = (if accepted key then Ok (key ++ str ".gz") else Raise refusal)
  /\ is_ok (contains isalnum_above_latin1 self key) = accepted key
  /\ is_ok (get isalnum_above_latin1 self key) = accepted key
  /\ is_ok (put isalnum_above_latin1 self key value) = accepted key
  /\ is_ok (rmv isalnum_above_latin1 self key) = accepted key
  /\ (accepted key = false ->
        contains isalnum_above_latin1 self key = Raise refusal
        /\ get isalnum_above_latin1 self key = Raise refusal
        /\ put isalnum_above_latin1 self key value = Raise refusal
        /\ rmv isalnum_above_latin1 self key = Raise refusal)
  /\ accepted [] = true
  /\ accepted [233%N] = true
  /\ (Forall (fun c => (c < 128)%N) key -> key <> [] -> accepted key = spec_key_regex key).
Proof.
  intros self. split; [apply cache_name_spec|].
  assert (Hpath : _cache_path isalnum_above_latin1 self key
                  = if accepted key then Ok (key ++ str ".gz") else Raise refusal).
  { unfold _cache_path. rewrite cache_name_spec. destruct (accepted key); reflexivity. }
  assert (Hcontains : contains isalnum_above_latin1 self key
                      = if accepted key
                        then Ok (bool_decide (is_Some (fs !! (key ++ str ".gz"))))
                        else Raise refusal).
  { unfold contains. simpl. rewrite Hpath. destruct (accepted key); reflexivity. }
  assert (Hget : get isalnum_above_latin1 self key
                 = if accepted key
                   then match fs !! (key ++ str ".gz") with
                        | Some content => Ok (map rstrip (file_lines content []))
                        | None => Ok []
                        end
                   else Raise refusal).
  { unfold get. rewrite Hcontains, Hpath. destruct (accepted key); [|reflexivity].
    cbn [mbind result_bind files self].
    destruct (fs !! (key ++ str ".gz")) as [content|] eqn:E.
    - rewrite bool_decide_eq_true_2 by eauto. reflexivity.
    - rewrite bool_decide_eq_false_2 by (intros [? ?]; discriminate).
      reflexivity. }
  assert (Hrmv : rmv isalnum_above_latin1 self key
                 = if accepted key
                   then Ok (if bool_decide (is_Some (fs !! (key ++ str ".gz")))
                            then mkDiskCacher (Some dir) (delete (key ++ str ".gz") fs)
                            else self)
                   else Raise refusal).
  { unfold rmv. rewrite Hpath. destruct (accepted key); [|reflexivity]. simpl.
    destruct (bool_decide _); reflexivity. }
  assert (Hput : put isalnum_above_latin1 self key value
                 = if accepted key
                   then Ok (if bool_decide (is_Some (fs !! (key ++ str ".gz")))
                            then self
                            else mkDiskCacher (Some dir)
                                   (<[key ++ str ".gz" :=
                                        concat (map (fun line => rstrip line ++ [13; 10]%N)
                                                  value)]> fs))
                   else Raise refusal).
  { unfold put, put_body. simpl. rewrite Hcontains, Hpath.
    destruct (accepted key); [|reflexivity]. simpl.
    destruct (bool_decide _); reflexivity. }
  rewrite Hcontains, Hget, Hrmv, Hput.
  repeat split.
  - destruct (accepted key); reflexivity.
  - destruct (accepted key); [|reflexivity]. destruct (fs !! _); reflexivity.
  - destruct (accepted key); reflexivity.
  - destruct (accepted key); reflexivity.
  - rewrite H. reflexivity.
  - rewrite H. reflexivity.
  - rewrite H. reflexivity.
  - rewrite H. reflexivity.
  - intros Hascii Hne. rewrite (accepted_ascii key Hascii).
    destruct key; [done | reflexivity].
Qed.

End Keys.

(** C7 (as stated) fails: the empty key and the key "é" (the code point
    233) are outside [[A-Za-z0-9 ._]+], and both are accepted, by
    [_cache_name] and by the four operations. *)
Lemma C7_empty_and_accented_keys_accepted :
  let self := mkDiskCacher (Some (str "cache")) ∅ in
  spec_key_regex [] = false
  /\ _cache_name (fun _ => false) [] = Ok (str ".gz")
  /\ contains (fun _ => false) self [] = Ok false
  /\ get (fun _ => false) self [] = Ok []
  /\ is_ok (put (fun _ => false) self [] [str "payload"]) = true
  /\ rmv (fun _ => false) self [] = Ok self
  /\ spec_key_regex [233%N] = false
  /\ _cache_name (fun _ => false) [233%N] = Ok (233%N :: str ".gz")
  /\ contains (fun _ => false) self [233%N] = Ok false.
Proof. repeat split; vm_compute; reflexivity. Qed.

End disk_cacher_facts.

(** ** coba/contexts/cachers.py: the lock table of [ConcurrentCacher] *)

Module concurrent_cacher_facts.
Import cachers.

Section Locks.
Context {K : Type} `{Countable K}.
Implicit Types (k key : K) (d : gmap K Z) (p : process (K := K)) (s : system (K := K)).

Lemma occ_remove_one_eq k (l : list K) : occ k (remove_one k l) = pred (occ k l).
Proof.
  induction l as [|x l IH]; simpl; [reflexivity|].
  destruct (decide (x = k)) as [->|Hne]; simpl.
  - reflexivity.
  - destruct (decide (x = k)); [done|]. simpl. exact IH.
Qed.

Lemma occ_remove_one_ne k key (l : list K) :
  key <> k -> occ k (remove_one key l) = occ k l.
Proof.
  intros Hne. induction l as [|x l IH]; simpl; [reflexivity|].
  destruct (decide (x = key)) as [->|Hx]; simpl.
  - destruct (decide (key = k)); [done | reflexivity].
  - rewrite IH. reflexivity.
Qed.

Lemma occ_elem_of k (l : list K) : k ∈ l -> (1 <= occ k l)%nat.
Proof.
  induction 1 as [x l | x y l _ IH]; simpl.
  - destruct (decide (x = x)); [lia | done].
  - lia.
Qed.

Lemma total_lookup_le (f : process -> nat) (ps : list process) (i : nat) p :
  ps !! i = Some p -> (f p <= total f ps)%nat.
Proof.
  revert i. induction ps as [|q ps IH]; intros [|i] Hi; simpl in *; try discriminate.
  - injection Hi as ->. lia.
  - specialize (IH i Hi). lia.
Qed.

Lemma total_insert (f : process -> nat) (ps : list process) (i : nat) p p' :
  ps !! i = Some p ->
  (total f (<[i := p']> ps) + f p = total f ps + f p')%nat.
Proof.
  revert i. induction ps as [|q ps IH]; intros [|i] Hi; simpl in *; try discriminate.
  - injection Hi as ->. lia.
  - specialize (IH i Hi). lia.
Qed.

(** What the two attempts do to the table. *)
Lemma acquired_read_lock_spec d key :
  _acquired_read_lock d key =
  match d !! key with
  | None => (<[key := 1]> d, true)
  | Some v => if 0 <=? v then (<[key := v + 1]> d, true) else (d, false)
  end.
Proof.
  unfold _acquired_read_lock. destruct (d !! key) as [v|] eqn:E; reflexivity.
Qed.

Lemma acquired_write_lock_spec d key :
  _acquired_write_lock d key =
  match d !! key with
  | None => (<[key := -1]> d, true)
  | Some v => if v =? 0 then (<[key := -1]> d, true) else (d, false)
  end.
Proof.
  unfold _acquired_write_lock. destruct (d !! key) as [v|] eqn:E; reflexivity.
Qed.

(** Each method is safe to call with no lock held. *)
Lemma code_of_safe k (op : operation) : safe k 0 0 (code_of op).
Proof.
  destruct op as [key|key|key|key]; simpl;
    destruct (decide (key = k)); simpl; auto.
Qed.

Lemma occ_cons_eq k (l : list K) : occ k (k :: l) = S (occ k l).
Proof. simpl. destruct (decide (k = k)); [reflexivity | done]. Qed.

Lemma occ_cons_ne k key (l : list K) : key <> k -> occ k (key :: l) = occ k l.
Proof. intros Hne. simpl. destruct (decide (key = k)); [done | reflexivity]. Qed.

Lemma table_ok_same (entry : option Z) (R W rp wp : nat) :
  (rp <= R)%nat -> (wp <= W)%nat -> table_ok entry R W ->
  table_ok entry (R - rp + rp) (W - wp + wp).
Proof.
  intros HR HW Htab.
  replace (R - rp + rp)%nat with R by lia. replace (W - wp + wp)%nat with W by lia.
  exact Htab.
Qed.

Ltac process_ok_with r w :=
  exists r, w; cbn [pc generators reads writes];
  rewrite ?occ_cons_eq, ?occ_remove_one_eq;
  rewrite ?occ_cons_ne by done; rewrite ?occ_remove_one_ne by done;
  split; [|split; lia].

(** One move of one process keeps the process within its locks and the
    entry of [k] in step with the locks held, [R] and [W] being the locks
    that all processes hold on [k]; and the entry becomes [-1] only by a
    successful [_acquired_write_lock] on an idle key. *)
Lemma process_move_preserves k (m : move) d p d' p' (R W : nat) :
  process_move m d p = Some (d', p') ->
  process_ok k p ->
  (occ k (reads p) <= R)%nat ->
  (occ k (writes p) <= W)%nat ->
  table_ok (d !! k) R W ->
  process_ok k p'
  /\ table_ok (d' !! k) (R - occ k (reads p) + occ k (reads p'))
       (W - occ k (writes p) + occ k (writes p'))
  /\ (d' !! k = Some (-1) ->
      d !! k = Some (-1) \/
      ((d !! k = None \/ d !! k = Some 0) /\
       exists b next, m = Step b /\ pc p = AcquireWrite k next)).
Proof.
  intros Hmove (r & w & Hsafe & Hr & Hw) HR HW Htab.
  destruct p as [c gens rd wr]. cbn [pc generators reads writes] in *.
  destruct m as [op | b | key | key].
  - (* Call *)
    destruct c; try discriminate. injection Hmove as <- <-.
    cbn [pc generators reads writes].
    split; [process_ok_with 0%nat 0%nat; apply code_of_safe|].
    split; [apply table_ok_same; assumption | auto].
  - (* Step *)
    destruct c as [| key next | key next | key next | key next | key next | next | yes no
                   | key next]; cbn [process_move pc] in Hmove; try discriminate.
    + (* AcquireRead *)
      rewrite acquired_read_lock_spec in Hmove. cbn [safe] in Hsafe.
      destruct (decide (key = k)) as [->|Hne].
      * unfold table_ok in Htab.
        destruct (d !! k) as [v|] eqn:Ed; [destruct (0 <=? v) eqn:Ev|];
          injection Hmove as <- <-; cbn [pc generators reads writes].
        -- rewrite lookup_insert_eq, occ_cons_eq.
           split; [process_ok_with (S r) w; exact Hsafe|].
           split; [right; lia | intros [=]; lia].
        -- rewrite Ed.
           split; [process_ok_with r w; cbn [safe];
                   destruct (decide (k = k)); [exact Hsafe | done]|].
           split; [apply table_ok_same; assumption | auto].
        -- rewrite lookup_insert_eq, occ_cons_eq.
           split; [process_ok_with (S r) w; exact Hsafe|].
           split; [right; lia | intros [=]].
      * assert (Hd' : d' !! k = d !! k /\
                  (p' = mkProcess next gens (key :: rd) wr
                   \/ p' = mkProcess (AcquireRead key next) gens rd wr)).
        { destruct (d !! key) as [v|]; [destruct (0 <=? v)|];
            injection Hmove as <- <-; rewrite ?lookup_insert_ne by done; auto. }
        destruct Hd' as [-> [-> | ->]]; cbn [pc generators reads writes];
          rewrite ?occ_cons_ne by done.
        -- split; [process_ok_with r w; exact Hsafe|].
           split; [apply table_ok_same; assumption | auto].
        -- split; [process_ok_with r w; cbn [safe];
                   destruct (decide (key = k)); [done | exact Hsafe]|].
           split; [apply table_ok_same; assumption | auto].
    + (* ReleaseRead *)
      unfold _release_read_lock in Hmove. cbn [safe] in Hsafe.
      destruct (decide (key = k)) as [->|Hne].
      * destruct r as [|r']; [done|].
        unfold table_ok in Htab.
        destruct (d !! k) as [v|] eqn:Ed; [|lia].
        injection Hmove as <- <-. cbn [pc generators reads writes].
        rewrite lookup_insert_eq, occ_remove_one_eq.
        split; [process_ok_with r' w; exact Hsafe|].
        split; [right; lia | intros [=]; lia].
      * destruct (d !! key) as [v|]; injection Hmove as <- <-;
          cbn [pc generators reads writes];
          rewrite ?lookup_insert_ne by done; rewrite ?occ_remove_one_ne by done.
        -- split; [process_ok_with r w; exact Hsafe|].
           split; [apply table_ok_same; assumption | auto].
        -- split; [process_ok_with 0%nat 0%nat; exact I|].
           split; [apply table_ok_same; assumption | auto].
    + (* AcquireWrite *)
      rewrite acquired_write_lock_spec in Hmove. cbn [safe] in Hsafe.
      destruct (decide (key = k)) as [->|Hne].
      * unfold table_ok in Htab.
        destruct (d !! k) as [v|] eqn:Ed; [destruct (v =? 0) eqn:Ev|];
          injection Hmove as <- <-; cbn [pc generators reads writes].
        -- rewrite lookup_insert_eq, occ_cons_eq.
           split; [process_ok_with r (S w); exact Hsafe|].
           split; [left; lia|].
           intros _. right. split; [right; f_equal; lia | eauto].
        -- rewrite Ed.
           split; [process_ok_with r w; cbn [safe];
                   destruct (decide (k = k)); [exact Hsafe | done]|].
           split; [apply table_ok_same; assumption | auto].
        -- rewrite lookup_insert_eq, occ_cons_eq.
           split; [process_ok_with r (S w); exact Hsafe|].
           split; [left; lia|].
           intros _. right. split; [left; reflexivity | eauto].
      * assert (Hd' : d' !! k = d !! k /\
                  (p' = mkProcess next gens rd (key :: wr)
                   \/ p' = mkProcess (AcquireWrite key next) gens rd wr)).
        { destruct (d !! key) as [v|]; [destruct (v =? 0)|];
            injection Hmove as <- <-; rewrite ?lookup_insert_ne by done; auto. }
        destruct Hd' as [-> [-> | ->]]; cbn [pc generators reads writes];
          rewrite ?occ_cons_ne by done.
        -- split; [process_ok_with r w; exact Hsafe|].
           split; [apply table_ok_same; assumption | auto].
        -- split; [process_ok_with r w; cbn [safe];
                   destruct (decide (key = k)); [done | exact Hsafe]|].
           split; [apply table_ok_same; assumption | auto].
    + (* SwitchWriteToRead *)
      injection Hmove as <- <-. unfold _switch_write_to_read_lock.
      cbn [pc generators reads writes safe] in *.
      destruct (decide (key = k)) as [->|Hne].
      * destruct w as [|w']; [done|].
        unfold table_ok in Htab. rewrite lookup_insert_eq, occ_remove_one_eq, occ_cons_eq.
        destruct (d !! k) as [v|] eqn:Ed; [|lia].
        split; [process_ok_with (S r) w'; exact Hsafe|].
        split; [right; lia | intros [=]].
      * rewrite lookup_insert_ne by done.
        rewrite occ_remove_one_ne, occ_cons_ne by done.
        split; [process_ok_with r w; exact Hsafe|].
        split; [apply table_ok_same; assumption | auto].
    + (* ReleaseWrite *)
      injection Hmove as <- <-. unfold _release_write_lock.
      cbn [pc generators reads writes safe] in *.
      destruct (decide (key = k)) as [->|Hne].
      * destruct w as [|w']; [done|].
        unfold table_ok in Htab. rewrite lookup_insert_eq, occ_remove_one_eq.
        destruct (d !! k) as [v|] eqn:Ed; [|lia].
        split; [process_ok_with r w'; exact Hsafe|].
        split; [right; lia | intros [=]].
      * rewrite lookup_insert_ne by done. rewrite occ_remove_one_ne by done.
        split; [process_ok_with r w; exact Hsafe|].
        split; [apply table_ok_same; assumption | auto].
    + (* Wrapped *)
      injection Hmove as <- <-. cbn [pc generators reads writes safe] in *.
      split; [destruct b; [process_ok_with r w; exact Hsafe
                          | process_ok_with 0%nat 0%nat; exact I]|].
      split; [apply table_ok_same; assumption | auto].
    + (* Test *)
      injection Hmove as <- <-. cbn [pc generators reads writes safe] in *.
      split; [process_ok_with r w; destruct b; tauto|].
      split; [apply table_ok_same; assumption | auto].
    + (* Generator *)
      injection Hmove as <- <-. cbn [pc generators reads writes safe] in *.
      split; [|split; [apply table_ok_same; assumption | auto]].
      destruct (decide (key = k)) as [->|Hne].
      * destruct r as [|r']; [done|]. process_ok_with r' w; exact Hsafe.
      * process_ok_with r w; exact Hsafe.
  - (* Drain *)
    assert (Hdrain : (if bool_decide (key ∈ gens) then
                         match _release_read_lock d key with
                         | Ok d1 => Some (d1, mkProcess c (remove_one key gens)
                                                (remove_one key rd) wr)
                         | Raise _ => Some (d, mkProcess c (remove_one key gens) rd wr)
                         end
                       else None) = Some (d', p'))
      by (rewrite <- Hmove; destruct c; reflexivity).
    clear Hmove. destruct (bool_decide (key ∈ gens)) eqn:Hin; [|discriminate].
    apply bool_decide_eq_true in Hin. unfold _release_read_lock in Hdrain.
    destruct (decide (key = k)) as [->|Hne].
    + pose proof (occ_elem_of k gens Hin) as Hgen.
      unfold table_ok in Htab.
      destruct (d !! k) as [v|] eqn:Ed; [|lia].
      injection Hdrain as <- <-. cbn [pc generators reads writes].
      rewrite lookup_insert_eq, occ_remove_one_eq.
      split; [process_ok_with r w; exact Hsafe|].
      split; [right; lia | intros [=]; lia].
    + destruct (d !! key) as [v|]; injection Hdrain as <- <-;
        cbn [pc generators reads writes];
        rewrite ?lookup_insert_ne by done; rewrite ?occ_remove_one_ne by done.
      * split; [process_ok_with r w; exact Hsafe|].
        split; [apply table_ok_same; assumption | auto].
      * split; [process_ok_with r w; exact Hsafe|].
        split; [apply table_ok_same; assumption | auto].
  - (* DrainRaises *)
    assert (Hdrain : (if bool_decide (key ∈ gens)
                      then Some (d, mkProcess c (remove_one key gens) rd wr)
                      else None) = Some (d', p'))
      by (rewrite <- Hmove; destruct c; reflexivity).
    clear Hmove. destruct (bool_decide (key ∈ gens)); [|discriminate].
    injection Hdrain as <- <-. cbn [pc generators reads writes].
    split; [|split; [apply table_ok_same; assumption | auto]].
    destruct (decide (key = k)) as [->|Hne]; process_ok_with r w; exact Hsafe.
Qed.

Lemma system_move_unfold (i : nat) (m : move) s s' :
  system_move i m s = Some s' ->
  exists p d' p',
    processes s !! i = Some p /\ process_move m (dict s) p = Some (d', p')
    /\ s' = mkSystem d' (<[i := p']> (processes s)).
Proof.
  unfold system_move. intros Hmove.
  destruct (processes s !! i) as [p|] eqn:Hp; [|discriminate]. simpl in Hmove.
  destruct (process_move m (dict s) p) as [[d' p']|] eqn:Hpm; [|discriminate].
  simpl in Hmove. injection Hmove as <-. eauto 6.
Qed.

(** Every move keeps the invariant, and sets an entry to [-1] only from
    an idle entry. *)
Lemma system_move_preserves (i : nat) (m : move) s s' :
  system_move i m s = Some s' -> invariant s ->
  invariant s'
  /\ (forall k, dict s' !! k = Some (-1) ->
        dict s !! k = Some (-1) \/
        ((dict s !! k = None \/ dict s !! k = Some 0) /\ exists b, m = Step b)).
Proof.
  intros Hmove Hinv.
  destruct (system_move_unfold i m s s' Hmove) as (p & d' & p' & Hp & Hpm & ->).
  assert (Hk : forall k,
    process_ok k p'
    /\ table_ok (d' !! k) (readers k (mkSystem d' (<[i := p']> (processes s))))
         (writers k (mkSystem d' (<[i := p']> (processes s))))
    /\ (d' !! k = Some (-1) ->
        dict s !! k = Some (-1) \/
        ((dict s !! k = None \/ dict s !! k = Some 0) /\ exists b, m = Step b))).
  { intros k. destruct (Hinv k) as [Htab Hall].
    pose proof (total_lookup_le (fun q => occ k (reads q)) _ _ _ Hp) as HR.
    pose proof (total_lookup_le (fun q => occ k (writes q)) _ _ _ Hp) as HW.
    pose proof (total_insert (fun q => occ k (reads q)) _ _ _ p' Hp) as HR'.
    pose proof (total_insert (fun q => occ k (writes q)) _ _ _ p' Hp) as HW'.
    cbn beta in *.
    destruct (process_move_preserves k m (dict s) p d' p' (readers k s) (writers k s) Hpm)
      as (Hok & Ht & Hacq);
      [eapply Forall_lookup_1; eassumption | exact HR | exact HW | exact Htab |].
    split; [exact Hok|]. split.
    - unfold readers, writers in *. cbn [processes].
      replace (total (fun q => occ k (reads q)) (<[i := p']> (processes s)))
        with (total (fun q => occ k (reads q)) (processes s)
              - occ k (reads p) + occ k (reads p'))%nat by lia.
      replace (total (fun q => occ k (writes q)) (<[i := p']> (processes s)))
        with (total (fun q => occ k (writes q)) (processes s)
              - occ k (writes p) + occ k (writes p'))%nat by lia.
      exact Ht.
    - intros Hw. destruct (Hacq Hw) as [? | [? (b & ? & ? & _)]]; eauto. }
  split.
  - intros k. destruct (Hk k) as (Hok & Ht & _). split; [exact Ht|].
    cbn [processes]. apply Forall_insert; [apply Hinv | exact Hok].
  - intros k. apply Hk.
Qed.

Lemma initial_invariant (n : nat) : invariant (initial (K := K) n).
Proof.
  intros k. unfold initial, readers, writers. cbn [dict processes].
  rewrite lookup_empty.
  assert (Hzero : forall f, f (idle (K := K)) = 0%nat -> total f (replicate n idle) = 0%nat).
  { intros f Hf. induction n as [|n' IH]; simpl; [reflexivity | lia]. }
  split.
  - split; apply Hzero; reflexivity.
  - apply Forall_replicate. exists 0%nat, 0%nat. simpl. auto.
Qed.

Lemma run_invariant (schedule : list (nat * move)) s s' :
  run schedule s = Some s' -> invariant s -> invariant s'.
Proof.
  revert s. induction schedule as [|[i m] rest IH]; intros s Hrun Hinv; simpl in Hrun.
  - injection Hrun as <-. exact Hinv.
  - destruct (system_move i m s) as [s1|] eqn:Hm; [|discriminate]. simpl in Hrun.
    apply (IH s1 Hrun). eapply system_move_preserves; eassumption.
Qed.

(** C8: in every state that [n] processes reach from the empty table, by
    any schedule of calls of [get], [put], [rmv] and [get_put], steps of
    the methods and drains of the generators they returned, the entry of
    every key is absent or an integer [>= -1]; it counts the readers when
    it is [>= 0], with no writer, and is [-1] exactly when one writer and
    no reader hold the key; and a move makes it [-1] only as a successful
    [_acquired_write_lock], which succeeds exactly on an absent entry or 0. *)
Theorem C8_lock_table_invariant (n : nat) (schedule : list (nat * move)) s k :
  run schedule (initial n) = Some s ->
  (dict s !! k = None \/ exists v, dict s !! k = Some v /\ -1 <= v)
  /\ table_ok (dict s !! k) (readers k s) (writers k s)
  /\ (writers k s <= 1)%nat
  /\ (writers k s = 1%nat -> readers k s = 0%nat /\ dict s !! k = Some (-1))
  /\ (dict s !! k = Some (-1) -> writers k s = 1%nat /\ readers k s = 0%nat)
  /\ (forall v, dict s !! k = Some v -> 0 <= v ->
        Z.of_nat (readers k s) = v /\ writers k s = 0%nat)
  /\ (forall i m s', system_move i m s = Some s' ->
        dict s' !! k = Some (-1) -> dict s !! k <> Some (-1) ->
        (dict s !! k = None \/ dict s !! k = Some 0)
        /\ readers k s = 0%nat /\ writers k s = 0%nat /\ exists b, m = Step b)
  /\ (forall d key,
        snd (_acquired_write_lock d key) = true <-> (d !! key = None \/ d !! key = Some 0)).
Proof.
  intros Hrun.
  pose proof (run_invariant schedule _ _ Hrun (initial_invariant n)) as Hinv.
  destruct (Hinv k) as [Htab _]. unfold table_ok in Htab.
  split; [|split; [exact Htab|]].
  { destruct (dict s !! k) as [v|]; [right; exists v; split; [reflexivity | lia] | auto]. }
  split; [destruct (dict s !! k); lia|].
  split; [destruct (dict s !! k) as [v|]; intros Hw; [|lia];
          split; [lia | f_equal; lia]|].
  split; [intros Hd; rewrite Hd in Htab; lia|].
  split; [intros v Hd Hv; rewrite Hd in Htab; lia|].
  split.
  - intros i m s' Hmove Hw Hnot.
    destruct (system_move_preserves i m s s' Hmove Hinv) as [_ Hacq].
    destruct (Hacq k Hw) as [? | [Hidle Hstep]]; [done|].
    split; [exact Hidle|].
    destruct Hidle as [Hd | Hd]; rewrite Hd in Htab; (split; [lia|]; split; [lia | exact Hstep]).
  - intros d key. rewrite acquired_write_lock_spec.
    destruct (d !! key) as [v|]; [destruct (v =? 0) eqn:Ev|]; simpl.
    + split; [intros _; right; f_equal; lia | reflexivity].
    + split; [discriminate | intros [[=] | [=]]; lia].
    + split; [auto | reflexivity].
Qed.

End Locks.

(** The witness of C8: two processes and the key 7.  Process 0 calls
    [get_put], finds the key missing and acquires the write lock, while
    process 1 calls [get] and has to wait. *)
Lemma C8_two_processes_witness :
  exists s,
    run examples.writer_then_reader (initial 2) = Some s
    /\ dict s !! 7 = Some (-1)
    /\ (writers 7%Z s <= 1)%nat
    /\ (dict s !! 7 = Some (-1) -> writers 7%Z s = 1%nat /\ readers 7%Z s = 0%nat).
Proof.
  eexists. split; [vm_compute; reflexivity|]. split; [vm_compute; reflexivity|].
  match goal with
  | |- context [writers _ ?s] =>
      destruct (@C8_lock_table_invariant Z _ _ 2 examples.writer_then_reader s 7
                  ltac:(vm_compute; reflexivity)) as (_ & _ & Hw & _ & Hx & _)
  end.
  split; [exact Hw | exact Hx].
Defined.

End concurrent_cacher_facts.

(** ** coba/environments/simulated/synthetics.py *)

Module synthetics_facts.
Import coba_random synthetics random_facts.

(** *** Comparisons in binary64 *)

Lemma SFcompare_antisym (x y : spec_float) (c : comparison) :
  SFcompare x y = Some c -> SFcompare y x = Some (CompOpp c).
Proof.
  destruct x as [sx|sx| |sx mx ex], y as [sy|sy| |sy my ey]; simpl;
    try discriminate; try (intros [= <-]; try destruct sx; try destruct sy; reflexivity).
  intros [= <-]. f_equal.
  destruct sx, sy; try reflexivity.
  - rewrite (Z.compare_antisym ex ey). destruct (ex ?= ey); simpl; try reflexivity.
    rewrite (Pos.compare_cont_antisym mx my Eq). simpl.
    rewrite ?CompOpp_involutive. reflexivity.
  - rewrite (Z.compare_antisym ex ey). destruct (ex ?= ey); simpl; try reflexivity.
    rewrite (Pos.compare_cont_antisym mx my Eq). simpl.
    rewrite ?CompOpp_involutive. reflexivity.
Qed.

Lemma ltb_leb (x y : float) : PrimFloat.ltb x y = true -> PrimFloat.leb x y = true.
Proof.
  rewrite FloatAxioms.ltb_spec, FloatAxioms.leb_spec. unfold SFltb, SFleb.
  destruct (SFcompare (Prim2SF x) (Prim2SF y)) as [[| |]|]; congruence.
Qed.

Lemma ltb_flip (x y : float) : PrimFloat.ltb x y = true -> PrimFloat.ltb y x = false.
Proof.
  rewrite !FloatAxioms.ltb_spec. unfold SFltb.
  destruct (SFcompare (Prim2SF x) (Prim2SF y)) as [c|] eqn:E; [|discriminate].
  rewrite (SFcompare_antisym _ _ _ E). destruct c; simpl; congruence.
Qed.

Lemma leb_not_ltb_eqb (x y : float) :
  PrimFloat.leb x y = true -> PrimFloat.ltb x y = false ->
  PrimFloat.eqb x y = true /\ PrimFloat.eqb y x = true.
Proof.
  rewrite FloatAxioms.leb_spec, FloatAxioms.ltb_spec, !FloatAxioms.eqb_spec.
  unfold SFleb, SFltb, SFeqb.
  destruct (SFcompare (Prim2SF x) (Prim2SF y)) as [c|] eqn:E; [|discriminate].
  rewrite (SFcompare_antisym _ _ _ E). destruct c; simpl; split; congruence.
Qed.

Lemma leb_eqb_refl (x y : float) : PrimFloat.leb x y = true -> PrimFloat.eqb y y = true.
Proof.
  rewrite FloatAxioms.leb_spec, FloatAxioms.eqb_spec. unfold SFleb, SFeqb.
  destruct (Prim2SF x) as [sx|sx| |sx mx ex], (Prim2SF y) as [sy|sy| |sy my ey]; simpl;
    try discriminate; intros _; try (destruct sy; reflexivity).
  - rewrite Z.compare_refl, Pos.compare_cont_refl. destruct sy; reflexivity.
  - rewrite Z.compare_refl, Pos.compare_cont_refl. destruct sy; reflexivity.
  - rewrite Z.compare_refl, Pos.compare_cont_refl. destruct sy; reflexivity.
Qed.

Lemma leb_not_nan (x y : float) : PrimFloat.leb x y = true -> PrimFloat.is_nan y = false.
Proof.
  intros Hle. unfold PrimFloat.is_nan. rewrite (leb_eqb_refl _ _ Hle). reflexivity.
Qed.

Lemma zero_below_one_below (y : float) :
  PrimFloat.ltb 1 y = true -> PrimFloat.ltb 0 y = true.
Proof.
  rewrite !FloatAxioms.ltb_spec. unfold SFltb.
  change (Prim2SF 1) with (S754_finite false 4503599627370496 (-52)).
  change (Prim2SF 0) with (S754_zero false).
  destruct (Prim2SF y) as [sy|sy| |sy my ey]; simpl; try discriminate.
  - destruct sy; [discriminate | reflexivity].
  - destruct sy; [discriminate | reflexivity].
Qed.


(** [min(1, max(0, y))] on every binary64 value, the infinities and the
    NaNs among them: the result lies in [[0, 1]]; it is [y] when [y] does,
    [0] when [0 < y] is false ([y] is below zero, a zero or a NaN) and [1]
    when [y] is above one. *)
Lemma clamp_binary64 (y : float) :
  PrimFloat.leb 0 (@clamp float binary64 y) = true
  /\ PrimFloat.leb (@clamp float binary64 y) 1 = true
  /\ (PrimFloat.leb 0 y = true -> PrimFloat.leb y 1 = true ->
      PrimFloat.eqb (@clamp float binary64 y) y = true)
  /\ (PrimFloat.ltb 0 y = false -> @clamp float binary64 y = 0%float)
  /\ (PrimFloat.ltb 1 y = true -> @clamp float binary64 y = 1%float).
Proof.
  unfold clamp. cbn [f_ltb f_of_Z binary64].
  change (Z_to_float 0) with 0%float. change (Z_to_float 1) with 1%float.
  destruct (PrimFloat.ltb 0 y) eqn:E0.
  - destruct (PrimFloat.ltb y 1) eqn:E1; cbn iota.
    + split; [apply ltb_leb; exact E0|]. split; [apply ltb_leb; exact E1|].
      split; [intros H0 _; apply (leb_eqb_refl _ _ H0)|].
      split; [discriminate|]. intros H1. apply ltb_flip in H1. congruence.
    + split; [reflexivity|]. split; [reflexivity|].
      split; [intros _ H1; apply (leb_not_ltb_eqb y 1 H1 E1)|].
      split; [discriminate | reflexivity].
  - change (PrimFloat.ltb 0 1) with true. cbn iota.
    split; [reflexivity|]. split; [reflexivity|].
    split; [intros H0 _; apply (leb_not_ltb_eqb 0 y H0 E0)|].
    split; [reflexivity|]. intros H1. apply zero_below_one_below in H1. congruence.
Qed.

(** *** The weights in binary64 *)

Lemma CobaRandom_random_eq {F : Type} `{PyFloat F} (seed : Z) :
  CobaRandom_random seed = (f_div (f_of_Z (lcg seed)) (f_of_Z _m_minus_1), lcg seed).
Proof. reflexivity. Qed.







(** *** The weights in exact arithmetic *)

Open Scope Q_scope.










(** [min(1, max(0, y))] in exact arithmetic. *)
Lemma clamp_exact (y : Q) :
  0 <= @clamp Q exact y <= 1
  /\ (0 <= y <= 1 -> @clamp Q exact y == y)
  /\ (y <= 0 -> @clamp Q exact y == 0)
  /\ (1 <= y -> @clamp Q exact y == 1).
Proof.
  unfold clamp. cbn [f_ltb f_of_Z exact].
  change (inject_Z 0) with 0. change (inject_Z 1) with 1.
  destruct (Qle_bool y 0) eqn:E0; cbn [negb].
  - apply Qle_bool_iff in E0.
    replace (Qle_bool 1 0) with false by reflexivity. cbn [negb].
    repeat split; intros; lra.
  - assert (H0 : 0 < y).
    { apply Qnot_le_lt. intros Hle. apply Qle_bool_iff in Hle. congruence. }
    destruct (Qle_bool 1 y) eqn:E1; cbn [negb].
    + apply Qle_bool_iff in E1. repeat split; intros; lra.
    + assert (H1 : y < 1).
      { apply Qnot_le_lt. intros Hle. apply Qle_bool_iff in Hle. congruence. }
      repeat split; intros; lra.
Qed.

(** *** The reward in binary64 *)

(** The closure [reward] raises what the encoder raises, or the
    [ValueError] of [math.sqrt] on a noise variance below zero; otherwise
    it returns the clamp of the dot product plus the noise, and the next
    state of the generator. *)
Lemma reward_binary64 (encode : list float -> list float -> result (list float))
    (r_noise_var : float) (W : list float) (context : option (list float))
    (action : list float) (seed : Z) :
  @reward float binary64 encode math_sqrt r_noise_var W context action seed
  = match encode (match context with
                  | Some (x :: xs) => x :: xs
                  | _ => [1%float]
                  end) action with
    | Raise e => Raise e
    | Ok Fs =>
        if PrimFloat.ltb r_noise_var 0 then Raise (ValueError "math domain error")
        else Ok (@clamp float binary64
                   (@dot float binary64 W Fs
                    + (Z_to_float (lcg seed) / Z_to_float _m_minus_1 - 0.5)
                      * PrimFloat.sqrt 12 * PrimFloat.sqrt r_noise_var)%float,
                 lcg seed)
    end.
Proof.
  unfold reward. cbn [f_of_Z binary64].
  change (Z_to_float 1) with 1%float.
  destruct (encode _ action) as [Fs | e]; cbn [mbind result_bind]; [|reflexivity].
  rewrite CobaRandom_random_eq.
  change (math_sqrt (Z_to_float 12)) with (Ok (PrimFloat.sqrt 12) : result float).
  cbn [mbind result_bind]. unfold math_sqrt.
  destruct (PrimFloat.ltb r_noise_var 0); cbn [mbind result_bind]; reflexivity.
Qed.




End synthetics_facts.

(** ** coba/random.py: the period of the generator *)

Module generator_facts.
Import coba_random random_facts quantities.

Section Period.
Variables a c : Z.
Hypothesis Ha : a mod 4 = 1.
Hypothesis Hc : c mod 2 = 1.

Lemma geometric_closed (n : nat) : geometric a n * (a - 1) = a ^ Z.of_nat n - 1.
Proof.
  induction n as [|n IH]; [reflexivity|].
  rewrite Nat2Z.inj_succ, Z.pow_succ_r by lia. cbn [geometric]. nia.
Qed.

Lemma pow_mod_4 (n : nat) : (a ^ Z.of_nat n) mod 4 = 1.
Proof.
  induction n as [|n IH]; [reflexivity|].
  rewrite Nat2Z.inj_succ, Z.pow_succ_r by lia.
  rewrite Z.mul_mod by lia. rewrite Ha, IH. reflexivity.
Qed.

Lemma geometric_double (n : nat) :
  geometric a (n + n) = geometric a n * (a ^ Z.of_nat n + 1).
Proof.
  assert (Hne : a - 1 <> 0 \/ a = 1) by lia.
  destruct Hne as [Hne | ->].
  - apply (Z.mul_reg_r _ _ (a - 1) Hne).
    rewrite geometric_closed.
    replace (geometric a n * (a ^ Z.of_nat n + 1) * (a - 1))
      with (geometric a n * (a - 1) * (a ^ Z.of_nat n + 1)) by ring.
    rewrite geometric_closed. rewrite Nat2Z.inj_add, Z.pow_add_r by lia. ring.
  - rewrite Z.pow_1_l by lia.
    assert (Hg : forall k, geometric 1 k = Z.of_nat k).
    { induction k as [|k IH]; [reflexivity|]. cbn [geometric]. rewrite IH. lia. }
    rewrite !Hg. lia.
Qed.

Lemma geometric_succ_double_odd (n : nat) : geometric a (S (n + n)) mod 2 = 1.
Proof.
  cbn [geometric]. rewrite geometric_double.
  pose proof (pow_mod_4 n) as Hp.
  assert (Heven : (a ^ Z.of_nat n + 1) mod 2 = 0).
  { rewrite (Z.div_mod (a ^ Z.of_nat n) 4) by lia. rewrite Hp.
    replace (4 * (a ^ Z.of_nat n / 4) + 1 + 1) with (0 + (2 * (a ^ Z.of_nat n / 4) + 1) * 2) by ring.
    rewrite Z.mod_add by lia. reflexivity. }
  apply Z.mod_divide in Heven; [|lia]. destruct Heven as [q Hq]. rewrite Hq.
  replace (1 + a * (geometric a n * (q * 2))) with (1 + (a * geometric a n * q) * 2) by ring.
  rewrite Z.mod_add by lia. reflexivity.
Qed.

Lemma divide_pow2_odd (k x q : Z) : 0 <= k -> q mod 2 = 1 -> (2 ^ k | x * q) -> (2 ^ k | x).
Proof.
  intros Hk Hq. revert x. pattern k. apply natlike_ind; [| |exact Hk]; clear k Hk.
  - intros x _. apply Z.divide_1_l.
  - intros k Hk IH x [y Hy]. rewrite Z.pow_succ_r in Hy by exact Hk.
    assert (Hx : x mod 2 = 0).
    { assert (Hm : (x * q) mod 2 = 0).
      { rewrite Hy. replace (y * (2 * 2 ^ k)) with (y * 2 ^ k * 2) by ring.
        apply Z.mod_mul. lia. }
      rewrite Z.mul_mod, Hq in Hm by lia.
      pose proof (Z.mod_pos_bound x 2 ltac:(lia)) as Hb.
      assert (Hcases : x mod 2 = 0 \/ x mod 2 = 1) by lia.
      destruct Hcases as [H0 | H1]; [exact H0|]. rewrite H1 in Hm. discriminate Hm. }
    apply Z.mod_divide in Hx; [|lia]. destruct Hx as [x' ->].
    destruct (IH x') as [z Hz].
    + exists y. nia.
    + exists z. rewrite Z.pow_succ_r by exact Hk. rewrite Hz. ring.
Qed.

Lemma divide_pow2_odd_iff (k y : Z) : 0 <= k -> y mod 2 = 1 -> (2 ^ k | y) <-> k = 0.
Proof.
  intros Hk Hy. split.
  - intros [z Hz]. destruct (Z.eq_dec k 0) as [E | E]; [exact E|]. exfalso.
    replace k with (Z.succ (k - 1)) in Hz by lia. rewrite Z.pow_succ_r in Hz by lia.
    rewrite Hz in Hy. replace (z * (2 * 2 ^ (k - 1))) with (z * 2 ^ (k - 1) * 2) in Hy by ring.
    rewrite Z.mod_mul in Hy by lia. discriminate Hy.
  - intros ->. apply Z.divide_1_l.
Qed.

Lemma divide_pow2_double (k x : Z) : 0 < k -> (2 ^ k | 2 * x) <-> (2 ^ (k - 1) | x).
Proof.
  intros Hk. replace k with (Z.succ (k - 1)) at 1 by lia. rewrite Z.pow_succ_r by lia.
  split; intros [z Hz]; exists z; nia.
Qed.

(** The powers of two that divide [1 + a + ... + a^(n-1)] are those that
    divide [n]. *)
Lemma geometric_divide (p : positive) (k : Z) :
  0 <= k -> (2 ^ k | geometric a (Pos.to_nat p)) <-> (2 ^ k | Z.pos p).
Proof.
  revert k. induction p as [p IH | p IH |]; intros k Hk.
  - rewrite Pos2Nat.inj_xI.
    replace (S (2 * Pos.to_nat p)) with (S (Pos.to_nat p + Pos.to_nat p)) by lia.
    rewrite !divide_pow2_odd_iff; [tauto | exact Hk | | exact Hk |].
    + change (Z.pos p~1) with (2 * Z.pos p + 1). replace (2 * Z.pos p + 1) with (1 + Z.pos p * 2) by ring.
      rewrite Z.mod_add by lia. reflexivity.
    + apply geometric_succ_double_odd.
  - rewrite Pos2Nat.inj_xO.
    replace (2 * Pos.to_nat p)%nat with (Pos.to_nat p + Pos.to_nat p)%nat by lia.
    rewrite geometric_double.
    pose proof (pow_mod_4 (Pos.to_nat p)) as Hp.
    set (b := a ^ Z.of_nat (Pos.to_nat p)) in *.
    assert (Hb : b + 1 = 2 * (2 * (b / 4) + 1)).
    { rewrite (Z.div_mod b 4) at 1 by lia. rewrite Hp. ring. }
    assert (Hodd : (2 * (b / 4) + 1) mod 2 = 1).
    { replace (2 * (b / 4) + 1) with (1 + b / 4 * 2) by ring.
      rewrite Z.mod_add by lia. reflexivity. }
    rewrite Hb. change (Z.pos p~0) with (2 * Z.pos p).
    destruct (Z.eq_dec k 0) as [-> | Hk0].
    { split; intros _; apply Z.divide_1_l. }
    rewrite (divide_pow2_double k (Z.pos p)) by lia.
    rewrite <- (IH (k - 1)) by lia.
    rewrite <- (divide_pow2_double k (geometric a (Pos.to_nat p))) by lia.
    split.
    + intros Hd. apply (divide_pow2_odd k _ (2 * (b / 4) + 1) Hk Hodd).
      replace (2 * geometric a (Pos.to_nat p) * (2 * (b / 4) + 1))
        with (geometric a (Pos.to_nat p) * (2 * (2 * (b / 4) + 1))) by ring.
      exact Hd.
    + intros [z Hz]. exists (z * (2 * (b / 4) + 1)).
      replace (geometric a (Pos.to_nat p) * (2 * (2 * (b / 4) + 1)))
        with (2 * geometric a (Pos.to_nat p) * (2 * (b / 4) + 1)) by ring.
      rewrite Hz. ring.
  - change (Pos.to_nat 1) with 1%nat. cbn [geometric]. rewrite Z.mul_0_r. reflexivity.
Qed.

(** [n] turns of [x' = (a*x + c) mod m]. *)
Lemma iterate_closed (m : Z) (f : Z -> Z) (n : nat) (s : Z) :
  0 < m -> (forall x, f x = (a * x + c) mod m) ->
  (Nat.iter n f s) mod m = (a ^ Z.of_nat n * s + c * geometric a n) mod m.
Proof.
  intros Hm Hf. induction n as [|n IH].
  - cbn [Nat.iter geometric]. change (Z.of_nat 0) with 0. rewrite Z.pow_0_r.
    replace (1 * s + c * 0) with s by ring. reflexivity.
  - rewrite Nat.iter_succ. cbn [geometric]. rewrite Hf. rewrite Z.mod_mod by lia.
    rewrite Z.add_mod, Z.mul_mod, IH by lia.
    rewrite <- Z.mul_mod, <- Z.add_mod by lia.
    rewrite Nat2Z.inj_succ, Z.pow_succ_r by lia. f_equal. ring.
Qed.

(** The generator is back at [s] after [n > 0] turns exactly when [2^e]
    divides [n]. *)
Lemma iterate_returns (e : Z) (f : Z -> Z) (n : nat) (s : Z) :
  0 <= e -> (forall x, f x = (a * x + c) mod 2 ^ e) -> (0 < n)%nat ->
  (Nat.iter n f s) mod 2 ^ e = s mod 2 ^ e <-> (2 ^ e | Z.of_nat n).
Proof.
  intros He Hf Hn.
  assert (Hm : 0 < 2 ^ e) by (apply Z.pow_pos_nonneg; lia).
  rewrite (iterate_closed (2 ^ e) f n s Hm Hf).
  assert (Hdiff : a ^ Z.of_nat n * s + c * geometric a n - s
                  = geometric a n * ((a - 1) * s + c)).
  { pose proof (geometric_closed n). nia. }
  assert (Hodd : ((a - 1) * s + c) mod 2 = 1).
  { rewrite (Z.div_mod a 4), Ha by lia.
    replace ((4 * (a / 4) + 1 - 1) * s + c) with (c + 2 * (a / 4) * s * 2) by ring.
    rewrite Z.mod_add by lia. exact Hc. }
  replace (Z.of_nat n) with (Z.pos (Pos.of_nat n)) at 2 by lia.
  rewrite <- (geometric_divide (Pos.of_nat n) e He).
  rewrite Nat2Pos.id by lia.
  split.
  - intros Heq. apply (divide_pow2_odd e _ _ He Hodd). rewrite <- Hdiff.
    apply Z.mod_divide; [lia|].
    rewrite Zminus_mod, Heq, Z.sub_diag. apply Z.mod_0_l. lia.
  - intros [z Hz].
    replace (a ^ Z.of_nat n * s + c * geometric a n)
      with (s + z * ((a - 1) * s + c) * 2 ^ e) by nia.
    apply Z.mod_add. lia.
Qed.

End Period.

Lemma iter_next_nth (n : nat) (seed : Z) :
  snd (iter_next n seed) = Nat.iter n lcg seed
  /\ forall i, (i < n)%nat -> fst (iter_next n seed) !! i = Some (Nat.iter (S i) lcg seed).
Proof.
  revert seed. induction n as [|n IH]; intros seed.
  - split; [reflexivity | intros i Hi; lia].
  - cbn [iter_next]. destruct (IH (lcg seed)) as [Hsnd Hnth].
    destruct (iter_next n (lcg seed)) as [numbers seed'] eqn:E. cbn [fst snd] in *.
    split.
    + rewrite Hsnd. symmetry. apply Nat.iter_succ_r.
    + intros [|i] Hi; [reflexivity|]. cbn [lookup list_lookup].
      rewrite Hnth by lia. f_equal. symmetry. apply (Nat.iter_succ_r (S i)).
Qed.

Lemma iter_lcg_range (n : nat) (seed : Z) : (0 < n)%nat -> 0 <= Nat.iter n lcg seed < _m.
Proof.
  destruct n as [|n]; [lia|]. intros _. rewrite Nat.iter_succ.
  pose proof (lcg_range (Nat.iter n lcg seed)). unfold _m_minus_1 in *. lia.
Qed.

Lemma lcg_returns (n : nat) (s : Z) :
  (0 < n)%nat -> Nat.iter n lcg s = s mod _m <-> (_m | Z.of_nat n).
Proof.
  intros Hn.
  rewrite <- (iterate_returns _a _c ltac:(reflexivity) ltac:(reflexivity) 30 lcg n s
                ltac:(lia) lcg_mod Hn).
  change (2 ^ 30) with _m.
  rewrite (Z.mod_small (Nat.iter n lcg s)) by (apply iter_lcg_range; exact Hn).
  reflexivity.
Qed.


(** X1: [Random._next(n)] returns [n] numbers of [[0, m-1]], and the
    generator has the full period [m = 2^30] that the docstring of
    [Random.__init__] expects of its constants: after [n > 0] draws the
    state is back at the seed (taken modulo [m]) exactly when [m] divides
    [n], and no number comes twice among [m] draws or fewer. *)
Theorem X1_generator_has_full_period (n seed : Z) (numbers : list Z) (seed' : Z) :
  _next n seed = Ok (numbers, seed') ->
  (Z.of_nat (length numbers) = n /\ Forall (fun s => 0 <= s <= _m_minus_1) numbers)
  /\ (seed' = seed mod _m <-> (_m | n))
  /\ (n <= _m -> NoDup numbers).
Proof.
  unfold _next. destruct (n <=? 0) eqn:En; [discriminate|]. intros [= Hit].
  assert (Hn : (0 < Z.to_nat n)%nat) by lia.
  destruct (iter_next_nth (Z.to_nat n) seed) as [Hsnd Hnth].
  pose proof (iter_next_spec (Z.to_nat n) seed) as [Hlen Hrange].
  rewrite Hit in Hsnd, Hnth, Hlen, Hrange. cbn [fst snd] in *.
  split; [split; [lia | exact Hrange]|].
  split.
  - rewrite Hsnd, (lcg_returns _ _ Hn). rewrite Z2Nat.id by lia. reflexivity.
  - intros Hle. apply NoDup_alt. intros i j x Hi Hj.
    assert (Hi' : (i < Z.to_nat n)%nat) by (rewrite <- Hlen; eapply lookup_lt_Some; eauto).
    assert (Hj' : (j < Z.to_nat n)%nat) by (rewrite <- Hlen; eapply lookup_lt_Some; eauto).
    rewrite Hnth in Hi, Hj by assumption. injection Hi as Hi. injection Hj as Hj.
    assert (Hgen : forall i j, (i < j)%nat -> (j < Z.to_nat n)%nat ->
                     Nat.iter (S i) lcg seed = Nat.iter (S j) lcg seed -> False).
    { clear - Hle. intros i j Hij Hj Heq.
      replace (S j) with ((j - i) + S i)%nat in Heq by lia.
      rewrite Nat.iter_add in Heq.
      pose proof (iter_lcg_range (S i) seed ltac:(lia)) as Hr.
      symmetry in Heq. rewrite <- (Z.mod_small (Nat.iter (S i) lcg seed) _m) in Heq at 2 by exact Hr.
      apply lcg_returns in Heq; [|lia].
      apply Z.divide_pos_le in Heq; [|lia]. lia. }
    destruct (Nat.lt_trichotomy i j) as [Hlt | [Heq | Hgt]]; [|exact Heq|].
    + exfalso. apply (Hgen i j Hlt Hj'). rewrite !Nat.iter_succ. congruence.
    + exfalso. apply (Hgen j i Hgt Hi'). rewrite !Nat.iter_succ. congruence.
Qed.

(** The witness of X1: three draws from the seed 1. *)
Lemma X1_generator_witness :
  exists numbers seed',
    _next 3 1 = Ok (numbers, seed')
    /\ Z.of_nat (length numbers) = 3
    /\ (seed' = 1 mod _m <-> (_m | 3))
    /\ NoDup numbers.
Proof.
  eexists _, _. split; [vm_compute; reflexivity|].
  destruct (X1_generator_has_full_period 3 1 _ _ ltac:(vm_compute; reflexivity))
    as ([Hlen _] & Hp & Hd).
  split; [exact Hlen|]. split; [exact Hp | apply Hd; vm_compute; discriminate].
Defined.

End generator_facts.

(** ** coba/random.py: [choice] *)

Module choice_facts.
Import coba_random random_facts.

Section Floats.
Context {F : Type} `{PyFloatSigns F}.

Lemma randint_from_zero (b seed : Z) :
  0 <= b + 1 ->
  exists k, 0 <= k /\ randint 0 b seed = Ok (Z.min k (b - 1), lcg seed).
Proof.
  intros Hb. unfold randint. rewrite random_returns. cbn [mbind result_bind].
  eexists. split; [|rewrite Z.add_0_r; reflexivity].
  apply f_int_nonneg, f_mul_nonneg; [apply f_of_Z_nonneg; lia|].
  apply f_div_nonneg; [|reflexivity]. apply f_of_Z_nonneg, lcg_range.
Qed.

(** On values, in every arithmetic that obeys the sign rules. *)
Lemma choice_spec {A : Type} (x y : A) (rest : list A) (seed : Z) :
  (exists j z, choice (x :: y :: rest) seed = Ok (z, lcg seed)
     /\ (x :: y :: rest) !! j = Some z /\ (j < length (y :: rest))%nat)
  /\ choice [x] seed = Ok (x, lcg seed)
  /\ choice (@nil A) seed = Raise IndexError.
Proof.
  split; [|split].
  - unfold choice.
    destruct (randint_from_zero (Z.of_nat (length (x :: y :: rest)) - 1) seed)
      as (k & Hk & ->); [lia|].
    cbn [mbind result_bind].
    set (j := Z.min k (Z.of_nat (length (x :: y :: rest)) - 1 - 1)).
    assert (Hj : 0 <= j < Z.of_nat (length (y :: rest))).
    { subst j. cbn [length]. lia. }
    destruct (py_get_in_range (x :: y :: rest) j) as (z & -> & Hz).
    { cbn [length] in *. lia. }
    exists (Z.to_nat j), z. split; [reflexivity|]. split; [exact Hz | lia].
  - unfold choice.
    destruct (randint_from_zero (Z.of_nat (length [x]) - 1) seed) as (k & Hk & ->);
      [cbn [length]; lia|].
    cbn [mbind result_bind length].
    replace (Z.min k (Z.of_nat 1 - 1 - 1)) with (-1) by lia. reflexivity.
  - unfold choice.
    destruct (randint_from_zero (Z.of_nat (length (@nil A)) - 1) seed) as (k & Hk & ->);
      [cbn [length]; lia|].
    cbn [mbind result_bind length].
    replace (Z.min k (Z.of_nat 0 - 1 - 1)) with (-2) by lia. reflexivity.
Qed.

End Floats.

(** In binary64 the value [(b - a + 1) * random()] that [randint] hands to
    [int] is a number: [int] returns there, and [float_to_Z] is what it
    returns. *)
Lemma randint_index_is_finite (a b seed : Z) (u : float) (seed' : Z) :
  @random float binary64 seed = Ok (u, seed') ->
  isfinite (Prim2SF (Z_to_float (b - a + 1) * u)%float).
Proof.
  rewrite (random_returns (F := float)). intros [= <- <-].
  apply (small_isfinite (64 + 65 + 1)).
  rewrite mul_spec. apply SFmul_small; [apply Z_to_float_small | apply draw_small | lia ..].
Qed.

Lemma choice_index_is_finite {A : Type} (seq : list A) (seed : Z) (u : float) (seed' : Z) :
  @random float binary64 seed = Ok (u, seed') ->
  isfinite (Prim2SF (Z_to_float (Z.of_nat (length seq) - 1 - 0 + 1) * u)%float).
Proof. apply randint_index_is_finite. Qed.

(** X2: [choice(seq)] indexes [seq] with [randint(0, len(seq)-1)], whose
    clamp is [len(seq)-2]: on a sequence of two items or more it returns
    an item at an index below [len(seq)-1], never the last one; on one
    item the index is -1 and that item is returned; on the empty sequence
    the index is -2 and the subscript raises [IndexError].  This holds in
    binary64, the arithmetic that runs ([binary64_signs]), and in exact
    arithmetic ([exact_signs]); and in binary64 the value
    [(b - a + 1) * random()] that [randint(0, len(seq)-1)] hands to [int]
    is a number, not an infinity or a NaN, so that [int] returns. *)
Theorem X2_choice_never_takes_the_last :
  (forall (F : Type) (PF : PyFloat F) (FS : @PyFloatSigns F PF) (A : Type)
     (x y : A) (rest : list A) (seed : Z),
      (exists j z, choice (F := F) (x :: y :: rest) seed = Ok (z, lcg seed)
         /\ (x :: y :: rest) !! j = Some z /\ (j < length (y :: rest))%nat)
      /\ choice (F := F) [x] seed = Ok (x, lcg seed)
      /\ choice (F := F) (@nil A) seed = Raise IndexError)
  /\ (forall (A : Type) (seq : list A) (seed : Z) (u : float) (seed' : Z),
        @random float binary64 seed = Ok (u, seed') ->
        isfinite (Prim2SF (Z_to_float (Z.of_nat (length seq) - 1 - 0 + 1) * u)%float)).
Proof.
  split.
  - intros F PF FS A. apply choice_spec.
  - intros A. apply choice_index_is_finite.
Qed.

(** The witness of X2: binary64, three items, the seed 1. *)
Lemma X2_choice_witness :
  exists j z, @choice float binary64 _ [10; 20; 30] 1 = Ok (z, lcg 1)
    /\ [10; 20; 30] !! j = Some z /\ (j < 2)%nat.
Proof.
  destruct (proj1 X2_choice_never_takes_the_last float binary64 binary64_signs Z 10 20 [30] 1)
    as [Hc _].
  exact Hc.
Defined.

End choice_facts.

(** ** coba/benchmarks.py: the integer and the callable batch_size *)

Module policy_facts.
Import simulations benchmarks examples batch_facts quantities.

Lemma f_int_div_negative (n size : Z) :
  0 <= n -> size < 0 -> @f_int Q exact (f_div (f_of_Z n) (f_of_Z size)) <= 0.
Proof.
  intros Hn Hs. destruct size as [|p|p]; try lia.
  cbn [f_int f_div f_of_Z exact]. unfold Qtrunc, Qdiv, Qinv, inject_Z. cbn [Qnum Qden Qmult].
  destruct (0 <=? n * Z.neg 1) eqn:E.
  - assert (n = 0) by lia. subst n. reflexivity.
  - unfold Qceiling, Qfloor, Qopp. cbn [Qnum Qden Qmult].
    assert (0 <= - (n * Z.neg 1) / Z.pos (1 * p)); [|lia].
    apply Z.div_pos; lia.
Qed.

(** X3: the integer batch_size, in exact arithmetic and for
    [n_interactions >= 0]: the size 0 raises [ZeroDivisionError], a
    negative size gives no batch at all, and a positive size gives
    [floor(n/size)] batches of that size, so that the last [n mod size]
    interactions are in no batch. *)
Theorem X3_batch_size_int_drops_the_rest (size n : Z) :
  0 <= n ->
  (size = 0 -> @batch_sizes_int Q exact size n = Raise ZeroDivisionError)
  /\ (size < 0 -> @batch_sizes_int Q exact size n = Ok [])
  /\ (0 < size ->
      @batch_sizes_int Q exact size n = Ok (replicate (Z.to_nat (n / size)) size)
      /\ foldr Z.add 0 (replicate (Z.to_nat (n / size)) size) = n - n mod size).
Proof.
  intros Hn. unfold batch_sizes_int. split; [|split].
  - intros ->. reflexivity.
  - intros Hs. destruct (size =? 0) eqn:E0; [lia|].
    pose proof (f_int_div_negative n size Hn Hs) as Hle.
    replace (Z.to_nat _) with 0%nat by lia. reflexivity.
  - intros Hs. destruct (size =? 0) eqn:E0; [lia|].
    rewrite f_int_div_exact by lia. split; [reflexivity|].
    rewrite sum_replicate. pose proof (Z.div_mod n size ltac:(lia)).
    pose proof (Z.div_pos n size Hn Hs). rewrite Z2Nat.id by lia. lia.
Qed.

(** The witness of X3: ten interactions in batches of three. *)
Lemma X3_batch_size_int_witness :
  @batch_sizes_int Q exact 3 10 = Ok [3; 3; 3]
  /\ foldr Z.add 0 [3; 3; 3] = 10 - 10 mod 3.
Proof.
  destruct (X3_batch_size_int_drops_the_rest 3 10 ltac:(lia)) as (_ & _ & Hpos).
  exact (Hpos ltac:(lia)).
Defined.

Lemma sizes_from_succ (fn : Z -> Z) (i : Z) (k : nat) :
  sizes_from fn i (S k) = fn i :: sizes_from fn (i + 1) k.
Proof.
  unfold sizes_from. cbn [seq map]. rewrite Z.add_0_r. f_equal.
  rewrite <- seq_shift, map_map. apply map_ext. intros t. f_equal. lia.
Qed.

Lemma batch_sizes_while_spec (fn : Z -> Z) (fuel : nat) (i remaining : Z) (acc : list Z) :
  (forall t, i <= t -> 0 < fn t) -> Z.max remaining 0 < Z.of_nat fuel ->
  exists k,
    batch_sizes_while fuel fn i (fn i) remaining acc = Some (acc ++ sizes_from fn i k)
    /\ (0 < remaining -> foldr Z.add 0 (sizes_from fn i k) < remaining)
    /\ remaining <= foldr Z.add 0 (sizes_from fn i (S k))
    /\ (remaining <= 0 -> k = 0%nat).
Proof.
  intros Hfn. revert i remaining acc Hfn.
  induction fuel as [|fuel IH]; intros i remaining acc Hfn Hfuel.
  - lia.
  - rewrite batch_sizes_while_step. pose proof (Hfn i ltac:(lia)) as Hpos.
    destruct (fn i <? remaining) eqn:E.
    + apply Z.ltb_lt in E.
      destruct (IH (i + 1) (remaining - fn i) (acc ++ [fn i])) as (k & Hk & Hlt & Hge & _).
      * intros t Ht. apply Hfn. lia.
      * lia.
      * exists (S k). rewrite Hk, sizes_from_succ, <- app_assoc. cbn [app].
        split; [reflexivity|]. split; [|split].
        -- intros _. cbn [foldr]. specialize (Hlt ltac:(lia)). lia.
        -- rewrite sizes_from_succ. cbn [foldr]. lia.
        -- lia.
    + apply Z.ltb_ge in E. exists 0%nat. unfold sizes_from at 1. cbn [seq map].
      rewrite app_nil_r. split; [reflexivity|]. split; [|split].
      * intros Hr. unfold sizes_from. cbn. lia.
      * rewrite sizes_from_succ. unfold sizes_from. cbn. lia.
      * reflexivity.
Qed.


Lemma sizes_from_zero (fn : Z -> Z) (k : nat) :
  sizes_from fn 0 k = map fn (py_range (Z.of_nat k)).
Proof.
  unfold sizes_from, py_range. rewrite Nat2Z.id, map_map. reflexivity.
Qed.

(** X4: the callable batch_size, for a function with positive values: the
    [while] loop ends within [max(n, 0) + 1] turns, and the sizes returned
    are [fn(0), ..., fn(k-1)] for the one [k] with
    [fn(0) + ... + fn(k-1) < n <= fn(0) + ... + fn(k)]: the batches sum to
    strictly less than [n], so at least one interaction is in no batch. *)
Theorem X4_callable_policy_stays_below (fn : Z -> Z) (N : Z) (fuel : nat)
  (simulations : list Simulation) :
  (forall t, 0 <= t -> 0 < fn t) -> Z.max N 0 < Z.of_nat fuel ->
  exists k : nat,
    _batch_sizes fuel (mkBenchmark simulations None (Some (SizeFn fn))) N
    = Some (Ok (map fn (py_range (Z.of_nat k))))
    /\ (0 < N -> foldr Z.add 0 (map fn (py_range (Z.of_nat k))) < N)
    /\ N <= foldr Z.add 0 (map fn (py_range (Z.of_nat (S k))))
    /\ (N <= 0 -> k = 0%nat).
Proof.
  intros Hfn Hfuel.
  destruct (batch_sizes_while_spec fn fuel 0 N [] Hfn Hfuel) as (k & Hk & Hlt & Hge & Hz).
  exists k. rewrite !sizes_from_zero in *.
  unfold _batch_sizes, batch_sizes_callable. cbn [_batch_count _batch_size].
  rewrite Hk. split; [reflexivity|]. auto.
Qed.

(** The witness of X4: the sizes 1, 2, 3, ... on ten interactions. *)
Lemma X4_callable_policy_witness :
  exists k : nat,
    _batch_sizes 11 (mkBenchmark [] None (Some (SizeFn (fun i => i + 1)))) 10
    = Some (Ok (map (fun i => i + 1) (py_range (Z.of_nat k))))
    /\ (0 < 10 -> foldr Z.add 0 (map (fun i => i + 1) (py_range (Z.of_nat k))) < 10).
Proof.
  destruct (X4_callable_policy_stays_below (fun i => i + 1) 10 11 [] ltac:(intros; lia) ltac:(lia))
    as (k & Hk & Hlt & _).
  exists k. split; [exact Hk | exact Hlt].
Defined.

End policy_facts.

(** ** coba/benchmarks.py: one learner on a simulation that has [rewards] *)

Module single_learner_facts.
Import simulations benchmarks examples quantities evaluate_facts.

Lemma dependable_with_state (L : Learner) (s : l_state L) :
  dependable L -> dependable (with_state L s).
Proof. intros HL. exact HL. Qed.

Lemma choose_batch_dependable (L : Learner) (group : list Interaction) :
  dependable L -> Forall (fun i => actions i <> []) group ->
  exists s chosen,
    choose_batch L group = Ok (with_state L s, chosen) /\ length chosen = length group.
Proof.
  intros HL Hgroup. revert L HL.
  induction Hgroup as [|i group Hi _ IH]; intros L HL.
  - exists (l_self L), []. destruct L; split; reflexivity.
  - cbn [choose_batch]. unfold choose.
    destruct (proj1 HL (l_self L) (key i) (context i) (actions i) Hi)
      as (choice & s' & Hchoose & Hrange).
    rewrite Hchoose. cbn [mbind result_bind].
    destruct (py_get_in_range (actions i) choice Hrange) as (action & -> & _).
    cbn [mbind result_bind].
    destruct (IH (with_state L s') (dependable_with_state L s' HL)) as (s2 & chosen & -> & Hlen).
    cbn [mbind result_bind]. exists s2, ((key i, context i, choice, action) :: chosen).
    split; [reflexivity | cbn [length]; lia].
Qed.

Lemma learn_batch_dependable (L : Learner) (observed : list (Chosen * Reward)) :
  dependable L -> exists s, learn_batch L observed = Ok (with_state L s).
Proof.
  intros HL. revert L HL. induction observed as [|[[[[k c] ch] a] r] rest IH]; intros L HL.
  - exists (l_self L). destruct L; reflexivity.
  - cbn [learn_batch]. unfold learn.
    destruct (proj2 HL (l_self L) k c a r) as (s' & ->). cbn [mbind result_bind].
    destruct (IH (with_state L s') (dependable_with_state L s' HL)) as (s2 & ->).
    exists s2. reflexivity.
Qed.

Lemma length_from_observations (xs : list Reward) :
  stats_n (from_observations xs) = Z.of_nat (length xs).
Proof. reflexivity. Qed.

Lemma run_batch_dependable (o : OtherSim) (rewards : list (Key * Choice) -> result (list Reward))
  (info : SimInfo) (idx : Z) (L : Learner) (batch_group : Z * list Interaction) :
  o_rewards o = Some rewards -> aligned rewards -> dependable L ->
  Forall (fun i => actions i <> []) (snd batch_group) ->
  exists s r,
    run_batch (Other o) info idx L batch_group = Ok (with_state L s, r)
    /\ batch_index r = fst batch_group
    /\ simulation_index r = info_index info
    /\ interaction_count r = info_interaction_count info
    /\ stats_n (stats r) = Z.of_nat (length (snd batch_group)).
Proof.
  intros Ho Hrw HL Hgroup. unfold run_batch.
  destruct (choose_batch_dependable L _ HL Hgroup) as (s1 & chosen & -> & Hlen).
  cbn [mbind result_bind getattr_rewards]. rewrite Ho. cbn [call].
  destruct (Hrw (map (fun o : Chosen => let '(k, _, choice, _) := o in (k, choice)) chosen))
    as (rs & -> & Hrs).
  cbn [mbind result_bind].
  destruct (learn_batch_dependable (with_state L s1) (zip chosen rs)
              (dependable_with_state L s1 HL)) as (s2 & ->).
  cbn [mbind result_bind]. exists s2. eexists. split; [reflexivity|].
  cbn [batch_index simulation_index interaction_count stats].
  rewrite length_from_observations, Hrs, length_map, Hlen. auto.
Qed.

Lemma run_groups_dependable (o : OtherSim) (rewards : list (Key * Choice) -> result (list Reward))
  (info : SimInfo) (idx : Z) (L : Learner) (groups : list (Z * list Interaction)) :
  o_rewards o = Some rewards -> aligned rewards -> dependable L ->
  Forall (fun g => Forall (fun i => actions i <> []) (snd g)) groups ->
  exists rs,
    run_groups (Other o) info idx L groups = (rs, Ok tt)
    /\ map batch_index rs = map fst groups
    /\ map (fun r => stats_n (stats r)) rs = map (fun g => Z.of_nat (length (snd g))) groups
    /\ Forall (fun r => simulation_index r = info_index info
                        /\ interaction_count r = info_interaction_count info) rs.
Proof.
  intros Ho Hrw HL Hgroups. revert L HL.
  induction Hgroups as [|g groups Hg _ IH]; intros L HL.
  - exists []. repeat split; constructor.
  - cbn [run_groups].
    destruct (run_batch_dependable o rewards info idx L g Ho Hrw HL Hg)
      as (s & r & -> & Hb & Hs & Hc & Hn).
    destruct (IH (with_state L s) (dependable_with_state L s HL)) as (rs & -> & Hbs & Hns & Hall).
    exists (r :: rs). split; [reflexivity|]. cbn [map].
    rewrite Hb, Hbs, Hn, Hns. repeat split. constructor; auto.
Qed.

(** *** The groups of the first learner *)

Lemma zip_pull_zip {A : Type} (batch_indexes : list Z) (xs : list A) :
  fst (zip_pull batch_indexes xs) = zip batch_indexes xs.
Proof.
  revert xs. induction batch_indexes as [|b rest IH]; intros [|x xs]; try reflexivity.
  cbn [zip_pull]. specialize (IH xs). destruct (zip_pull rest xs) as [pairs unread].
  cbn [fst] in *. rewrite IH. reflexivity.
Qed.

Lemma zip_groupby_pull_zip {A : Type} (batch_indexes : list Z) (xs : list A) :
  fst (zip_groupby_pull batch_indexes xs) = zip batch_indexes xs.
Proof.
  unfold zip_groupby_pull. pose proof (zip_pull_zip batch_indexes xs) as Hz.
  destruct (zip_pull batch_indexes xs) as [pairs unread]. cbn [fst] in Hz. subst pairs.
  destruct (zip batch_indexes xs); reflexivity.
Qed.

Lemma groupby_head {A : Type} (b : Z) (x : A) (pairs : list (Z * A)) :
  exists xs groups, groupby ((b, x) :: pairs) = (b, x :: xs) :: groups.
Proof.
  cbn [groupby]. destruct (groupby pairs) as [|[b' xs] groups]; [eauto|].
  destruct (b =? b'); eauto.
Qed.

Lemma groupby_concat {A : Type} (pairs : list (Z * A)) :
  concat (map snd (groupby pairs)) = map snd pairs.
Proof.
  induction pairs as [|[b x] pairs IH]; [reflexivity|].
  cbn [groupby]. destruct (groupby pairs) as [|[b' xs] groups].
  - cbn in *. rewrite <- IH. reflexivity.
  - destruct (b =? b'); cbn in *; rewrite <- IH; reflexivity.
Qed.

(** A run of [s > 0] pairs with the index [b] before pairs that start with
    another index is one group. *)
Lemma groupby_run {A : Type} (b : Z) (chunk : list A) (pairs : list (Z * A)) :
  chunk <> [] ->
  match pairs with [] => True | (b', _) :: _ => b' <> b end ->
  groupby (zip (replicate (length chunk) b) chunk ++ pairs) = (b, chunk) :: groupby pairs.
Proof.
  intros Hne Hnext. induction chunk as [|x chunk IH]; [done|].
  destruct chunk as [|y chunk].
  - cbn [length replicate zip zip_with app groupby].
    destruct pairs as [|[b' x'] pairs]; [reflexivity|].
    destruct (groupby_head b' x' pairs) as (xs & groups & ->).
    destruct (b =? b') eqn:E; [lia | reflexivity].
  - specialize (IH ltac:(done)).
    change (zip (replicate (length (x :: y :: chunk)) b) (x :: y :: chunk) ++ pairs)
      with ((b, x) :: (zip (replicate (length (y :: chunk)) b) (y :: chunk) ++ pairs)).
    cbn [groupby]. rewrite IH. rewrite Z.eqb_refl. reflexivity.
Qed.

(** The indexes of [batch_indexes_of], from the batch [i0] on. *)
Lemma blocks_shift (i0 : nat) (s : Z) (sizes : list Z) :
  imap (fun i s => replicate (Z.to_nat s) (Z.of_nat (i0 + i))) (s :: sizes)
  = replicate (Z.to_nat s) (Z.of_nat i0)
    :: imap (fun i s => replicate (Z.to_nat s) (Z.of_nat (S i0 + i))) sizes.
Proof.
  cbn [imap]. rewrite Nat.add_0_r. f_equal. apply imap_ext. intros i x _. cbn.
  do 2 f_equal. lia.
Qed.

Lemma blocks_head (i0 : nat) (sizes : list Z) :
  Forall (fun s => 0 < s) sizes ->
  match concat (imap (fun i s => replicate (Z.to_nat s) (Z.of_nat (S i0 + i))) sizes) with
  | [] => True
  | b' :: _ => b' <> Z.of_nat i0
  end.
Proof.
  intros Hpos. destruct Hpos as [|s sizes Hs _]; [exact I|].
  rewrite blocks_shift. cbn [concat].
  destruct (Z.to_nat s) as [|n] eqn:E; [lia|]. cbn. lia.
Qed.

Lemma groups_of_blocks {A : Type} (sizes : list Z) (i0 : nat) (xs : list A) :
  Forall (fun s => 0 < s) sizes -> foldr Z.add 0 sizes <= Z.of_nat (length xs) ->
  let groups :=
    groupby (zip (concat (imap (fun i s => replicate (Z.to_nat s) (Z.of_nat (i0 + i))) sizes))
               xs) in
  map fst groups = map (fun i => Z.of_nat (i0 + i)) (seq 0 (length sizes))
  /\ map (fun g => Z.of_nat (length (snd g))) groups = sizes
  /\ concat (map snd groups) = take (Z.to_nat (foldr Z.add 0 sizes)) xs.
Proof.
  intros Hpos. revert i0 xs. induction Hpos as [|s sizes Hs Hpos IH]; intros i0 xs Hsum.
  - cbn. rewrite take_0. auto.
  - cbn [foldr] in Hsum.
    assert (Hrest : 0 <= foldr Z.add 0 sizes).
    { clear - Hpos. induction Hpos; cbn [foldr]; lia. }
    assert (Hlen : length (take (Z.to_nat s) xs) = Z.to_nat s) by (rewrite length_take; lia).
    assert (Hne : take (Z.to_nat s) xs <> []).
    { intros Hnil. rewrite Hnil in Hlen. cbn in Hlen. lia. }
    assert (Hg : groupby (zip (concat (imap (fun i s => replicate (Z.to_nat s) (Z.of_nat (i0 + i)))
                                         (s :: sizes))) xs)
                 = (Z.of_nat i0, take (Z.to_nat s) xs)
                   :: groupby (zip (concat (imap (fun i s => replicate (Z.to_nat s)
                                                               (Z.of_nat (S i0 + i))) sizes))
                                (drop (Z.to_nat s) xs))).
    { rewrite blocks_shift. cbn [concat].
      rewrite <- (take_drop (Z.to_nat s) xs) at 1.
      rewrite <- Hlen at 1.
      rewrite zip_with_app by (rewrite length_replicate; reflexivity).
      apply groupby_run; [exact Hne|].
      pose proof (blocks_head i0 sizes Hpos) as Hhead.
      destruct (concat _) as [|b' l]; [exact I|].
      destruct (drop (Z.to_nat s) xs) as [|y ys]; [exact I | exact Hhead]. }
    specialize (IH (S i0) (drop (Z.to_nat s) xs)).
    rewrite length_drop in IH. specialize (IH ltac:(lia)). cbn zeta in IH.
    destruct IH as (Hfst & Hsnd & Hcat).
    cbn zeta. rewrite Hg. cbn [map fst snd concat length seq].
    rewrite Hfst, Hsnd, Hcat, Hlen.
    split; [|split].
    + rewrite Nat.add_0_r. f_equal. rewrite <- seq_shift, map_map.
      apply map_ext. intros i. f_equal. lia.
    + f_equal. lia.
    + cbn [foldr]. rewrite take_take_drop, Z2Nat.inj_add by lia. reflexivity.
Qed.


Lemma Forall_groups {A : Type} (P : A -> Prop) (groups : list (Z * list A)) :
  Forall P (concat (map snd groups)) -> Forall (fun g => Forall P (snd g)) groups.
Proof.
  induction groups as [|g groups IH]; [constructor|].
  cbn [map concat]. rewrite Forall_app. intros [Hg Hrest]. constructor; auto.
Qed.

Section Floats.
Context {F : Type} `{PyFloat F}.

(** X5: one turn of the loop of [evaluate] with one learner factory, on a
    simulation that is not lazy, has interactions (each with an action),
    and a method [rewards] that returns one reward for each choice, with a
    learner whose [choose] returns an index of the actions and whose
    [learn] returns, and batch sizes that are positive and sum to no more
    than the number of interactions: no exception is logged, and one
    [Result] is appended for each batch, in order, with the batch indexes
    [0, 1, ...], each made from as many rewards as the batch has
    interactions, and with the index and the interaction count of the
    simulation. *)
Theorem X5_one_result_per_batch (fuel : nat) (self : UniversalBenchmark) (idx : Z)
  (o : OtherSim) (rewards : list (Key * Choice) -> result (list Reward)) (L : Learner)
  (items : list Interaction) (sizes : list Z) (results : list Result) (log : list exn) :
  o_is_lazy o = false -> o_interactions o = Ok items -> o_rewards o = Some rewards ->
  aligned rewards -> items <> [] -> Forall (fun i => actions i <> []) items ->
  dependable L ->
  _batch_sizes fuel self (Z.of_nat (length items)) = Some (Ok sizes) ->
  Forall (fun s => 0 < s) sizes -> foldr Z.add 0 sizes <= Z.of_nat (length items) ->
  exists rs,
    evaluate_simulation fuel self [Ok L] idx (Other o) results log
    = Some (results ++ rs, log, Ok tt)
    /\ map batch_index rs = py_range (Z.of_nat (length sizes))
    /\ map (fun r => stats_n (stats r)) rs = sizes
    /\ Forall (fun r => simulation_index r = idx
                        /\ interaction_count r = Z.of_nat (length items)) rs.
Proof.
  intros Hlazy Hitems Ho Hrw Hne Hact HL Hsizes Hpos Hsum.
  unfold evaluate_simulation, try_simulation, before_batches.
  cbn [is_LazySimulation interactions]. rewrite Hlazy, Hitems. cbn [mbind result_bind].
  destruct (median_nonempty (map feature_count items)) as (mf & ->).
  { destruct items; [done | discriminate]. }
  destruct (median_nonempty (map action_count items)) as (ma & ->).
  { destruct items; [done | discriminate]. }
  cbn [mbind result_bind info_interaction_count]. rewrite Hsizes.
  cbn [run_learners info_interactions].
  pose proof (zip_groupby_pull_zip (batch_indexes_of sizes) items) as Hzip.
  destruct (zip_groupby_pull (batch_indexes_of sizes) items) as [batched unread].
  cbn [fst] in Hzip. subst batched.
  destruct (groups_of_blocks sizes 0 items Hpos Hsum) as (Hfst & Hsnd & Hcat).
  cbn zeta in Hfst, Hsnd, Hcat.
  change (concat (imap (fun i s => replicate (Z.to_nat s) (Z.of_nat (0 + i))) sizes))
    with (batch_indexes_of sizes) in *.
  set (info := mkSimInfo idx items (Z.of_nat (length items)) mf ma).
  destruct (run_groups_dependable o rewards info 0 L
              (groupby (zip (batch_indexes_of sizes) items)) Ho Hrw HL)
    as (rs & -> & Hb & Hn & Hall).
  { apply Forall_groups. rewrite Hcat. apply Forall_take. exact Hact. }
  exists rs. cbn [option_bind mbind option_ret mret]. rewrite app_nil_r.
  split; [reflexivity|]. split; [|split].
  - rewrite Hb, Hfst. unfold py_range. rewrite Nat2Z.id. reflexivity.
  - rewrite Hn. exact Hsnd.
  - exact Hall.
Qed.

End Floats.

End single_learner_facts.

(** ** coba/benchmarks.py: what [evaluate] logs and what escapes it *)

Module evaluation_facts.
Import simulations benchmarks examples quantities evaluate_facts single_learner_facts.

Lemma steady_learner_dependable (name : string) (L : Learner) :
  steady_learner name = Ok L -> dependable L.
Proof.
  intros [= <-]. split.
  - intros s k c a Ha. exists 0, tt. split; [reflexivity|].
    destruct a; [done | cbn [length]; lia].
  - intros s k c a r. exists tt. reflexivity.
Qed.

(** The witness of X5: five interactions in the batches [[2, 3]]. *)
Lemma X5_one_result_per_batch_witness :
  exists L rs,
    steady_learner "A" = Ok L
    /\ @evaluate_simulation Q exact 0 (mkBenchmark [] None (Some (SizeSeq [2; 3])))
         [Ok L] 0 (rewarding_simulation 5) [] []
       = Some ([] ++ rs, [], Ok tt)
    /\ map batch_index rs = py_range 2
    /\ map (fun r => stats_n (stats r)) rs = [2; 3].
Proof.
  eexists. 
  destruct (@X5_one_result_per_batch Q exact 0 (mkBenchmark [] None (Some (SizeSeq [2; 3]))) 0
              (mkOtherSim false None None (Ok (some_interactions 5))
                 (Some (fun choices => Ok (map (fun c : Key * Choice => inject_Z (snd c)) choices))))
              (fun choices => Ok (map (fun c : Key * Choice => inject_Z (snd c)) choices))
              _ (some_interactions 5) [2; 3] [] []
              eq_refl eq_refl eq_refl
              (fun choices => ex_intro _ _ (conj eq_refl (length_map _ choices)))
              ltac:(discriminate)
              ltac:(repeat constructor; discriminate)
              (steady_learner_dependable "A" _ eq_refl)
              eq_refl
              ltac:(repeat constructor; lia)
              ltac:(vm_compute; discriminate))
    as (rs & Hev & Hb & Hn & _).
  exists rs. split; [reflexivity|]. split; [exact Hev|]. split; [exact Hb | exact Hn].
Defined.

Section Floats.
Context {F : Type} `{PyFloat F}.

(** X6: a simulation that is not lazy and has no interaction gives no
    [Result]: [statistics.median] raises [StatisticsError] on the empty
    list of feature counts, the handler logs it, and the loop goes on,
    whatever the batch policy and the learner factories. *)
Theorem X6_empty_simulation_is_logged (fuel : nat) (self : UniversalBenchmark)
  (learner_factories : list Factory) (idx : Z) (simulation : Simulation)
  (results : list Result) (log : list exn) :
  is_LazySimulation simulation = false -> interactions simulation = Ok [] ->
  evaluate_simulation fuel self learner_factories idx simulation results log
  = Some (results, log ++ [StatisticsError], Ok tt).
Proof.
  intros Hlazy Hitems. unfold evaluate_simulation, try_simulation, before_batches.
  rewrite Hlazy, Hitems. cbn. rewrite app_nil_r. reflexivity.
Qed.

Lemma try_simulation_fuel (fuel : nat) (self : UniversalBenchmark)
  (learner_factories : list Factory) (idx : Z) (simulation : Simulation) :
  try_simulation fuel self learner_factories idx simulation = None ->
  exists fn, _batch_count self = None /\ _batch_size self = Some (SizeFn fn).
Proof.
  unfold try_simulation, _batch_sizes.
  destruct (before_batches idx simulation) as [info|]; [|discriminate].
  destruct (_batch_count self) as [batch_count|].
  { destruct (batch_sizes_count batch_count _); discriminate. }
  destruct (_batch_size self) as [[size | sizes | fn]|]; try discriminate.
  - destruct (batch_sizes_int size _); discriminate.
  - eauto.
Qed.



Lemma evaluate_loop_lazy (fuel : nat) (self : UniversalBenchmark)
  (learner_factories : list Factory) (before : list Simulation) (inner : option Simulation)
  (after : list Simulation) (idx : Z) (results : list Result) (log : list exn) :
  Forall (fun s => is_LazySimulation s = false) before ->
  exists log',
    evaluate_loop fuel self learner_factories idx (before ++ LazySimulation inner :: after)
      results log
    = (log', Uncaught (AttributeError "unload"))
    \/ (evaluate_loop fuel self learner_factories idx (before ++ LazySimulation inner :: after)
          results log
        = (log', OutOfFuel)
        /\ exists fn, _batch_count self = None /\ _batch_size self = Some (SizeFn fn)).
Proof.
  intros Hbefore. revert idx results log.
  induction Hbefore as [|simulation before Hlazy _ IH]; intros idx results log.
  - exists (log ++ [AttributeError "load"]). left. reflexivity.
  - cbn [app evaluate_loop]. unfold evaluate_simulation. rewrite Hlazy.
    destruct (try_simulation fuel self learner_factories idx simulation)
      as [[rs out]|] eqn:Etry; cbn [mbind option_bind].
    + apply IH.
    + exists log. right. split; [reflexivity|]. eapply try_simulation_fuel. exact Etry.
Qed.

(** X8: [evaluate] calls [simulation.load()] inside the [try] and
    [simulation.unload()] after it, and the class [LazySimulation] of
    [coba.simulations] defines neither.  With such a simulation among
    those of the benchmark (the ones before it not lazy) the call of
    [unload] raises [AttributeError] outside every handler: [evaluate]
    does not return, and the results of the simulations before are lost. *)
Theorem X8_lazy_simulation_escapes (fuel : nat) (self : UniversalBenchmark)
  (learner_factories : list Factory) (before : list Simulation) (inner : option Simulation)
  (after : list Simulation) :
  _simulations self = before ++ LazySimulation inner :: after ->
  Forall (fun s => is_LazySimulation s = false) before ->
  exists log,
    evaluate fuel self learner_factories = (log, Uncaught (AttributeError "unload"))
    \/ (evaluate fuel self learner_factories = (log, OutOfFuel)
        /\ exists fn, _batch_count self = None /\ _batch_size self = Some (SizeFn fn)).
Proof.
  intros Hsims Hbefore. unfold evaluate. rewrite Hsims.
  apply evaluate_loop_lazy. exact Hbefore.
Qed.

End Floats.

(** The witness of X6: a [MemorySimulation] with no interaction. *)
Lemma X6_empty_simulation_witness :
  @evaluate_simulation Q exact 0 (mkBenchmark [] (Some 2) None) [steady_learner "A"] 0
    (memory_simulation 0) [] []
  = Some ([], [] ++ [StatisticsError], Ok tt).
Proof.
  exact (@X6_empty_simulation_is_logged Q exact 0 (mkBenchmark [] (Some 2) None)
           [steady_learner "A"] 0 (memory_simulation 0) [] [] eq_refl eq_refl).
Defined.


(** The witness of X8: a lazy simulation after one that is not. *)
Lemma X8_lazy_simulation_witness :
  exists log,
    @evaluate Q exact 0
      (mkBenchmark [rewarding_simulation 5; LazySimulation None] (Some 2) None)
      [steady_learner "A"] = (log, Uncaught (AttributeError "unload"))
    \/ (@evaluate Q exact 0
          (mkBenchmark [rewarding_simulation 5; LazySimulation None] (Some 2) None)
          [steady_learner "A"] = (log, OutOfFuel)
        /\ exists fn, Some 2 = None /\ @None BatchSize = Some (SizeFn fn)).
Proof.
  exact (@X8_lazy_simulation_escapes Q exact 0
           (mkBenchmark [rewarding_simulation 5; LazySimulation None] (Some 2) None)
           [steady_learner "A"] [rewarding_simulation 5] None [] eq_refl
           ltac:(repeat constructor)).
Defined.

End evaluation_facts.

(** ** coba/simulations.py: [MemorySimulation] *)

Module memory_simulation_facts.
Import simulations examples.

Lemma py_dict_list_to_map {K V : Type} `{Countable K} (pairs : list (K * V)) :
  py_dict pairs = list_to_map (reverse pairs).
Proof.
  unfold py_dict. induction pairs as [|kv pairs IH] using rev_ind; [reflexivity|].
  rewrite foldl_app, reverse_app. cbn [foldl reverse app]. rewrite IH.
  destruct kv as [k v]. reflexivity.
Qed.

Lemma py_dict_lookup {K V : Type} `{Countable K} (pairs : list (K * V)) (k : K) (v : V) :
  NoDup (map fst pairs) -> (k, v) ∈ pairs -> py_dict pairs !! k = Some v.
Proof.
  intros Hnd Hin. rewrite py_dict_list_to_map. apply elem_of_list_to_map_1.
  - change (map fst (reverse pairs)) with (fst <$> reverse pairs).
    rewrite fmap_reverse, reverse_Permutation. exact Hnd.
  - apply elem_of_reverse. exact Hin.
Qed.

Lemma elem_of_concat {A : Type} (x : A) (ls : list (list A)) :
  x ∈ concat ls <-> exists l, l ∈ ls /\ x ∈ l.
Proof.
  induction ls as [|l ls IH]; cbn [concat].
  - split; [intros Hx; inversion Hx | intros (l & Hl & _); inversion Hl].
  - rewrite elem_of_app, IH. split.
    + intros [Hx | (l' & Hl' & Hx)]; [exists l | exists l']; split; auto;
        apply elem_of_cons; auto.
    + intros (l' & Hl' & Hx). apply elem_of_cons in Hl' as [-> | Hl']; eauto.
Qed.

Lemma NoDup_py_range (n : Z) : NoDup (py_range n).
Proof.
  unfold py_range. apply (NoDup_fmap_2 Z.of_nat), NoDup_seq.
Qed.

Lemma NoDup_choices (interactions : list Interaction) :
  NoDup (map key interactions) -> NoDup (concat (map choices_of interactions)).
Proof.
  induction interactions as [|i rest IH]; cbn [map concat]; [constructor|].
  intros Hnd. apply NoDup_cons in Hnd as [Hi Hrest]. apply NoDup_app. split; [|split].
  - unfold choices_of.
    assert (Hinj : Inj (=) (=) (fun a : Z => (key i, a))) by (intros a b [=]; assumption).
    apply (NoDup_fmap_2 _), NoDup_py_range.
  - intros [k a] Hin Hin'. unfold choices_of in Hin.
    apply list_elem_of_fmap in Hin as (a' & [= -> ->] & _).
    apply elem_of_concat in Hin' as (l & Hl & Hin').
    apply list_elem_of_fmap in Hl as (i' & -> & Hi').
    unfold choices_of in Hin'. apply list_elem_of_fmap in Hin' as (a'' & [= Hk _] & _).
    apply Hi. rewrite Hk. apply list_elem_of_fmap. exists i'. split; [reflexivity | exact Hi'].
  - apply IH, Hrest.
Qed.

Lemma length_choices_of (i : Interaction) : length (choices_of i) = length (actions i).
Proof. unfold choices_of, py_range. rewrite !length_map, length_seq. lia. Qed.

Lemma zip_choices (interactions : list Interaction) (reward_sets : list (list Reward)) :
  Forall2 (fun i rs => length (actions i) = length rs) interactions reward_sets ->
  zip (concat (map choices_of interactions)) (concat reward_sets)
  = concat (zip_with (fun i rs => zip (choices_of i) rs) interactions reward_sets)
  /\ length (concat (map choices_of interactions)) = length (concat reward_sets).
Proof.
  induction 1 as [|i rs interactions reward_sets Hlen _ [IHzip IHlen]];
    [split; reflexivity|].
  cbn [map concat zip_with]. split.
  - rewrite zip_with_app by (rewrite length_choices_of; exact Hlen).
    fold (zip (concat (map choices_of interactions)) (concat reward_sets)).
    rewrite IHzip. reflexivity.
  - rewrite !length_app, length_choices_of, IHlen, Hlen. reflexivity.
Qed.

Lemma lookup_choices_of (i : Interaction) (a : nat) :
  (a < length (actions i))%nat -> choices_of i !! a = Some (key i, Z.of_nat a).
Proof.
  intros Ha. unfold choices_of, py_range. rewrite !list_lookup_fmap.
  rewrite lookup_seq_lt by lia. reflexivity.
Qed.

Lemma rewards_built (interactions : list Interaction) (reward_sets : list (list Reward))
  (n : nat) (i : Interaction) (rs : list Reward) (a : nat) (r : Reward) :
  NoDup (map key interactions) ->
  Forall2 (fun i rs => length (actions i) = length rs) interactions reward_sets ->
  interactions !! n = Some i -> reward_sets !! n = Some rs -> rs !! a = Some r ->
  py_dict (zip (concat (map choices_of interactions)) (concat reward_sets))
    !! (key i, Z.of_nat a) = Some r.
Proof.
  intros Hnd Hlens Hi Hrs Hr. destruct (zip_choices _ _ Hlens) as [Hzip Hlen].
  apply py_dict_lookup.
  - change (map fst ?l) with (fst <$> l). rewrite fst_zip by lia.
    apply NoDup_choices, Hnd.
  - rewrite Hzip. apply elem_of_concat. exists (zip (choices_of i) rs). split.
    + apply elem_of_lookup_zip_with. exists n, i, rs. auto.
    + apply elem_of_lookup_zip_with. exists a, (key i, Z.of_nat a), r.
      split; [reflexivity|]. split; [|exact Hr].
      apply lookup_choices_of.
      rewrite (Forall2_lookup_lr _ _ _ _ _ _ Hlens Hi Hrs).
      eapply lookup_lt_Some, Hr.
Qed.

Lemma lookup_rewards_Forall2 (rewards : gmap (Key * Choice) Reward)
  (choices : list (Key * Choice)) (expected : list Reward) :
  Forall2 (fun c r => rewards !! c = Some r) choices expected ->
  lookup_rewards rewards choices = Ok expected.
Proof.
  induction 1 as [|c r choices expected Hc _ IH]; [reflexivity|].
  cbn [lookup_rewards]. rewrite Hc, IH. reflexivity.
Qed.

(** X9: [MemorySimulation.__init__] pairs the choices
    [(key, 0), (key, 1), ...] of the interactions, in order, with the
    rewards of [reward_sets] chained, and makes a dictionary of the pairs.
    When the keys of the interactions are distinct and each reward set has
    one reward for each action of its interaction, the simulation built
    has the interactions given, and [reward] returns for every choice
    [(key, a)] the reward at index [a] of the reward set of the interaction
    with that key, in the order of the choices. *)
Theorem X9_memory_simulation_round_trip (interactions : list Interaction)
  (reward_sets : list (list Reward)) (choices : list (Key * Choice)) (expected : list Reward) :
  NoDup (map key interactions) ->
  Forall2 (fun i rs => length (actions i) = length rs) interactions reward_sets ->
  Forall2 (fun c r => exists n i rs a,
             interactions !! n = Some i /\ reward_sets !! n = Some rs
             /\ rs !! a = Some r /\ c = (key i, Z.of_nat a)) choices expected ->
  exists simulation,
    MemorySimulation_init interactions reward_sets = Ok simulation
    /\ simulations.interactions simulation = Ok interactions
    /\ reward simulation choices = Ok expected.
Proof.
  intros Hnd Hlens Hchoices. unfold MemorySimulation_init.
  rewrite (Forall2_length _ _ _ Hlens), Nat.eqb_refl. cbn [negb].
  eexists. split; [reflexivity|]. split; [reflexivity|].
  cbn [reward]. apply lookup_rewards_Forall2.
  eapply Forall2_impl; [exact Hchoices|].
  intros c r (n & i & rs & a & Hi & Hrs & Hr & ->).
  eapply rewards_built; eassumption.
Qed.

(** The witness of X9: two interactions of three actions each. *)
Lemma X9_memory_simulation_witness :
  exists simulation,
    MemorySimulation_init (some_interactions 2) [[1; 2; 3]; [4; 5; 6]]%Q = Ok simulation
    /\ interactions simulation = Ok (some_interactions 2)
    /\ reward simulation [(1, 2); (0, 0)] = Ok [6; 1]%Q.
Proof.
  apply X9_memory_simulation_round_trip.
  - apply (bool_decide_unpack _). vm_compute. exact I.
  - repeat constructor.
  - constructor; [|constructor; [|constructor]].
    + exists 1%nat, (mkInteraction (VInt 1) [VInt 0; VInt 1; VInt 2] 1), [4; 5; 6]%Q, 2%nat.
      repeat split; reflexivity.
    + exists 0%nat, (mkInteraction (VInt 0) [VInt 0; VInt 1; VInt 2] 0), [1; 2; 3]%Q, 0%nat.
      repeat split; reflexivity.
Defined.

End memory_simulation_facts.

(** ** coba/simulations.py: the filters [Take] and [Batch] *)

Module filter_facts.
Import simulations benchmarks examples batch_facts.

Lemma py_slice_from_zero {A : Type} (l : list A) (count : Z) :
  py_slice l 0 count
  = if count <? 0 then take (length l - Z.to_nat (- count)) l else take (Z.to_nat count) l.
Proof.
  unfold py_slice, py_slice_bound. change (0 <? 0) with false. cbn iota.
  replace (Z.to_nat (Z.min 0 (Z.of_nat (length l)))) with 0%nat by lia.
  rewrite drop_0, Nat.sub_0_r.
  destruct (count <? 0) eqn:E.
  - f_equal. lia.
  - destruct (decide (count <= Z.of_nat (length l))) as [Hle | Hgt].
    + f_equal. lia.
    + rewrite !take_ge by lia. reflexivity.
Qed.

Lemma py_slice_nonneg {A : Type} (l : list A) (a b : Z) :
  0 <= a <= b -> py_slice l a b = take (Z.to_nat b - Z.to_nat a) (drop (Z.to_nat a) l).
Proof.
  intros Hab. unfold py_slice, py_slice_bound.
  destruct (a <? 0) eqn:Ea; [lia|]. destruct (b <? 0) eqn:Eb; [lia|].
  destruct (decide (Z.of_nat (length l) <= a)) as [Hout | Hin].
  - rewrite !drop_ge by lia. rewrite !take_nil. reflexivity.
  - replace (Z.to_nat (Z.min a (Z.of_nat (length l)))) with (Z.to_nat a) by lia.
    destruct (decide (b <= Z.of_nat (length l))) as [Hle | Hgt].
    + f_equal. lia.
    + rewrite !take_ge by (rewrite length_drop; lia). reflexivity.
Qed.

(** *** X10 *)

(** X10.  [Take(count).filter] never fails on a simulation whose
    interactions can be read, and the simulation it returns answers
    [reward] as the original one does.  Its interactions are: all of them
    for [count = None]; none at all when [count] is larger than the number
    of interactions; the first [count] for [0 <= count <= len]; and for a
    negative [count] all but the last [-count]. *)
Theorem X10_take_keeps_a_prefix_or_nothing (count : option Z) (item : Simulation)
    (items : list Interaction) :
  interactions item = Ok items ->
  exists taken,
    Take_filter count item = Ok taken
    /\ interactions taken
       = Ok (match count with
             | None => items
             | Some c =>
                 if Z.of_nat (length items) <? c then []
                 else if c <? 0 then take (length items - Z.to_nat (- c)) items
                 else take (Z.to_nat c) items
             end)
    /\ (forall choices, reward taken choices = reward item choices).
Proof.
  intros Hitems. unfold Take_filter, TakeSimulation_init.
  destruct count as [c|]; rewrite Hitems; cbn [mbind result_bind].
  - destruct (Z.of_nat (length items) <? c) eqn:E; rewrite ?Hitems; cbn [mbind result_bind];
      eexists; (split; [reflexivity|]); (split; [|reflexivity]); cbn [interactions];
      rewrite py_slice_from_zero.
    + reflexivity.
    + reflexivity.
  - rewrite ?Hitems. cbn [mbind result_bind]. eexists. split; [reflexivity|].
    split; [|reflexivity]. cbn [interactions]. rewrite py_slice_from_zero.
    destruct (Z.ltb_spec (Z.of_nat (length items)) 0) as [Hneg | _]; [lia|].
    rewrite take_ge by lia. reflexivity.
Qed.

(** *** X11 *)

Lemma accumulate_head (total : Z) (batch_sizes : list Z) :
  exists rest, accumulate total batch_sizes = total :: rest.
Proof. destruct batch_sizes; cbn [accumulate]; eauto. Qed.

Lemma slices_accumulate_cons (items : list Interaction) (total s : Z) (rest : list Z) :
  slices items (accumulate total (s :: rest))
  = py_slice items total (total + s) :: slices items (accumulate (total + s) rest).
Proof.
  cbn [accumulate]. destruct (accumulate_head (total + s) rest) as (tl & ->). reflexivity.
Qed.

Lemma slices_accumulate_nil (items : list Interaction) (total : Z) :
  slices items (accumulate total []) = [].
Proof. reflexivity. Qed.

Lemma slices_concat (items : list Interaction) (sizes : list Z) (total : Z) :
  0 <= total -> Forall (fun s => 0 <= s) sizes ->
  concat (slices items (accumulate total sizes))
  = take (Z.to_nat (foldr Z.add 0 sizes)) (drop (Z.to_nat total) items).
Proof.
  revert total. induction sizes as [|s sizes IH]; intros total Ht Hs.
  - rewrite slices_accumulate_nil. cbn [concat foldr]. rewrite take_0. reflexivity.
  - apply Forall_cons in Hs as [Hs Hrest].
    pose proof (proj1 (Forall_forall _ _) Hrest) as Hall.
    assert (Hsum : 0 <= foldr Z.add 0 sizes).
    { clear -Hrest. induction Hrest; cbn [foldr]; lia. }
    rewrite slices_accumulate_cons. cbn [concat foldr].
    rewrite IH by (try lia; exact Hrest).
    rewrite py_slice_nonneg by lia.
    replace (Z.to_nat (total + s) - Z.to_nat total)%nat with (Z.to_nat s) by lia.
    replace (Z.to_nat (total + s)) with (Z.to_nat total + Z.to_nat s)%nat by lia.
    rewrite <- drop_drop, take_take_drop. f_equal. lia.
Qed.

Lemma slices_lengths (items : list Interaction) (sizes : list Z) (total : Z) :
  0 <= total -> Forall (fun s => 0 <= s) sizes ->
  total + foldr Z.add 0 sizes <= Z.of_nat (length items) ->
  map (fun g => Z.of_nat (length g)) (slices items (accumulate total sizes)) = sizes.
Proof.
  revert total. induction sizes as [|s sizes IH]; intros total Ht Hs Hfit.
  - reflexivity.
  - apply Forall_cons in Hs as [Hs Hrest].
    assert (Hsum : 0 <= foldr Z.add 0 sizes).
    { clear -Hrest. induction Hrest; cbn [foldr]; lia. }
    cbn [foldr] in Hfit.
    rewrite slices_accumulate_cons. cbn [map].
    rewrite IH by (try lia; exact Hrest).
    rewrite py_slice_nonneg by lia. rewrite length_take, length_drop. f_equal. lia.
Qed.

Lemma length_slices (items : list Interaction) (sizes : list Z) (total : Z) :
  length (slices items (accumulate total sizes)) = length sizes.
Proof.
  revert total. induction sizes as [|s sizes IH]; intros total; [reflexivity|].
  rewrite slices_accumulate_cons. cbn [length]. rewrite IH. reflexivity.
Qed.

(** [filter(None, batch_sizes)] on a list of integers. *)
Lemma filter_None_sizes (sizes : list Z) :
  omap (fun s : option Z => match s with
                            | Some z => if z =? 0 then None else Some z
                            | None => None
                            end) (map Some sizes)
  = filter (fun s => s <> 0) sizes.
Proof.
  induction sizes as [|s sizes IH]; [reflexivity|].
  rewrite filter_cons, <- IH. cbn.
  destruct (Z.eqb_spec s 0) as [Hz | Hnz]; destruct (decide (s <> 0)) as [Hd | Hd];
    try reflexivity; contradiction.
Qed.

Lemma sum_filter_nonzero (sizes : list Z) :
  foldr Z.add 0 (filter (fun s => s <> 0) sizes) = foldr Z.add 0 sizes.
Proof.
  induction sizes as [|s sizes IH]; [reflexivity|].
  destruct (decide (s = 0)) as [-> | Hne].
  - rewrite filter_cons_False by lia. cbn [foldr]. lia.
  - rewrite filter_cons_True by lia. cbn [foldr]. lia.
Qed.

Lemma Forall_filter_nonzero (P : Z -> Prop) (sizes : list Z) :
  Forall P sizes -> Forall P (filter (fun s => s <> 0) sizes).
Proof.
  intros Hall. apply Forall_forall. intros x Hx.
  apply list_elem_of_filter in Hx as [_ Hx].
  exact (proj1 (Forall_forall _ _) Hall x Hx).
Qed.

Lemma batched_init_spec (simulation : Simulation) (items : list Interaction)
    (sizes : list Z) :
  interactions simulation = Ok items ->
  BatchedSimulation_init simulation (map Some sizes)
  = Ok (mkBatched simulation
          (slices items (accumulate 0 (filter (fun s => s <> 0) sizes)))).
Proof.
  intros Hitems. unfold BatchedSimulation_init. rewrite filter_None_sizes.
  destruct (filter (fun s => s <> 0) sizes) as [|s rest] eqn:E; [reflexivity|].
  rewrite Hitems. reflexivity.
Qed.

(** X11.  [BatchedSimulation(simulation, batch_sizes)] with sizes that are
    not negative cuts consecutive batches off the front of the
    interactions: put end to end the batches are the first [sum(sizes)]
    interactions, in order.  There is one batch for every size that is not
    0, and when the sizes do not ask for more interactions than there are,
    the batches have exactly these sizes. *)
Theorem X11_batches_are_consecutive (simulation : Simulation) (items : list Interaction)
    (sizes : list Z) :
  interactions simulation = Ok items ->
  Forall (fun s => 0 <= s) sizes ->
  exists batched,
    BatchedSimulation_init simulation (map Some sizes) = Ok batched
    /\ concat (_batches batched) = take (Z.to_nat (foldr Z.add 0 sizes)) items
    /\ length (_batches batched) = length (filter (fun s => s <> 0) sizes)
    /\ (foldr Z.add 0 sizes <= Z.of_nat (length items) ->
        map (fun g => Z.of_nat (length g)) (_batches batched)
        = filter (fun s => s <> 0) sizes)
    /\ (forall choices, Batched_reward batched choices = reward simulation choices).
Proof.
  intros Hitems Hs. eexists. split; [apply batched_init_spec; exact Hitems|].
  cbn [_batches b_simulation]. split; [|split; [|split]].
  - rewrite slices_concat by (try lia; apply Forall_filter_nonzero; exact Hs).
    rewrite sum_filter_nonzero, drop_0. reflexivity.
  - apply length_slices.
  - intros Hfit. apply slices_lengths; [lia | apply Forall_filter_nonzero; exact Hs |].
    rewrite sum_filter_nonzero. lia.
  - reflexivity.
Qed.

(** *** X12 *)

(** In exact arithmetic the loop of [Batch.filter] increments the same
    indexes as the loop of [_batch_sizes]. *)
Lemma Batch_spread_spread (indexes : list Z) (r : Z) (sizes : list Z) :
  0 < r -> (forall i, i ∈ indexes -> 0 <= i) ->
  @Batch_spread Q exact indexes r sizes
  = @spread Q exact indexes (f_div (f_of_Z (Z.of_nat (length sizes))) (f_of_Z r)) sizes.
Proof.
  intros Hr. revert sizes. induction indexes as [|i rest IH]; intros sizes Hidx; [reflexivity|].
  cbn [Batch_spread spread].
  assert (Hi : 0 <= i) by (apply Hidx; left).
  rewrite f_int_div_exact by lia. rewrite f_int_mul_div_exact by lia.
  unfold py_incr.
  destruct (py_get sizes (i * Z.of_nat (length sizes) / r)) as [x|e]; [|reflexivity].
  cbn [mbind result_bind].
  destruct (py_index (length sizes) (i * Z.of_nat (length sizes) / r)) as [k|]; [|reflexivity].
  cbn [mbind result_bind]. rewrite IH by (intros j Hj; apply Hidx; right; exact Hj).
  rewrite length_insert. reflexivity.
Qed.

Lemma Batch_filter_sizes_exact (K N : Z) :
  0 <= N -> 1 <= K -> @Batch_filter_sizes Q exact K N = @batch_sizes_count Q exact K N.
Proof.
  intros HN HK. unfold Batch_filter_sizes, batch_sizes_count.
  destruct (K =? 0) eqn:EK; [lia|].
  rewrite f_int_div_exact by lia. rewrite sum_replicate.
  replace (N - Z.of_nat (Z.to_nat K) * (N / K)) with (N mod K)
    by (rewrite Z2Nat.id by lia; pose proof (Z.div_mod N K ltac:(lia)); lia).
  pose proof (Z.mod_pos_bound N K ltac:(lia)) as Hmod.
  destruct (0 <? N mod K) eqn:Er.
  - rewrite Batch_spread_spread.
    + rewrite length_replicate, Z2Nat.id by lia. reflexivity.
    + lia.
    + intros i Hi. apply elem_of_py_range in Hi. lia.
  - replace (N mod K) with 0 by lia. reflexivity.
Qed.

Lemma count_small_sizes (sizes : list Z) :
  Forall (fun s => s = 0 \/ s = 1) sizes ->
  Z.of_nat (length (filter (fun s => s <> 0) sizes)) = foldr Z.add 0 sizes.
Proof.
  induction 1 as [|s sizes [-> | ->] _ IH]; [reflexivity| |].
  - rewrite filter_cons_False by lia. cbn [foldr]. lia.
  - rewrite filter_cons_True by lia. cbn [foldr length]. lia.
Qed.

Lemma filter_nonzero_all (sizes : list Z) :
  Forall (fun s => 1 <= s) sizes -> filter (fun s => s <> 0) sizes = sizes.
Proof.
  induction 1 as [|s sizes Hs _ IH]; [reflexivity|].
  rewrite filter_cons_True by lia. rewrite IH. reflexivity.
Qed.

(** X12.  In exact arithmetic [Batch(count=K).filter], for [K >= 1], loses
    no interaction and keeps their order: put end to end the batches are
    all the interactions.  There are [min(K, n)] batches (sizes of 0 give
    no batch), none is empty, and each has [floor(n/K)] interactions or one
    more. *)
Theorem X12_batch_count_covers_everything (K : Z) (item : Simulation)
    (items : list Interaction) :
  interactions item = Ok items ->
  1 <= K ->
  exists batched,
    @Batch_filter Q exact (Some K) None None item = Ok batched
    /\ concat (_batches batched) = items
    /\ Z.of_nat (length (_batches batched)) = Z.min K (Z.of_nat (length items))
    /\ Forall (fun g => g <> []
                 /\ (Z.of_nat (length g) = Z.of_nat (length items) / K
                     \/ Z.of_nat (length g) = Z.of_nat (length items) / K + 1))
         (_batches batched).
Proof.
  intros Hitems HK. set (N := Z.of_nat (length items)).
  destruct (batch_count_exact N K ltac:(lia) HK)
    as (sizes & Hsizes & Hlen & Hsum & _ & _ & Hat).
  assert (Hall : Forall (fun s => s = N / K \/ s = N / K + 1) sizes).
  { apply Forall_lookup. intros j s Hj.
    assert (Hjlt : (j < length sizes)%nat) by (apply lookup_lt_Some in Hj; exact Hj).
    specialize (Hat (Z.of_nat j) ltac:(lia)). rewrite Nat2Z.id, Hj in Hat.
    injection Hat as ->. destruct (bool_decide _); auto. }
  assert (Hdiv : 0 <= N / K) by (apply Z.div_pos; lia).
  assert (Hnn : Forall (fun s => 0 <= s) sizes).
  { eapply Forall_impl; [exact Hall|]. cbn beta. intros s [-> | ->]; lia. }
  unfold Batch_filter. rewrite Hitems. cbn [mbind result_bind].
  fold N. rewrite Batch_filter_sizes_exact, Hsizes by lia. cbn [mbind result_bind].
  rewrite (batched_init_spec item items sizes Hitems).
  eexists. split; [reflexivity|]. cbn [_batches].
  assert (Hfnn : Forall (fun s => 0 <= s) (filter (fun s => s <> 0) sizes))
    by (apply Forall_filter_nonzero; exact Hnn).
  assert (Hlens : map (fun g => Z.of_nat (length g))
                    (slices items (accumulate 0 (filter (fun s => s <> 0) sizes)))
                  = filter (fun s => s <> 0) sizes).
  { apply slices_lengths; [lia | exact Hfnn | rewrite sum_filter_nonzero; fold N; lia]. }
  split; [|split].
  - rewrite slices_concat by (try lia; exact Hfnn).
    rewrite sum_filter_nonzero, Hsum, drop_0. apply take_ge. unfold N. lia.
  - rewrite length_slices.
    destruct (decide (K <= N)) as [Hle | Hgt].
    + rewrite filter_nonzero_all.
      * lia.
      * assert (1 <= N / K) by (apply Z.div_le_lower_bound; lia).
        eapply Forall_impl; [exact Hall|]. cbn beta. intros s [-> | ->]; lia.
    + assert (HNK : N / K = 0) by (apply Z.div_small; lia).
      rewrite count_small_sizes; [lia|].
      eapply Forall_impl; [exact Hall|]. cbn beta. rewrite HNK. intros s [-> | ->]; auto.
  - apply Forall_lookup. intros j g Hg.
    assert (Hs : filter (fun s => s <> 0) sizes !! j = Some (Z.of_nat (length g))).
    { rewrite <- Hlens. rewrite list_lookup_fmap, Hg. reflexivity. }
    apply list_elem_of_lookup_2, list_elem_of_filter in Hs as [Hne Hin].
    split.
    + intros ->. apply Hne. reflexivity.
    + exact (proj1 (Forall_forall _ _) Hall _ Hin).
Qed.

(** *** X13 *)

(** X13.  In exact arithmetic [Batch(size=s).filter], for [s >= 1], gives
    [floor(n/s)] batches of exactly [s] interactions each, in order from
    the front; the last [n mod s] interactions are in no batch. *)
Theorem X13_batch_size_drops_the_rest (size : Z) (item : Simulation)
    (items : list Interaction) :
  interactions item = Ok items ->
  1 <= size ->
  exists batched,
    @Batch_filter Q exact None (Some size) None item = Ok batched
    /\ map (fun g => Z.of_nat (length g)) (_batches batched)
       = replicate (Z.to_nat (Z.of_nat (length items) / size)) size
    /\ concat (_batches batched)
       = take (length items - Z.to_nat (Z.of_nat (length items) mod size)) items.
Proof.
  intros Hitems Hsize. set (N := Z.of_nat (length items)).
  assert (Hdiv : 0 <= N / size) by (apply Z.div_pos; lia).
  pose proof (Z.div_mod N size ltac:(lia)) as Hdm.
  pose proof (Z.mod_pos_bound N size ltac:(lia)) as Hmod.
  unfold Batch_filter. cbn [mbind result_bind]. rewrite Hitems. cbn [mbind result_bind].
  destruct (size =? 0) eqn:E; [lia|]. cbn [mbind result_bind].
  fold N. rewrite f_int_div_exact by lia.
  rewrite (batched_init_spec item items _ Hitems).
  assert (Hpos : Forall (fun s => 1 <= s) (replicate (Z.to_nat (N / size)) size)).
  { apply Forall_replicate. lia. }
  rewrite filter_nonzero_all by exact Hpos.
  assert (Hnn : Forall (fun s => 0 <= s) (replicate (Z.to_nat (N / size)) size)).
  { apply Forall_replicate. lia. }
  eexists. split; [reflexivity|]. cbn [_batches]. split.
  - apply slices_lengths; [lia | exact Hnn |]. rewrite sum_replicate. fold N. nia.
  - rewrite slices_concat by (try lia; exact Hnn). rewrite sum_replicate, drop_0.
    f_equal. unfold N in *. nia.
Qed.

(** *** Witnesses *)

Lemma X10_take_witness :
  exists taken,
    Take_filter (Some 5) (memory_simulation 3) = Ok taken
    /\ interactions taken = Ok []
    /\ (forall choices, reward taken choices = reward (memory_simulation 3) choices).
Proof.
  exact (X10_take_keeps_a_prefix_or_nothing (Some 5) (memory_simulation 3) _ eq_refl).
Defined.

Lemma X11_batches_witness :
  exists batched,
    BatchedSimulation_init (memory_simulation 4) (map Some [2; 0; 1]) = Ok batched
    /\ concat (_batches batched) = take 3 (some_interactions 4)
    /\ length (_batches batched) = 2%nat.
Proof.
  destruct (X11_batches_are_consecutive (memory_simulation 4) (some_interactions 4) [2; 0; 1]
              eq_refl) as (batched & Hinit & Hconcat & Hlen & _).
  - repeat constructor; lia.
  - exists batched. split; [exact Hinit|]. split; [exact Hconcat | exact Hlen].
Defined.

Lemma X12_batch_count_witness :
  exists batched,
    @Batch_filter Q exact (Some 2) None None (memory_simulation 5) = Ok batched
    /\ concat (_batches batched) = some_interactions 5
    /\ Z.of_nat (length (_batches batched)) = 2.
Proof.
  destruct (X12_batch_count_covers_everything 2 (memory_simulation 5) (some_interactions 5)
              eq_refl) as (batched & Hfilter & Hconcat & Hlen & _).
  - lia.
  - exists batched. split; [exact Hfilter|]. split; [exact Hconcat | exact Hlen].
Defined.

Lemma X13_batch_size_witness :
  exists batched,
    @Batch_filter Q exact None (Some 2) None (memory_simulation 5) = Ok batched
    /\ map (fun g => Z.of_nat (length g)) (_batches batched) = [2; 2]
    /\ concat (_batches batched) = take 4 (some_interactions 5).
Proof.
  destruct (X13_batch_size_drops_the_rest 2 (memory_simulation 5) (some_interactions 5)
              eq_refl) as (batched & Hfilter & Hlens & Hconcat).
  - lia.
  - exists batched. split; [exact Hfilter|]. split; [exact Hlens | exact Hconcat].
Defined.

End filter_facts.

(** ** coba/contexts/cachers.py: [MemoryCacher] and [DiskCacher] *)

Module memory_cacher_facts.
Import cachers cachers.memory_cacher.

Section Laws.
Context {K V : Type} `{Countable K}.
Implicit Types (self s : MemoryCacher (K := K) (V := V)) (key k : K) (value v : V).

(** X14.  [MemoryCacher]: [put] replaces the value of a key that is
    already cached (the last [put] wins) and touches no other key; [rmv]
    forgets the key, touches no other key and is harmless on a missing
    key; [get] of a missing key raises [KeyError]; and [get_put] answers a
    cached key without calling the getter, caches what the getter returns
    otherwise, caches nothing when the getter raises, and gives the same
    answer when asked again, whatever the second getter is. *)
Theorem X14_memory_cacher_laws self key value :
  (get (put self key value) key = Ok value
   /\ forall key', key' <> key -> get (put self key value) key' = get self key')
  /\ (contains (rmv self key) key = false
      /\ get (rmv self key) key = Raise KeyError
      /\ (forall key', key' <> key -> get (rmv self key) key' = get self key')
      /\ (contains self key = false -> rmv self key = self))
  /\ (contains self key = false <-> get self key = Raise KeyError)
  /\ (forall getter cached, get self key = Ok cached ->
        get_put self key getter = Ok (self, cached))
  /\ (contains self key = false ->
        get_put self key (Ok value) = Ok (put self key value, value)
        /\ forall e, get_put self key (Raise e) = Raise e)
  /\ (forall getter getter' self' answer,
        get_put self key getter = Ok (self', answer) ->
        get_put self' key getter' = Ok (self', answer)).
Proof.
  assert (Hcontains : forall s k, contains s k = false <-> _cache s !! k = None).
  { intros s k. unfold contains. rewrite bool_decide_eq_false.
    rewrite <- eq_None_not_Some. reflexivity. }
  assert (Hcached : forall s k getter cached, get s k = Ok cached ->
            get_put s k getter = Ok (s, cached)).
  { intros s k getter cached Hget. unfold get_put.
    assert (Hin : contains s k = true).
    { unfold contains. apply bool_decide_eq_true. unfold get in Hget.
      destruct (_cache s !! k); [eauto | discriminate]. }
    rewrite Hin. cbn [negb mbind result_bind]. rewrite Hget. reflexivity. }
  assert (Hput : forall s k v, get (put s k v) k = Ok v).
  { intros s k v. unfold get, put. cbn [_cache]. rewrite lookup_insert_eq. reflexivity. }
  split; [|split; [|split; [|split; [|split]]]].
  - split; [apply Hput|].
    intros key' Hne. unfold get, put. cbn [_cache]. rewrite lookup_insert_ne by done.
    reflexivity.
  - unfold rmv. destruct (contains self key) eqn:E.
    + split; [apply Hcontains; cbn [_cache]; apply lookup_delete_eq|].
      split; [unfold get; cbn [_cache]; rewrite lookup_delete_eq; reflexivity|].
      split; [|discriminate].
      intros key' Hne. unfold get. cbn [_cache]. rewrite lookup_delete_ne by done.
      reflexivity.
    + split; [exact E|]. apply Hcontains in E.
      split; [unfold get; rewrite E; reflexivity|]. split; reflexivity.
  - rewrite Hcontains. unfold get. destruct (_cache self !! key); split; congruence.
  - intros getter cached. apply Hcached.
  - intros Hnot. unfold get_put. rewrite Hnot. cbn [negb mbind result_bind].
    rewrite Hput. split; reflexivity.
  - intros getter getter' self' answer Hgp. apply Hcached.
    unfold get_put in Hgp.
    destruct (contains self key) eqn:E; cbn [negb mbind result_bind] in Hgp.
    + destruct (get self key) as [v|e] eqn:Hget; [|discriminate].
      cbn [mbind result_bind] in Hgp. injection Hgp as <- <-. exact Hget.
    + destruct getter as [v|e]; [|discriminate]. cbn [mbind result_bind] in Hgp.
      rewrite Hput in Hgp. cbn [mbind result_bind] in Hgp. injection Hgp as <- <-.
      apply Hput.
Qed.

End Laws.

Lemma X14_memory_cacher_witness :
  let self := mkMemoryCacher (K := Z) (V := Z) ∅ in
  contains self 7 = false
  /\ get_put self 7 (Ok 1) = Ok (put self 7 1, 1)
  /\ get_put (put self 7 1) 7 (Ok 2) = Ok (put self 7 1, 1).
Proof.
  intros self.
  destruct (X14_memory_cacher_laws self 7 1) as (_ & _ & _ & _ & Hfresh & Hagain).
  assert (Hnot : contains self 7 = false) by reflexivity.
  destruct (Hfresh Hnot) as [Hput _].
  split; [exact Hnot|]. split; [exact Hput|].
  exact (Hagain (Ok 1) (Ok 2) _ _ Hput).
Defined.

End memory_cacher_facts.

Module disk_cacher_laws.
Import cachers examples quantities.

Lemma rstrip_snoc (line : bytes) (c : N) :
  is_crlf c = true -> rstrip (line ++ [c]) = rstrip line.
Proof.
  intros Hc. induction line as [|x line IH]; cbn [app rstrip].
  - rewrite Hc. reflexivity.
  - rewrite IH. reflexivity.
Qed.

Lemma rstrip_line_end (line : bytes) : rstrip (line ++ [13; 10]%N) = rstrip line.
Proof.
  change (line ++ [13; 10]%N) with (line ++ [13%N] ++ [10%N]).
  rewrite app_assoc, !rstrip_snoc by reflexivity. reflexivity.
Qed.

Lemma rstrip_cons (c : N) (line : bytes) :
  rstrip (c :: line)
  = match rstrip line with
    | [] => if is_crlf c then [] else [c]
    | y :: rest => c :: y :: rest
    end.
Proof. reflexivity. Qed.

Lemma rstrip_idempotent (line : bytes) : rstrip (rstrip line) = rstrip line.
Proof.
  induction line as [|c line IH]; [reflexivity|]. rewrite rstrip_cons.
  destruct (rstrip line) as [|y rest] eqn:E.
  - destruct (is_crlf c) eqn:Ec; [reflexivity|].
    rewrite rstrip_cons. cbn [rstrip]. rewrite Ec. reflexivity.
  - rewrite rstrip_cons, IH. reflexivity.
Qed.

(** A line that was written comes back as one line when it holds no line
    feed, and as one line more for each line feed it holds. *)
Lemma file_lines_written (line rest acc : bytes) :
  10%N ∉ line ->
  file_lines (line ++ [13; 10]%N ++ rest) acc
  = (acc ++ line ++ [13; 10]%N) :: file_lines rest [].
Proof.
  revert acc. induction line as [|c line IH]; intros acc Hnot.
  - cbn. rewrite <- app_assoc. reflexivity.
  - cbn [app file_lines]. destruct (N.eqb_spec c 10) as [-> | Hne].
    + exfalso. apply Hnot. left.
    + rewrite IH by (intros Hin; apply Hnot; right; exact Hin).
      rewrite <- app_assoc. reflexivity.
Qed.

Lemma length_file_lines_written (line rest acc : bytes) :
  length (file_lines (line ++ [13; 10]%N ++ rest) acc)
  = (line_feeds line + 1 + length (file_lines rest []))%nat.
Proof.
  revert acc. induction line as [|c line IH]; intros acc.
  - reflexivity.
  - cbn [app file_lines]. unfold line_feeds. rewrite filter_cons.
    destruct (N.eqb_spec c 10) as [-> | Hne].
    + rewrite decide_True by reflexivity. cbn [length]. rewrite IH.
      unfold line_feeds. lia.
    + rewrite decide_False by exact Hne. rewrite IH. reflexivity.
Qed.

Lemma file_lines_concat (value : list bytes) :
  Forall (fun line => 10%N ∉ rstrip line) value ->
  file_lines (concat (map (fun line => rstrip line ++ [13; 10]%N) value)) []
  = map (fun line => rstrip line ++ [13; 10]%N) value.
Proof.
  induction 1 as [|line value Hline _ IH]; [reflexivity|].
  cbn [map concat]. rewrite <- app_assoc.
  rewrite file_lines_written by exact Hline. rewrite IH. reflexivity.
Qed.

Lemma length_file_lines_concat (value : list bytes) :
  length (file_lines (concat (map (fun line => rstrip line ++ [13; 10]%N) value)) [])
  = (length value + foldr Nat.add 0 (map (fun line => line_feeds (rstrip line)) value))%nat.
Proof.
  induction value as [|line value IH]; [reflexivity|].
  cbn [map concat]. rewrite <- app_assoc.
  rewrite length_file_lines_written, IH. cbn [length foldr]. lia.
Qed.

Section Laws.
Variable isalnum_above_latin1 : N -> bool.

Abbreviation accepted key := (forallb (key_char_ok isalnum_above_latin1) key = true).
Abbreviation contains := (cachers.contains isalnum_above_latin1).
Abbreviation get := (cachers.get isalnum_above_latin1).
Abbreviation put := (cachers.put isalnum_above_latin1).
Abbreviation rmv := (cachers.rmv isalnum_above_latin1).
Abbreviation get_put := (cachers.get_put isalnum_above_latin1).

Lemma cache_path_accepted (self : DiskCacher) (dir key : pystr) :
  _cache_dir self = Some dir -> accepted key ->
  _cache_path isalnum_above_latin1 self key = Ok (key ++ str ".gz").
Proof.
  intros Hdir Hkey. unfold _cache_path, _cache_name. rewrite Hkey, Hdir. reflexivity.
Qed.

Lemma contains_accepted (self : DiskCacher) (dir key : pystr) :
  _cache_dir self = Some dir -> accepted key ->
  contains self key = Ok (bool_decide (is_Some (files self !! (key ++ str ".gz")))).
Proof.
  intros Hdir Hkey. unfold cachers.contains.
  rewrite (cache_path_accepted self dir key Hdir Hkey). rewrite Hdir. reflexivity.
Qed.

Lemma get_accepted (self : DiskCacher) (dir key : pystr) :
  _cache_dir self = Some dir -> accepted key ->
  get self key = Ok (match files self !! (key ++ str ".gz") with
                     | Some content => map rstrip (file_lines content [])
                     | None => []
                     end).
Proof.
  intros Hdir Hkey. unfold cachers.get.
  rewrite (contains_accepted self dir key Hdir Hkey). cbn [mbind result_bind].
  rewrite (cache_path_accepted self dir key Hdir Hkey). cbn [mbind result_bind].
  destruct (files self !! (key ++ str ".gz")) as [content|] eqn:E.
  - rewrite bool_decide_eq_true_2 by eauto. reflexivity.
  - rewrite bool_decide_eq_false_2 by (intros [? ?]; discriminate). reflexivity.
Qed.

Lemma put_accepted (self : DiskCacher) (dir key : pystr) (value : list bytes) :
  _cache_dir self = Some dir -> accepted key ->
  put self key value
  = Ok (match files self !! (key ++ str ".gz") with
        | Some _ => self
        | None =>
            mkDiskCacher (_cache_dir self)
              (<[key ++ str ".gz" := concat (map (fun line => rstrip line ++ [13; 10]%N) value)]>
                 (files self))
        end).
Proof.
  intros Hdir Hkey. unfold cachers.put, put_body. rewrite Hdir.
  rewrite (contains_accepted self dir key Hdir Hkey). cbn [mbind result_bind].
  rewrite (cache_path_accepted self dir key Hdir Hkey). cbn [mbind result_bind].
  destruct (files self !! (key ++ str ".gz")) as [content|] eqn:E.
  - rewrite bool_decide_eq_true_2 by eauto. reflexivity.
  - rewrite bool_decide_eq_false_2 by (intros [? ?]; discriminate). reflexivity.
Qed.

Lemma rmv_accepted (self : DiskCacher) (dir key : pystr) :
  _cache_dir self = Some dir -> accepted key ->
  rmv self key
  = Ok (match files self !! (key ++ str ".gz") with
        | Some _ => mkDiskCacher (_cache_dir self) (delete (key ++ str ".gz") (files self))
        | None => self
        end).
Proof.
  intros Hdir Hkey. unfold cachers.rmv.
  rewrite (cache_path_accepted self dir key Hdir Hkey). cbn [mbind result_bind].
  destruct (files self !! (key ++ str ".gz")) as [content|] eqn:E.
  - rewrite bool_decide_eq_true_2 by eauto. reflexivity.
  - rewrite bool_decide_eq_false_2 by (intros [? ?]; discriminate). reflexivity.
Qed.

(** X15.  [DiskCacher] with a cache directory, on a key it accepts and
    has no file for: [put] succeeds, the key is then in the cache, and
    [get] gives back one line for each line that was put and one more for
    each line feed inside a line; when no line holds a line feed before
    its trailing [\r] and [\n], [get] gives back exactly the lines that
    were put, each without its trailing [\r] and [\n].  The other keys are
    not touched. *)
Theorem X15_disk_cacher_round_trip (self : DiskCacher) (dir key : pystr)
    (value : list bytes) :
  _cache_dir self = Some dir ->
  accepted key ->
  files self !! (key ++ str ".gz") = None ->
  exists self',
    put self key value = Ok self'
    /\ contains self' key = Ok true
    /\ (exists lines,
          get self' key = Ok lines
          /\ length lines
             = (length value
                + foldr Nat.add 0 (map (fun line => line_feeds (rstrip line)) value))%nat)
    /\ (Forall (fun line => 10%N ∉ rstrip line) value ->
        get self' key = Ok (map rstrip value))
    /\ (forall key', accepted key' -> key' <> key -> get self' key' = get self key').
Proof.
  intros Hdir Hkey Hfresh.
  rewrite (put_accepted self dir key value Hdir Hkey), Hfresh.
  eexists. split; [reflexivity|].
  set (self' := mkDiskCacher _ _).
  assert (Hdir' : _cache_dir self' = Some dir) by exact Hdir.
  assert (Hfile : files self' !! (key ++ str ".gz")
                  = Some (concat (map (fun line => rstrip line ++ [13; 10]%N) value))).
  { unfold self'. cbn [files]. apply lookup_insert_eq. }
  split; [|split; [|split]].
  - rewrite (contains_accepted self' dir key Hdir' Hkey), Hfile.
    rewrite bool_decide_eq_true_2 by eauto. reflexivity.
  - rewrite (get_accepted self' dir key Hdir' Hkey), Hfile. eexists. split; [reflexivity|].
    rewrite length_map. apply length_file_lines_concat.
  - intros Hlines. rewrite (get_accepted self' dir key Hdir' Hkey), Hfile.
    rewrite file_lines_concat by exact Hlines. rewrite map_map. f_equal.
    apply map_ext. intros line. rewrite rstrip_line_end. apply rstrip_idempotent.
  - intros key' Hkey' Hne.
    rewrite (get_accepted self' dir key' Hdir' Hkey'), (get_accepted self dir key' Hdir Hkey').
    unfold self'. cbn [files]. rewrite lookup_insert_ne; [reflexivity|].
    intros Heq. apply Hne. symmetry. exact (app_inv_tail _ _ _ Heq).
Qed.

(** X16.  [DiskCacher] with a cache directory, on a key it accepts: the
    first [put] wins, a [put] on a key that has a file changes nothing;
    [rmv] forgets the key and touches no other; [get_put] answers a cached
    key without calling the getter, and otherwise stores what the getter
    returns and answers with what [get] then reads, which it answers
    again when asked again, whatever the second getter is; when the getter
    raises, so does [get_put]. *)
Theorem X16_disk_cacher_first_put_wins (self : DiskCacher) (dir key : pystr) :
  _cache_dir self = Some dir ->
  accepted key ->
  (forall value, contains self key = Ok true -> put self key value = Ok self)
  /\ (exists self',
        rmv self key = Ok self'
        /\ contains self' key = Ok false
        /\ get self' key = Ok []
        /\ (forall key', accepted key' -> key' <> key -> get self' key' = get self key'))
  /\ (forall getter lines, contains self key = Ok true -> get self key = Ok lines ->
        get_put self key getter = Ok (self, lines))
  /\ (forall value, contains self key = Ok false ->
        exists self' lines,
          put self key value = Ok self'
          /\ get self' key = Ok lines
          /\ get_put self key (Ok value) = Ok (self', lines)
          /\ forall getter, get_put self' key getter = Ok (self', lines))
  /\ (forall e, contains self key = Ok false -> get_put self key (Raise e) = Raise e).
Proof.
  intros Hdir Hkey.
  pose proof (contains_accepted self dir key Hdir Hkey) as Hc.
  assert (Hpresent : forall s : DiskCacher, _cache_dir s = Some dir ->
            forall getter lines, contains s key = Ok true -> get s key = Ok lines ->
            get_put s key getter = Ok (s, lines)).
  { intros s Hs getter lines Hin Hget. unfold cachers.get_put. rewrite Hs, Hin.
    cbn [negb mbind result_bind]. rewrite Hget. reflexivity. }
  split; [|split; [|split; [|split]]].
  - intros value Hin. rewrite Hc in Hin. injection Hin as Hin.
    apply bool_decide_eq_true in Hin as [content Hcontent].
    rewrite (put_accepted self dir key value Hdir Hkey), Hcontent. reflexivity.
  - rewrite (rmv_accepted self dir key Hdir Hkey).
    destruct (files self !! (key ++ str ".gz")) as [content|] eqn:E.
    + eexists. split; [reflexivity|].
      set (self' := mkDiskCacher _ _).
      assert (Hdir' : _cache_dir self' = Some dir) by exact Hdir.
      assert (Hgone : files self' !! (key ++ str ".gz") = None)
        by (unfold self'; cbn [files]; apply lookup_delete_eq).
      split; [|split].
      * rewrite (contains_accepted self' dir key Hdir' Hkey), Hgone.
        rewrite bool_decide_eq_false_2 by (intros [? ?]; discriminate). reflexivity.
      * rewrite (get_accepted self' dir key Hdir' Hkey), Hgone. reflexivity.
      * intros key' Hkey' Hne.
        rewrite (get_accepted self' dir key' Hdir' Hkey'),
          (get_accepted self dir key' Hdir Hkey').
        unfold self'. cbn [files]. rewrite lookup_delete_ne; [reflexivity|].
        intros Heq. apply Hne. symmetry. exact (app_inv_tail _ _ _ Heq).
    + exists self. split; [reflexivity|]. split; [|split].
      * rewrite Hc, ?E. rewrite bool_decide_eq_false_2 by (intros [? ?]; discriminate).
        reflexivity.
      * rewrite (get_accepted self dir key Hdir Hkey), ?E. reflexivity.
      * reflexivity.
  - apply Hpresent. exact Hdir.
  - intros value Hnot. rewrite Hc in Hnot. injection Hnot as Hnot.
    apply bool_decide_eq_false in Hnot.
    assert (Hfresh : files self !! (key ++ str ".gz") = None)
      by (apply eq_None_not_Some; exact Hnot).
    pose proof (put_accepted self dir key value Hdir Hkey) as Hput. rewrite Hfresh in Hput.
    set (self' := mkDiskCacher _ _) in Hput.
    assert (Hdir' : _cache_dir self' = Some dir) by exact Hdir.
    assert (Hfile : files self' !! (key ++ str ".gz")
                    = Some (concat (map (fun line => rstrip line ++ [13; 10]%N) value))).
    { unfold self'. cbn [files]. apply lookup_insert_eq. }
    pose proof (get_accepted self' dir key Hdir' Hkey) as Hget. rewrite Hfile in Hget.
    assert (Hin : contains self' key = Ok true).
    { rewrite (contains_accepted self' dir key Hdir' Hkey), Hfile.
      rewrite bool_decide_eq_true_2 by eauto. reflexivity. }
    exists self'. eexists. split; [exact Hput|]. split; [exact Hget|]. split.
    + unfold cachers.get_put. rewrite Hdir, Hc.
      rewrite bool_decide_eq_false_2 by exact Hnot. cbn [negb mbind result_bind].
      fold put. rewrite Hput. cbn [mbind result_bind]. fold get. rewrite Hget. reflexivity.
    + intros getter. apply (Hpresent self' Hdir' getter _ Hin Hget).
  - intros e Hnot. unfold cachers.get_put. rewrite Hdir. fold contains. rewrite Hnot.
    reflexivity.
Qed.

(** X17.  A [DiskCacher] without a cache directory (the default) checks
    no key and stores nothing: for every key, also one that [_cache_name]
    refuses, [in] answers [False], [get] gives no line, [put] does nothing
    and [get_put] is the call of the getter.  Only [rmv] fails: it raises
    the [TypeError] of [None / str] for a key that [_cache_name] accepts,
    and the [CobaException] of [_cache_name] for one it refuses. *)
Theorem X17_disk_cacher_without_directory (self : DiskCacher) (key : pystr) :
  _cache_dir self = None ->
  contains self key = Ok false
  /\ get self key = Ok []
  /\ (forall value, put self key value = Ok self)
  /\ (forall value, get_put self key (Ok value) = Ok (self, value))
  /\ (forall e, get_put self key (Raise e) = Raise e)
  /\ rmv self key
     = Raise (if forallb (key_char_ok isalnum_above_latin1) key
              then Exception "TypeError: unsupported operand type(s) for /"
              else CobaException
                     "A key was given to DiskCacher which couldn't be made into a file").
Proof.
  intros Hdir.
  assert (Hc : contains self key = Ok false) by (unfold cachers.contains; rewrite Hdir; reflexivity).
  split; [exact Hc|].
  split; [unfold cachers.get; fold contains; rewrite Hc; reflexivity|].
  split; [intros value; unfold cachers.put; rewrite Hdir; reflexivity|].
  split; [intros value; unfold cachers.get_put; rewrite Hdir; reflexivity|].
  split; [intros e; unfold cachers.get_put; rewrite Hdir; reflexivity|].
  unfold cachers.rmv, _cache_path, _cache_name.
  destruct (forallb (key_char_ok isalnum_above_latin1) key); cbn [negb mbind result_bind].
  - rewrite Hdir. reflexivity.
  - reflexivity.
Qed.

End Laws.

Lemma X15_disk_cacher_witness :
  let self := mkDiskCacher (Some (str "cache")) ∅ in
  exists self',
    cachers.put (fun _ => false) self (str "openml_000042_descr")
      [str "first" ++ [13; 10]%N; str "second"] = Ok self'
    /\ cachers.get (fun _ => false) self' (str "openml_000042_descr")
       = Ok [str "first"; str "second"].
Proof.
  intros self.
  destruct (X15_disk_cacher_round_trip (fun _ => false) self (str "cache")
              (str "openml_000042_descr") [str "first" ++ [13; 10]%N; str "second"]
              eq_refl eq_refl eq_refl) as (self' & Hput & _ & _ & Hget & _).
  exists self'. split; [exact Hput|]. apply Hget.
  repeat constructor; vm_compute; intros Hin;
    repeat (apply elem_of_cons in Hin as [Hin | Hin]; [discriminate|]); inversion Hin.
Defined.

Lemma X16_disk_cacher_witness :
  let self := mkDiskCacher (Some (str "cache")) {[ str "key.gz" := str "old" ]} in
  cachers.put (fun _ => false) self (str "key") [str "new"] = Ok self
  /\ cachers.get_put (fun _ => false) self (str "key") (Ok [str "new"]) = Ok (self, [str "old"]).
Proof.
  intros self.
  destruct (X16_disk_cacher_first_put_wins (fun _ => false) self (str "cache") (str "key")
              eq_refl eq_refl) as (Hput & _ & Hcached & _).
  split; [apply Hput; vm_compute; reflexivity|].
  apply Hcached; vm_compute; reflexivity.
Defined.

Lemma X17_disk_cacher_witness :
  let self := mkDiskCacher None ∅ in
  cachers.contains (fun _ => false) self (str "a/b") = Ok false
  /\ cachers.get_put (fun _ => false) self (str "a/b") (Ok [str "line"]) = Ok (self, [str "line"])
  /\ is_ok (cachers.rmv (fun _ => false) self (str "a/b")) = false.
Proof.
  intros self.
  destruct (X17_disk_cacher_without_directory (fun _ => false) self (str "a/b") eq_refl)
    as (Hc & _ & _ & Hgp & _ & Hrmv).
  split; [exact Hc|]. split; [apply Hgp|]. rewrite Hrmv. reflexivity.
Defined.

End disk_cacher_laws.

(** ** coba/contexts/cachers.py: [ConcurrentCacher] when the wrapped cacher raises *)

Module leaked_lock_facts.
Import cachers quantities concurrent_cacher_facts.

Section Leaks.
Context {K : Type} `{Countable K}.
Implicit Types (k key : K) (d : gmap K Z) (p : process (K := K)) (s : system (K := K)).

Ltac keeps_with r w :=
  exists r, w; cbn [pc generators reads writes];
  rewrite ?occ_cons_eq, ?occ_remove_one_eq;
  rewrite ?occ_cons_ne by done; rewrite ?occ_remove_one_ne by done;
  split; [|split; lia].

(** No move of a process gives back a lock that it keeps beyond its code
    and its generators. *)
Lemma process_move_keeps k (m : move) d p d' p' (sr sw : nat) :
  process_move m d p = Some (d', p') -> keeps k sr sw p -> keeps k sr sw p'.
Proof.
  intros Hmove (r & w & Hsafe & Hr & Hw).
  destruct p as [c gens rd wr]. cbn [pc generators reads writes] in *.
  destruct m as [op | b | key | key].
  - destruct c; try discriminate. injection Hmove as <- <-.
    keeps_with 0%nat 0%nat. apply code_of_safe.
  - destruct c as [|key next|key next|key next|key next|key next|next|yes no|key next];
      cbn [process_move pc generators reads writes] in Hmove; try discriminate.
    + (* AcquireRead *)
      destruct (_acquired_read_lock d key) as [d1 [|]]; injection Hmove as <- <-.
      * cbn [safe] in Hsafe. destruct (decide (key = k)) as [-> | Hne].
        -- keeps_with (S r) w. exact Hsafe.
        -- keeps_with r w. exact Hsafe.
      * keeps_with r w. exact Hsafe.
    + (* ReleaseRead *)
      destruct (_release_read_lock d key) as [d1 | e]; injection Hmove as <- <-.
      * cbn [safe] in Hsafe. destruct (decide (key = k)) as [-> | Hne].
        -- destruct r as [|r']; [contradiction|]. keeps_with r' w. exact Hsafe.
        -- keeps_with r w. exact Hsafe.
      * keeps_with r w. exact I.
    + (* AcquireWrite *)
      destruct (_acquired_write_lock d key) as [d1 [|]]; injection Hmove as <- <-.
      * cbn [safe] in Hsafe. destruct (decide (key = k)) as [-> | Hne].
        -- keeps_with r (S w). exact Hsafe.
        -- keeps_with r w. exact Hsafe.
      * keeps_with r w. exact Hsafe.
    + (* SwitchWriteToRead *)
      injection Hmove as <- <-. cbn [safe] in Hsafe.
      destruct (decide (key = k)) as [-> | Hne].
      * destruct w as [|w']; [contradiction|]. keeps_with (S r) w'. exact Hsafe.
      * keeps_with r w. exact Hsafe.
    + (* ReleaseWrite *)
      injection Hmove as <- <-. cbn [safe] in Hsafe.
      destruct (decide (key = k)) as [-> | Hne].
      * destruct w as [|w']; [contradiction|]. keeps_with r w'. exact Hsafe.
      * keeps_with r w. exact Hsafe.
    + (* Wrapped *)
      injection Hmove as <- <-. keeps_with r w. cbn [safe] in Hsafe.
      destruct b; [exact Hsafe | exact I].
    + (* Test *)
      injection Hmove as <- <-. keeps_with r w. cbn [safe] in Hsafe.
      destruct b; [apply Hsafe | apply Hsafe].
    + (* Generator *)
      injection Hmove as <- <-. cbn [safe] in Hsafe.
      destruct (decide (key = k)) as [-> | Hne].
      * destruct r as [|r']; [contradiction|]. keeps_with r' w. exact Hsafe.
      * keeps_with r w. exact Hsafe.
  - (* Drain *)
    assert (Hdrain : process_move (Drain key) d (mkProcess c gens rd wr)
                     = if bool_decide (key ∈ gens) then
                         match _release_read_lock d key with
                         | Ok d1 => Some (d1, mkProcess c (remove_one key gens)
                                                (remove_one key rd) wr)
                         | Raise _ => Some (d, mkProcess c (remove_one key gens) rd wr)
                         end
                       else None) by (destruct c; reflexivity).
    rewrite Hdrain in Hmove. clear Hdrain.
    destruct (bool_decide (key ∈ gens)) eqn:Hin; [|discriminate].
    apply bool_decide_eq_true in Hin. pose proof (occ_elem_of key gens Hin) as Hocc.
    destruct (_release_read_lock d key) as [d1 | e]; injection Hmove as <- <-.
    + destruct (decide (key = k)) as [-> | Hne]; keeps_with r w; exact Hsafe.
    + destruct (decide (key = k)) as [-> | Hne]; keeps_with r w; exact Hsafe.
  - (* DrainRaises *)
    assert (Hdrain : process_move (DrainRaises key) d (mkProcess c gens rd wr)
                     = if bool_decide (key ∈ gens)
                       then Some (d, mkProcess c (remove_one key gens) rd wr)
                       else None) by (destruct c; reflexivity).
    rewrite Hdrain in Hmove. clear Hdrain.
    destruct (bool_decide (key ∈ gens)); [|discriminate].
    injection Hmove as <- <-.
    destruct (decide (key = k)) as [-> | Hne]; keeps_with r w; exact Hsafe.
Qed.

Lemma system_move_keeps k (i j : nat) (m : move) s s' (sr sw : nat) :
  system_move i m s = Some s' ->
  (exists p, processes s !! j = Some p /\ keeps k sr sw p) ->
  exists p', processes s' !! j = Some p' /\ keeps k sr sw p'.
Proof.
  intros Hmove (p & Hp & Hkeeps).
  destruct (system_move_unfold i m s s' Hmove) as (q & d' & q' & Hq & Hpm & ->).
  cbn [processes]. destruct (decide (i = j)) as [-> | Hne].
  - exists q'. split; [apply list_lookup_insert_eq; eapply lookup_lt_Some; exact Hq|].
    rewrite Hq in Hp. injection Hp as <-. eapply process_move_keeps; eassumption.
  - exists p. rewrite list_lookup_insert_ne by exact Hne. split; assumption.
Qed.

Lemma run_keeps k (j : nat) (schedule : list (nat * move)) s s' (sr sw : nat) :
  run schedule s = Some s' ->
  (exists p, processes s !! j = Some p /\ keeps k sr sw p) ->
  exists p', processes s' !! j = Some p' /\ keeps k sr sw p'.
Proof.
  revert s. induction schedule as [|[i m] rest IH]; intros s Hrun Hp; simpl in Hrun.
  - injection Hrun as <-. exact Hp.
  - destruct (system_move i m s) as [s1|] eqn:Hm; [|discriminate]. simpl in Hrun.
    apply (IH s1 Hrun). eapply system_move_keeps; eassumption.
Qed.

(** The moves of one process, one after the other. *)
Lemma run_own_move (i : nat) (m : move) (rest : list (nat * move)) s s' p :
  run ((i, m) :: rest) s = Some s' ->
  processes s !! i = Some p ->
  exists d1 p1 s1,
    process_move m (dict s) p = Some (d1, p1)
    /\ dict s1 = d1 /\ processes s1 !! i = Some p1 /\ run rest s1 = Some s'.
Proof.
  intros Hrun Hp. simpl in Hrun.
  destruct (system_move i m s) as [s1|] eqn:Hm; [|discriminate]. simpl in Hrun.
  destruct (system_move_unfold i m s s1 Hm) as (q & d' & q' & Hq & Hpm & ->).
  rewrite Hq in Hp. injection Hp as ->.
  exists d', q', (mkSystem d' (<[i := q']> (processes s))).
  split; [exact Hpm|]. split; [reflexivity|].
  split; [apply list_lookup_insert_eq; eapply lookup_lt_Some; exact Hq | exact Hrun].
Qed.





(** X24.  [_generator_release] calls [release()] after its [for] loop,
    with no [try]/[finally].  When a generator that [get] or [get_put]
    handed out ends before it is drained (the wrapped generator raises
    while it is iterated, or the caller closes it), the read lock that it
    carries is never given back: from then on, whatever any process does,
    the entry of the key stays at 1 or more, and no attempt to acquire its
    write lock succeeds. *)
Theorem X24_failed_drain_leaves_key_read_locked (n : nat) (prefix rest : list (nat * move))
    (i : nat) k s0 s' :
  run prefix (initial n) = Some s0 ->
  (exists p, processes s0 !! i = Some p /\ k ∈ generators p) ->
  run ((i, DrainRaises k) :: rest) s0 = Some s' ->
  (exists v, dict s' !! k = Some v /\ 1 <= v)
  /\ snd (_acquired_write_lock (dict s') k) = false.
Proof.
  intros Hprefix (p & Hp & Hgen) Hrun.
  pose proof (run_invariant prefix _ _ Hprefix (initial_invariant n)) as Hinv0.
  pose proof (run_invariant _ _ _ Hrun Hinv0) as Hinv.
  assert (Hok : process_ok k p).
  { destruct (Hinv0 k) as [_ Hall]. eapply Forall_lookup_1; eassumption. }
  destruct Hok as (r0 & w0 & Hsafe & Hr0 & Hw0).
  pose proof (occ_elem_of k _ Hgen) as Hocc.
  destruct (run_own_move _ _ _ _ _ _ Hrun Hp) as (d1 & p1 & s1 & Hm1 & Hd1 & Hp1 & Hrest).
  assert (Hkeeps : keeps k 1 0 p1).
  { destruct p as [c gens rd wr]. cbn [pc generators reads writes] in *.
    assert (Hdrain : process_move (DrainRaises k) (dict s0) (mkProcess c gens rd wr)
                     = if bool_decide (k ∈ gens)
                       then Some (dict s0, mkProcess c (remove_one k gens) rd wr)
                       else None) by (destruct c; reflexivity).
    rewrite Hdrain in Hm1. rewrite bool_decide_eq_true_2 in Hm1 by exact Hgen.
    injection Hm1 as <- <-. keeps_with r0 w0. exact Hsafe. }
  destruct (run_keeps k i rest s1 s' 1 0 Hrest) as (p' & Hp' & (r & w & _ & Hr & _)); [eauto|].
  pose proof (total_lookup_le (fun q => occ k (reads q)) _ _ _ Hp') as HR. cbn beta in HR.
  destruct (Hinv k) as [Htab _]. unfold table_ok, readers in Htab.
  assert (Hentry : exists v, dict s' !! k = Some v /\ 1 <= v).
  { destruct (dict s' !! k) as [v|]; [|lia]. exists v. split; [reflexivity|]. lia. }
  split; [exact Hentry|]. destruct Hentry as (v & Hv & Hpos).
  rewrite acquired_write_lock_spec, Hv.
  destruct (Z.eqb_spec v 0) as [-> | _]; [lia | reflexivity].
Qed.

End Leaks.



(** Process 0 calls [get] on the key 7 and is handed a generator, which
    raises while it is drained; then process 1 calls [put] on the key and
    waits. *)
Lemma X24_failed_drain_witness :
  exists s',
    run [(0%nat, Call (Get 7)); (0%nat, Step true); (0%nat, Step true); (0%nat, Step true);
         (0%nat, Step true); (0%nat, DrainRaises 7);
         (1%nat, Call (Put 7)); (1%nat, Step true)]
      (initial 2) = Some s'
    /\ Forall (fun p => generators p = []) (processes s')
    /\ snd (_acquired_write_lock (dict s') 7) = false.
Proof.
  eexists. split; [vm_compute; reflexivity|]. split; [repeat constructor|].
  match goal with
  | |- snd (_acquired_write_lock (dict ?s) _) = _ =>
      destruct (@X24_failed_drain_leaves_key_read_locked Z _ _ 2
                  [(0%nat, Call (Get 7)); (0%nat, Step true); (0%nat, Step true);
                   (0%nat, Step true); (0%nat, Step true)]
                  [(1%nat, Call (Put 7)); (1%nat, Step true)] 0 7 _ s
                  ltac:(vm_compute; reflexivity)
                  ltac:(eexists; split; [vm_compute; reflexivity | constructor])
                  ltac:(vm_compute; reflexivity)) as (_ & Hw)
  end.
  exact Hw.
Defined.

End leaked_lock_facts.

(** ** coba/simulations.py: [LambdaSimulation] and [Shuffle] *)

Module lambda_simulation_facts.
Import simulations examples memory_simulation_facts.

Abbreviation no_action :=
  (Exception "AssertionError: At least one action must be provided to interact").

Section Lambdas.
Variable context : Z -> value.
Variable action_set : Z -> list value.
Variable reward : value -> value -> Reward.

Abbreviation interaction_at := (fun i : Z => mkInteraction (context i) (action_set i) i).
Abbreviation reward_set_at := (fun i : Z => map (reward (context i)) (action_set i)).

Lemma LambdaSource_items_spec (indexes : list Z) :
  Forall (fun i => action_set i <> []) indexes ->
  LambdaSource_items indexes context action_set reward
  = Ok (map interaction_at indexes, map reward_set_at indexes).
Proof.
  induction 1 as [|i rest Hi _ IH]; [reflexivity|].
  cbn [LambdaSource_items map]. unfold Interaction_init.
  destruct (action_set i) as [|a rest'] eqn:E; [contradiction|].
  cbn [mbind result_bind]. rewrite IH. cbn [mbind result_bind]. rewrite ?E. reflexivity.
Qed.

Lemma LambdaSource_items_raises (indexes : list Z) :
  Exists (fun i => action_set i = []) indexes ->
  LambdaSource_items indexes context action_set reward = Raise no_action.
Proof.
  induction indexes as [|i rest IH]; intros Hex; [inversion Hex|].
  cbn [LambdaSource_items]. unfold Interaction_init.
  destruct (action_set i) as [|a rest'] eqn:E; [reflexivity|].
  cbn [mbind result_bind].
  apply Exists_cons in Hex as [Hi | Hrest]; [congruence|].
  rewrite (IH Hrest). reflexivity.
Qed.

Lemma lookup_py_range (n i : Z) : 0 <= i < n -> py_range n !! Z.to_nat i = Some i.
Proof.
  intros Hi. unfold py_range. change (map Z.of_nat ?l) with (Z.of_nat <$> l).
  rewrite list_lookup_fmap, lookup_seq_lt by lia. cbn. f_equal. lia.
Qed.

(** X20.  [LambdaSimulation(n, context, action_set, reward).read()], for
    functions of their arguments: when every action set of the indexes
    [0 .. n-1] has an action, the simulation has [n] interactions,
    interaction [i] with the key [i], the context [context(i)] and the
    actions [action_set(i)], and [reward] answers every choice [(i, a)]
    with [reward(context(i), action_set(i)[a])], in the order of the
    choices; when some action set is empty, the constructor stops with the
    [AssertionError] of [Interaction]. *)
Theorem X20_lambda_simulation_replays_the_lambdas (n : Z) :
  ((forall i, 0 <= i < n -> action_set i <> []) ->
   exists simulation,
     LambdaSimulation_read n context action_set reward = Ok simulation
     /\ interactions simulation = Ok (map interaction_at (py_range n))
     /\ forall choices expected,
          Forall2 (fun (c : Key * Choice) r =>
                     0 <= fst c < n /\ 0 <= snd c
                     /\ exists x, action_set (fst c) !! Z.to_nat (snd c) = Some x
                                  /\ r = reward (context (fst c)) x) choices expected ->
          simulations.reward simulation choices = Ok expected)
  /\ ((exists i, 0 <= i < n /\ action_set i = []) ->
      LambdaSimulation_read n context action_set reward = Raise no_action).
Proof.
  split.
  - intros Hall. unfold LambdaSimulation_read, LambdaSource_read.
    rewrite LambdaSource_items_spec
      by (apply Forall_forall; intros i Hi; apply Hall, elem_of_py_range, Hi).
    cbn [mbind result_bind]. unfold MemorySimulation_init.
    rewrite !length_map, Nat.eqb_refl. cbn [negb].
    eexists. split; [reflexivity|]. split; [reflexivity|].
    intros choices expected Hchoices. cbn [simulations.reward].
    apply lookup_rewards_Forall2. eapply Forall2_impl; [exact Hchoices|].
    intros [i a] r (Hi & Ha & x & Hx & ->). cbn [fst snd] in *.
    replace a with (Z.of_nat (Z.to_nat a)) at 1 by lia.
    change (i, Z.of_nat (Z.to_nat a)) with (key (interaction_at i), Z.of_nat (Z.to_nat a)).
    apply (rewards_built _ _ (Z.to_nat i) (interaction_at i) (reward_set_at i)).
    + rewrite map_map. cbn [key]. rewrite map_id. apply NoDup_py_range.
    + change (map ?f ?l) with (f <$> l). apply Forall2_fmap, Forall_Forall2_diag, Forall_forall.
      intros j _. cbn [actions]. rewrite length_map. reflexivity.
    + change (map ?f ?l) with (f <$> l). rewrite list_lookup_fmap, lookup_py_range by exact Hi.
      reflexivity.
    + change (map ?f ?l) with (f <$> l). rewrite list_lookup_fmap, lookup_py_range by exact Hi.
      reflexivity.
    + change (map ?f ?l) with (f <$> l). rewrite list_lookup_fmap, Hx. reflexivity.
  - intros (i & Hi & Hempty). unfold LambdaSimulation_read, LambdaSource_read.
    rewrite LambdaSource_items_raises; [reflexivity|].
    apply Exists_exists. exists i. split; [|exact Hempty].
    apply (list_elem_of_lookup_2 _ (Z.to_nat i)).
    apply lookup_py_range, Hi.
Qed.

End Lambdas.

(** The witness of X20: two interactions, the actions 0 and 1, the
    reward of an action its own value. *)
Lemma X20_lambda_simulation_witness :
  exists simulation,
    LambdaSimulation_read 2 VInt (fun _ => [VInt 0; VInt 1])
      (fun _ a => match a with VInt z => inject_Z z | _ => 0%Q end) = Ok simulation
    /\ simulations.reward simulation [(1, 1); (0, 0)] = Ok [1; 0]%Q.
Proof.
  destruct (X20_lambda_simulation_replays_the_lambdas VInt (fun _ => [VInt 0; VInt 1])
              (fun _ a => match a with VInt z => inject_Z z | _ => 0%Q end) 2)
    as [Hread _].
  destruct Hread as (simulation & Hsim & _ & Hreward); [intros i _; discriminate|].
  exists simulation. split; [exact Hsim|]. apply Hreward.
  constructor; [|constructor; [|constructor]].
  - split; [cbn; lia|]. split; [cbn; lia|]. exists (VInt 1). split; reflexivity.
  - split; [cbn; lia|]. split; [cbn; lia|]. exists (VInt 0). split; reflexivity.
Defined.

End lambda_simulation_facts.

Module shuffle_simulation_facts.
Import coba_random simulations examples random_facts.

Section Floats.
Context {F : Type} `{PyFloatSigns F}.

Lemma Shuffle_filter_spec (seed : Z) (item : Simulation) (items : list Interaction) :
  interactions item = Ok items ->
  exists shuffled l,
    Shuffle_filter seed item = Ok shuffled
    /\ interactions shuffled = Ok l
    /\ l ≡ₚ items
    /\ (forall choices, reward shuffled choices = reward item choices)
    /\ (items <> [] -> exists seed', shuffle items seed = Ok (l, seed')).
Proof.
  intros Hitems. unfold Shuffle_filter, ShuffleSimulation_init. rewrite Hitems.
  cbn [mbind result_bind].
  destruct (CobaRandom_shuffle_permutes items seed) as (l & seed' & -> & Hperm & _ & Hsame).
  cbn [mbind result_bind]. exists (ShuffleSimulation (Some seed) item l), l.
  split; [reflexivity|]. split; [reflexivity|]. split; [exact Hperm|].
  split; [reflexivity|]. intros Hne. exists seed'. apply Hsame. exact Hne.
Qed.

End Floats.

(** In binary64 the value that the loop of [CobaRandom_shuffle] hands to
    [int] is a number. *)
Lemma CobaRandom_shuffle_index_is_finite (n seed : Z) (i : Z) (ri : float) :
  fst (@CobaRandom_randoms float binary64 n seed) !! Z.to_nat i = Some ri ->
  isfinite (Prim2SF (Z_to_float i + ri * Z_to_float (n - i))%float).
Proof.
  intros Hri. apply (small_isfinite (Z.max 64 130 + 2)).
  rewrite add_spec. apply SFadd_small; [apply Z_to_float_small | | lia | lia | lia].
  rewrite mul_spec. apply (SFmul_small 65 64); [|apply Z_to_float_small | lia | lia | lia].
  unfold CobaRandom_randoms in Hri.
  destruct (iter_next (Z.to_nat n) seed) as [numbers seed1]. cbn [fst] in Hri.
  apply list_lookup_fmap_Some in Hri as (number & -> & _). apply draw_small.
Qed.

(** X21.  [Shuffle(seed).filter] returns a simulation whose interactions
    are a rearrangement of those of the simulation it is given, none lost
    and none twice, and that answers [reward] as that simulation does.
    The class [CobaRandom] that [ShuffleSimulation] calls is not among the
    sources: its [shuffle] is the Fisher-Yates of section 4.1 of the
    specification, and for a simulation that has interactions the order is
    the one that [Random.shuffle] of [coba/random.py] gives.  This holds
    in binary64 ([binary64_signs]) and in exact arithmetic; and in
    binary64 every value that the loop hands to [int] is a number, not an
    infinity or a NaN, so that [int] returns. *)
Theorem X21_shuffle_filter_rearranges :
  (forall (F : Type) (PF : PyFloat F) (FS : @PyFloatSigns F PF) (seed : Z)
     (item : Simulation) (items : list Interaction),
      interactions item = Ok items ->
      exists shuffled l,
        Shuffle_filter (F := F) seed item = Ok shuffled
        /\ interactions shuffled = Ok l
        /\ l ≡ₚ items
        /\ (forall choices, reward shuffled choices = reward item choices)
        /\ (items <> [] -> exists seed', shuffle (F := F) items seed = Ok (l, seed')))
  /\ (forall (n seed i : Z) (ri : float),
        fst (@CobaRandom_randoms float binary64 n seed) !! Z.to_nat i = Some ri ->
        isfinite (Prim2SF (Z_to_float i + ri * Z_to_float (n - i))%float)).
Proof.
  split.
  - intros F PF FS. apply Shuffle_filter_spec.
  - exact CobaRandom_shuffle_index_is_finite.
Qed.

(** The witness of X21: binary64, three interactions, the seed 1. *)
Lemma X21_shuffle_filter_witness :
  exists shuffled l,
    @Shuffle_filter float binary64 1 (memory_simulation 3) = Ok shuffled
    /\ interactions shuffled = Ok l
    /\ l ≡ₚ some_interactions 3.
Proof.
  destruct (proj1 X21_shuffle_filter_rearranges float binary64 binary64_signs 1
              (memory_simulation 3) (some_interactions 3) eq_refl)
    as (shuffled & l & Hs & Hl & Hperm & _).
  exists shuffled, l. split; [exact Hs|]. split; [exact Hl | exact Hperm].
Defined.

End shuffle_simulation_facts.

(** ** coba/environments/simulated/synthetics.py: the reward in binary64 *)

Module reward_range_facts.
Import coba_random synthetics random_facts synthetics_facts.

Lemma is_nan_spec (x : float) : PrimFloat.is_nan x = true <-> Prim2SF x = S754_nan.
Proof.
  unfold PrimFloat.is_nan. rewrite FloatAxioms.eqb_spec. unfold SFeqb.
  destruct (Prim2SF x) as [s|s| |s m e]; simpl.
  - split; discriminate.
  - destruct s; split; discriminate.
  - split; reflexivity.
  - rewrite Z.compare_refl, Pos.compare_cont_refl. destruct s; split; discriminate.
Qed.

Lemma nan_plus (x y : float) : PrimFloat.is_nan x = true -> PrimFloat.is_nan (x + y) = true.
Proof.
  rewrite !is_nan_spec, add_spec. intros ->. reflexivity.
Qed.

Lemma nan_not_above (x y : float) : PrimFloat.is_nan y = true -> PrimFloat.ltb x y = false.
Proof.
  rewrite is_nan_spec, FloatAxioms.ltb_spec. intros ->. unfold SFltb.
  destruct (Prim2SF x); reflexivity.
Qed.

(** X22.  In binary64, the arithmetic that CPython runs, the closure
    [reward] of [LinearSyntheticSimulation] raises in two cases only: the
    encoder raises, or [r_noise_var] is below zero and [math.sqrt] raises
    [ValueError].  Otherwise it returns a number between 0 and 1, both
    included, and never a NaN, whatever the weights and the encoded
    features are, infinities and NaNs among them: a dot product that is a
    NaN gives the reward 0.  It advances the generator by one draw. *)
Theorem X22_reward_is_in_the_unit_interval
    (encode : list float -> list float -> result (list float))
    (r_noise_var : float) (W : list float) (context : option (list float))
    (action : list float) (seed : Z) :
  match encode (match context with
                | Some (x :: xs) => x :: xs
                | _ => [1%float]
                end) action with
  | Raise e =>
      @reward float binary64 encode math_sqrt r_noise_var W context action seed = Raise e
  | Ok Fs =>
      if PrimFloat.ltb r_noise_var 0
      then @reward float binary64 encode math_sqrt r_noise_var W context action seed
           = Raise (ValueError "math domain error")
      else
        exists r,
          @reward float binary64 encode math_sqrt r_noise_var W context action seed
          = Ok (r, lcg seed)
          /\ PrimFloat.leb 0 r = true
          /\ PrimFloat.leb r 1 = true
          /\ PrimFloat.is_nan r = false
          /\ (PrimFloat.is_nan (@dot float binary64 W Fs) = true -> r = 0%float)
  end.
Proof.
  pose proof (reward_binary64 encode r_noise_var W context action seed) as Hreward.
  destruct (encode _ action) as [Fs | e]; [|exact Hreward].
  destruct (PrimFloat.ltb r_noise_var 0); [exact Hreward|].
  eexists. split; [exact Hreward|].
  match goal with
  | |- context [clamp ?y] => destruct (clamp_binary64 y) as (Hlo & Hhi & _ & Hbelow & _)
  end.
  split; [exact Hlo|]. split; [exact Hhi|]. split; [exact (leb_not_nan _ _ Hlo)|].
  intros Hnan. apply Hbelow. apply nan_not_above. apply nan_plus. exact Hnan.
Qed.

End reward_range_facts.

(** ** coba/contexts/cachers.py: [ConcurrentCacher] when nothing raises *)

Module returned_lock_facts.
Import cachers quantities concurrent_cacher_facts.

Section Returns.
Context {K : Type} `{Countable K}.
Implicit Types (k key : K) (d : gmap K Z) (p : process (K := K)) (s : system (K := K)).

Ltac exact_with r w :=
  exists r, w; cbn [pc generators reads writes];
  rewrite ?occ_cons_eq, ?occ_remove_one_eq;
  rewrite ?occ_cons_ne by done; rewrite ?occ_remove_one_ne by done;
  split; [|split; lia].

(** Each method gives back every lock it acquires. *)
Lemma code_of_balanced k (op : operation) : balanced k 0 0 (code_of op).
Proof.
  destruct op as [key|key|key|key]; cbn;
    destruct (decide (key = k)); cbn; auto.
Qed.

(** A process that holds a read lock on [key] finds the key in the table. *)
Lemma held_read_is_listed d key (R W : nat) :
  table_ok (d !! key) R W -> (1 <= R)%nat -> exists v, d !! key = Some v.
Proof.
  unfold table_ok. destruct (d !! key) as [v|]; [eauto | lia].
Qed.

(** A move that is neither a raising call nor a generator that ends
    before it is drained keeps the account of every key exact. *)
Lemma process_move_exact (m : move) d p d' p' :
  process_move m d p = Some (d', p') ->
  raises m p = false ->
  (forall k, exists R W, table_ok (d !! k) R W /\ (occ k (reads p) <= R)%nat) ->
  (forall k, exact_locks k p) ->
  forall k, exact_locks k p'.
Proof.
  intros Hmove Hquiet Htab Hexact k.
  destruct (Hexact k) as (r & w & Hbal & Hr & Hw).
  destruct p as [c gens rd wr]. cbn [pc generators reads writes] in *.
  destruct m as [op | b | key | key]; [| | |destruct c; discriminate Hquiet].
  - destruct c; try discriminate. injection Hmove as <- <-.
    destruct Hbal as [-> ->]. exact_with 0%nat 0%nat. apply code_of_balanced.
  - destruct c as [|key next|key next|key next|key next|key next|next|yes no|key next];
      cbn [process_move pc generators reads writes] in Hmove; try discriminate.
    + (* AcquireRead *)
      destruct (_acquired_read_lock d key) as [d1 [|]]; injection Hmove as <- <-.
      * cbn [balanced] in Hbal. destruct (decide (key = k)) as [-> | Hne].
        -- exact_with (S r) w. exact Hbal.
        -- exact_with r w. exact Hbal.
      * exact_with r w. exact Hbal.
    + (* ReleaseRead *)
      assert (Hlisted : exists v, d !! key = Some v).
      { destruct (Hexact key) as (rk & wk & Hbk & Hrk & _).
        cbn [pc generators reads writes balanced] in Hbk, Hrk.
        destruct (decide (key = key)) as [_ | Hne]; [|done].
        destruct rk as [|rk']; [contradiction|].
        destruct (Htab key) as (R & W & Ht & HR). cbn [reads] in HR.
        apply (held_read_is_listed d key R W Ht). lia. }
      destruct Hlisted as (v & Hv). unfold _release_read_lock in Hmove. rewrite Hv in Hmove.
      injection Hmove as <- <-. cbn [balanced] in Hbal.
      destruct (decide (key = k)) as [-> | Hne].
      * destruct r as [|r']; [contradiction|]. exact_with r' w. exact Hbal.
      * exact_with r w. exact Hbal.
    + (* AcquireWrite *)
      destruct (_acquired_write_lock d key) as [d1 [|]]; injection Hmove as <- <-.
      * cbn [balanced] in Hbal. destruct (decide (key = k)) as [-> | Hne].
        -- exact_with r (S w). exact Hbal.
        -- exact_with r w. exact Hbal.
      * exact_with r w. exact Hbal.
    + (* SwitchWriteToRead *)
      injection Hmove as <- <-. cbn [balanced] in Hbal.
      destruct (decide (key = k)) as [-> | Hne].
      * destruct w as [|w']; [contradiction|]. exact_with (S r) w'. exact Hbal.
      * exact_with r w. exact Hbal.
    + (* ReleaseWrite *)
      injection Hmove as <- <-. cbn [balanced] in Hbal.
      destruct (decide (key = k)) as [-> | Hne].
      * destruct w as [|w']; [contradiction|]. exact_with r w'. exact Hbal.
      * exact_with r w. exact Hbal.
    + (* Wrapped *)
      unfold raises in Hquiet. cbn [pc] in Hquiet.
      destruct b; [|discriminate]. injection Hmove as <- <-.
      exact_with r w. exact Hbal.
    + (* Test *)
      injection Hmove as <- <-. exact_with r w. cbn [balanced] in Hbal.
      destruct b; apply Hbal.
    + (* Generator *)
      injection Hmove as <- <-. cbn [balanced] in Hbal.
      destruct (decide (key = k)) as [-> | Hne].
      * destruct r as [|r']; [contradiction|]. exact_with r' w. exact Hbal.
      * exact_with r w. exact Hbal.
  - (* Drain *)
    assert (Hdrain : process_move (Drain key) d (mkProcess c gens rd wr)
                     = if bool_decide (key ∈ gens) then
                         match _release_read_lock d key with
                         | Ok d1 => Some (d1, mkProcess c (remove_one key gens)
                                                (remove_one key rd) wr)
                         | Raise _ => Some (d, mkProcess c (remove_one key gens) rd wr)
                         end
                       else None) by (destruct c; reflexivity).
    rewrite Hdrain in Hmove. clear Hdrain.
    destruct (bool_decide (key ∈ gens)) eqn:Hin; [|discriminate].
    apply bool_decide_eq_true in Hin. pose proof (occ_elem_of key gens Hin) as Hocc.
    assert (Hlisted : exists v, d !! key = Some v).
    { destruct (Hexact key) as (rk & wk & _ & Hrk & _).
      cbn [pc generators reads writes] in Hrk.
      destruct (Htab key) as (R & W & Ht & HR). cbn [reads] in HR.
      apply (held_read_is_listed d key R W Ht). lia. }
    destruct Hlisted as (v & Hv). unfold _release_read_lock in Hmove. rewrite Hv in Hmove.
    injection Hmove as <- <-.
    destruct (decide (key = k)) as [-> | Hne]; exact_with r w; exact Hbal.
Qed.

Lemma system_move_exact (i : nat) (m : move) s s' :
  system_move i m s = Some s' ->
  (forall p, processes s !! i = Some p -> raises m p = false) ->
  invariant s ->
  (forall k, Forall (exact_locks k) (processes s)) ->
  forall k, Forall (exact_locks k) (processes s').
Proof.
  intros Hmove Hquiet Hinv Hexact k.
  destruct (system_move_unfold i m s s' Hmove) as (p & d' & p' & Hp & Hpm & ->).
  cbn [processes]. apply Forall_insert; [apply Hexact|].
  apply (process_move_exact m (dict s) p d' p' Hpm (Hquiet p Hp)).
  - intros key. exists (readers key s), (writers key s). split; [apply Hinv|].
    apply (total_lookup_le (fun q => occ key (reads q)) _ _ _ Hp).
  - intros key. eapply Forall_lookup_1; [apply Hexact | exact Hp].
Qed.

Lemma run_exact (schedule : list (nat * move)) s s' :
  run schedule s = Some s' ->
  quiet schedule s ->
  invariant s ->
  (forall k, Forall (exact_locks k) (processes s)) ->
  forall k, Forall (exact_locks k) (processes s').
Proof.
  revert s. induction schedule as [|[i m] rest IH]; intros s Hrun Hquiet Hinv Hexact;
    simpl in Hrun.
  - injection Hrun as <-. exact Hexact.
  - destruct Hquiet as [Hnow Hlater].
    destruct (system_move i m s) as [s1|] eqn:Hm; [|discriminate]. simpl in Hrun.
    apply (IH s1 Hrun Hlater).
    + eapply system_move_preserves; eassumption.
    + apply (system_move_exact i m s s1 Hm); [|exact Hinv | exact Hexact].
      intros p Hp. rewrite Hp in Hnow. exact Hnow.
Qed.

Lemma total_zero (f : process -> nat) (ps : list process) :
  Forall (fun p => f p = 0%nat) ps -> total f ps = 0%nat.
Proof.
  induction 1 as [|p ps Hp _ IH]; [reflexivity|]. cbn [total foldr].
  unfold total in IH. rewrite Hp, IH. reflexivity.
Qed.

(** X23.  When no call of the wrapped cacher raises and no generator
    handed out by [get] or [get_put] ends before it is drained (it does
    not raise while it is iterated, and it is not closed), the
    [ConcurrentCacher] gives back every lock: in every state that [n]
    processes reach from the empty table, by any schedule of calls of
    [get], [put], [rmv] and [get_put], steps and drains, once every
    process has returned from its method and drained its generators, no
    process holds a lock, and every key of the table is idle, its entry
    being 0. *)
Theorem X23_quiet_run_returns_every_lock (n : nat) (schedule : list (nat * move)) s :
  run schedule (initial n) = Some s ->
  quiet schedule (initial n) ->
  Forall (fun p => pc p = Return /\ generators p = []) (processes s) ->
  forall k,
    (dict s !! k = None \/ dict s !! k = Some 0)
    /\ readers k s = 0%nat /\ writers k s = 0%nat
    /\ snd (_acquired_write_lock (dict s) k) = true.
Proof.
  intros Hrun Hquiet Hdone k.
  pose proof (run_invariant schedule _ _ Hrun (initial_invariant n)) as Hinv.
  assert (Hinit : forall key, Forall (exact_locks key) (processes (initial (K := K) n))).
  { intros key. unfold initial. cbn [processes]. apply Forall_replicate.
    exists 0%nat, 0%nat. cbn. auto. }
  pose proof (run_exact schedule _ _ Hrun Hquiet (initial_invariant n) Hinit k) as Hexact.
  assert (Hnone : Forall (fun p => occ k (reads p) = 0%nat /\ occ k (writes p) = 0%nat)
                    (processes s)).
  { apply Forall_forall. intros p Hp.
    destruct (proj1 (Forall_forall _ _) Hexact p Hp) as (r & w & Hbal & Hr & Hw).
    destruct (proj1 (Forall_forall _ _) Hdone p Hp) as [Hpc Hgens].
    rewrite Hpc in Hbal. rewrite Hgens in Hr. cbn in Hbal, Hr. lia. }
  assert (HR : readers k s = 0%nat).
  { unfold readers. apply total_zero. eapply Forall_impl; [exact Hnone|]. cbn beta. tauto. }
  assert (HW : writers k s = 0%nat).
  { unfold writers. apply total_zero. eapply Forall_impl; [exact Hnone|]. cbn beta. tauto. }
  destruct (Hinv k) as [Htab _]. rewrite HR, HW in Htab. unfold table_ok in Htab.
  assert (Hidle : dict s !! k = None \/ dict s !! k = Some 0).
  { destruct (dict s !! k) as [v|]; [right; f_equal; lia | left; reflexivity]. }
  split; [exact Hidle|]. split; [exact HR|]. split; [exact HW|].
  rewrite acquired_write_lock_spec. destruct Hidle as [-> | ->]; reflexivity.
Qed.

End Returns.

(** Process 0 calls [get_put] on the key 7, finds it missing, stores it
    and returns; process 1 then calls [put] on the same key and returns. *)
Lemma X23_quiet_run_witness :
  exists s,
    run [(0%nat, Call (GetPut 7)); (0%nat, Step true); (0%nat, Step false); (0%nat, Step true);
         (0%nat, Step true); (0%nat, Step true); (0%nat, Step true); (0%nat, Step true);
         (0%nat, Step false); (0%nat, Step true);
         (1%nat, Call (Put 7)); (1%nat, Step true); (1%nat, Step true); (1%nat, Step true)]
      (initial 2) = Some s
    /\ dict s !! 7 = Some 0
    /\ snd (_acquired_write_lock (dict s) 7) = true.
Proof.
  eexists. split; [vm_compute; reflexivity|]. split; [vm_compute; reflexivity|].
  match goal with
  | |- snd (_acquired_write_lock (dict ?s) _) = _ =>
      destruct (@X23_quiet_run_returns_every_lock Z _ _ 2
                  [(0%nat, Call (GetPut 7)); (0%nat, Step true); (0%nat, Step false);
                   (0%nat, Step true); (0%nat, Step true); (0%nat, Step true);
                   (0%nat, Step true); (0%nat, Step true); (0%nat, Step false);
                   (0%nat, Step true);
                   (1%nat, Call (Put 7)); (1%nat, Step true); (1%nat, Step true);
                   (1%nat, Step true)] s
                  ltac:(vm_compute; reflexivity)
                  ltac:(vm_compute; repeat split; reflexivity)
                  ltac:(vm_compute; repeat constructor) 7) as (_ & _ & _ & Hw)
  end.
  exact Hw.
Defined.

End returned_lock_facts.
